(** * Solana token launcher: a shallow embedding of its core and its checked properties

    The development follows the JavaScript sources:
    - [config/config.js]: the [CONFIG] table, [getNetworkUrl], [getExplorerUrl],
      [getNetworkCluster];
    - [src/utils.js]: [fileUtils], [tokenUtils], [validators], [displayUtils];
    - [src/check-token.js]: the inspection performed by [checkToken];
    - [src/mint-tokens.js], [src/revoke-authorities.js]: the record update
      performed after minting and after revocation.

    Part I holds the embedding (definitions only), Part II the lemmas and the
    theorems about it.

    Conventions of the embedding.
    - A JavaScript string whose code units are all below 256 is the [string]
      of these code units; as a value it is [VStr].  A string with a larger
      code unit is the list of its code units, [VWide]; an object with such
      a string among its keys is a [VWideObj].
    - A text (the content of a file, the text of a value in a console line,
      a command line or a path) is a [string]: it holds a code unit above 255
      as its escape [\uXXXX], which [JSON.parse] reads as it reads the
      character.  What comes from outside as a text (a network, a path, the
      answer to a prompt, the output of the external program) is a string of
      code units below 256.
    - A JavaScript number is a double.  [VNum z] is the double whose value is
      the integer [z]; [VReal x] is a double that is not an integer, a binary
      fraction or an infinity.  Negative zero is zero.  No operation of the
      sources makes a NaN of the values held.
    - An object is the list of its properties in the order in which JavaScript
      enumerates them: the array indices in ascending order, then the other
      keys in the order in which they were defined.  [JSON.parse] builds this
      order; the sources define properties whose names are no array index.
    - A thrown exception is the [Throw] case of [result]; [try]/[catch] is
      [try_catch].
    - A computation runs in a [World]: the disk, the console and the external
      program, whose answers are a parameter.  The answers of the RPC node
      and of the HTTP server are parameters of [checkToken].
    - Console output is recorded as a trace of [Event]s; the colours applied by
      chalk are not recorded. *)

From Stdlib Require Import List String Ascii Bool Arith ZArith NArith Lia.
From Stdlib Require Import Strings.Byte.
From Stdlib Require Import DecimalString DecimalZ DecimalN.
Import ListNotations.

Local Open Scope list_scope.
Local Open Scope string_scope.
Local Open Scope nat_scope.

(* ===================================================================== *)
(** * Part I.  The embedding                                              *)
(* ===================================================================== *)

(* --------------------------------------------------------------------- *)
(** ** JavaScript values, errors and results                              *)
(* --------------------------------------------------------------------- *)

(** The values a token record, a decoded JSON document or a local variable
    of the sources can hold.  The properties of an object are kept in their
    enumeration order.  The induction principle that goes through the nested
    lists is [value_ind'], stated with the notions of the statements. *)
(** A double that is not an integer: [m / 2 ^ k] with [m] odd, or an
    infinity. *)
Inductive real : Type :=
| Dyadic (m : Z) (k : positive)
| Infinite (negative : bool).

#[local] Unset Elimination Schemes.
Inductive value : Type :=
| VUndefined
| VNull
| VBool (b : bool)
| VNum (z : Z)
| VStr (s : string)
| VArr (items : list value)
| VObj (props : list (string * value))
| VReal (x : real)
| VWide (units : list N)
| VWideObj (props : list (list N * value)).
#[local] Set Elimination Schemes.

Inductive JsError : Type :=
| TypeError (message : string)
| RangeError (message : string)
| SyntaxError (message : string)
| Error (message : string).

Definition error_message (e : JsError) : string :=
  match e with
  | TypeError m | RangeError m | SyntaxError m | Error m => m
  end.

Inductive result (A : Type) : Type :=
| Ok (a : A)
| Throw (e : JsError).

Arguments Ok {A} a.
Arguments Throw {A} e.

Definition rbind {A B} (r : result A) (k : A -> result B) : result B :=
  match r with
  | Ok a => k a
  | Throw e => Throw e
  end.

(** JavaScript truthiness (ToBoolean). *)
Definition truthy (v : value) : bool :=
  match v with
  | VUndefined | VNull => false
  | VBool b => b
  | VNum z => negb (z =? 0)%Z
  | VStr s => negb (String.eqb s "")
  | VArr _ | VObj _ | VReal _ | VWideObj _ => true
  | VWide units => match units with [] => false | _ :: _ => true end
  end.

(** The code units of a string. *)
Definition units_of (s : string) : list N := map N_of_ascii (list_ascii_of_string s).

Definition real_eqb (x y : real) : bool :=
  match x, y with
  | Dyadic m k, Dyadic m' k' => (m =? m')%Z && Pos.eqb k k'
  | Infinite s, Infinite s' => Bool.eqb s s'
  | _, _ => false
  end.

Fixpoint units_eqb (x y : list N) : bool :=
  match x, y with
  | [], [] => true
  | u :: x', u' :: y' => (u =? u')%N && units_eqb x' y'
  | _, _ => false
  end.

(** [a || b] *)
Definition js_or (a b : value) : value := if truthy a then a else b.

(** [a === b].  Two objects (or arrays) obtained separately are never the
    same reference, and that is the only way the sources compare them. *)
Definition strict_eq (a b : value) : bool :=
  match a, b with
  | VUndefined, VUndefined => true
  | VNull, VNull => true
  | VBool x, VBool y => Bool.eqb x y
  | VNum x, VNum y => (x =? y)%Z
  | VStr x, VStr y => String.eqb x y
  | VReal x, VReal y => real_eqb x y
  | VWide x, VWide y => units_eqb x y
  | VStr x, VWide y => units_eqb (units_of x) y
  | VWide x, VStr y => units_eqb x (units_of y)
  | _, _ => false
  end.

Fixpoint assoc {A} (k : string) (l : list (string * A)) : option A :=
  match l with
  | [] => None
  | (k', a) :: r => if String.eqb k k' then Some a else assoc k r
  end.

(** Defining a property whose name is no array index: an existing key keeps
    its place and takes the new value, a new key goes last. *)
Fixpoint set_prop {A} (k : string) (a : A) (l : list (string * A)) : list (string * A) :=
  match l with
  | [] => [(k, a)]
  | (k', a') :: r =>
      if String.eqb k k' then (k', a) :: r else (k', a') :: set_prop k a r
  end.

(** The same for keys that are given by their code units. *)
Fixpoint assoc_units {A} (k : list N) (l : list (list N * A)) : option A :=
  match l with
  | [] => None
  | (k', a) :: r => if units_eqb k k' then Some a else assoc_units k r
  end.

Fixpoint set_units {A} (k : list N) (a : A) (l : list (list N * A)) : list (list N * A) :=
  match l with
  | [] => [(k, a)]
  | (k', a') :: r =>
      if units_eqb k k' then (k', a) :: r else (k', a') :: set_units k a r
  end.

Definition is_digit_unit (u : N) : bool := ((48 <=? u) && (u <=? 57))%N.

(** The array index that a key writes: a canonical numeral below 2^32 - 1. *)
Definition array_index (key : list N) : option N :=
  match key with
  | [] => None
  | d :: ds =>
      if forallb is_digit_unit key
         && negb ((d =? 48)%N && match ds with [] => false | _ :: _ => true end)
         && (List.length key <=? 10)
      then
        let n := fold_left (fun a u => (10 * a + (u - 48))%N) key 0%N in
        if (n <? 4294967295)%N then Some n else None
      else None
  end.

(** [o.k] for a property name [k] that no prototype defines (the record and
    metadata fields read by the sources).  Reading a property of [undefined]
    or [null] throws. *)
Definition get_prop (o : value) (k : string) : result value :=
  match o with
  | VUndefined =>
      Throw (TypeError ("Cannot read properties of undefined (reading '" ++ k ++ "')"))
  | VNull =>
      Throw (TypeError ("Cannot read properties of null (reading '" ++ k ++ "')"))
  | VObj props =>
      match assoc k props with
      | Some v => Ok v
      | None => Ok VUndefined
      end
  | VWideObj props =>
      match assoc_units (units_of k) props with
      | Some v => Ok v
      | None => Ok VUndefined
      end
  | _ => Ok VUndefined
  end.

(* --------------------------------------------------------------------- *)
(** ** Strings                                                            *)
(* --------------------------------------------------------------------- *)

(** [s.includes(sub)] *)
Definition includes (s sub : string) : bool :=
  match String.index 0 sub s with Some _ => true | None => false end.

(** [String.prototype.toLowerCase] and [toUpperCase] on code units below 256:
    the Latin letters and the accented letters of Latin-1. *)
Definition lower_char (c : ascii) : ascii :=
  let n := nat_of_ascii c in
  if ((65 <=? n) && (n <=? 90)) || ((192 <=? n) && (n <=? 222) && negb (n =? 215))
  then ascii_of_nat (n + 32) else c.

(** The capital of the sharp s (223) is the two letters SS.  The capitals
    of the micro sign (181) and of the y with diaeresis (255) lie above 255:
    in a text they are the escapes of the code units 039c and 0178. *)
Definition upper_char (c : ascii) : string :=
  let n := nat_of_ascii c in
  if ((97 <=? n) && (n <=? 122)) || ((224 <=? n) && (n <=? 254) && negb (n =? 247))
  then String (ascii_of_nat (n - 32)) EmptyString
  else if n =? 223 then "SS"
  else if n =? 181 then "\u039c"
  else if n =? 255 then "\u0178"
  else String c EmptyString.

Fixpoint toLowerCase (s : string) : string :=
  match s with
  | EmptyString => EmptyString
  | String c r => String (lower_char c) (toLowerCase r)
  end.

Fixpoint toUpperCase (s : string) : string :=
  match s with
  | EmptyString => EmptyString
  | String c r => upper_char c ++ toUpperCase r
  end.

(** [s.endsWith(suffix)] *)
Definition endsWith (s suffix : string) : bool :=
  let n := String.length s in
  let m := String.length suffix in
  (m <=? n) && String.eqb (substring (n - m) m s) suffix.

(* --------------------------------------------------------------------- *)
(** ** Numbers                                                            *)
(* --------------------------------------------------------------------- *)

(** The integers that a double holds exactly, with their neighbours. *)
Definition safe_integer (z : Z) : bool :=
  ((- 9007199254740991 <=? z) && (z <=? 9007199254740991))%Z.

(** The arithmetic of doubles, on exact rationals: the rounding of a ratio
    to the nearest double, the number that a decimal denotes and
    Number::toString. *)
Module Number.

Local Open Scope Z_scope.

(** The integer part of the binary logarithm of [n / d], for positive [n]
    and [d]. *)
Definition log2_ratio (n d : Z) : Z :=
  let g := Z.log2 n - Z.log2 d in
  if n * 2 ^ Z.max (- g) 0 <? d * 2 ^ Z.max g 0 then g - 1 else g.

(** The integer nearest to [n / d]; of two equally near, the even one. *)
Definition div_half_even (n d : Z) : Z :=
  let q := n / d in
  let r := n mod d in
  if 2 * r <? d then q
  else if d <? 2 * r then q + 1
  else if Z.even q then q else q + 1.

(** A double as a significand and a binary exponent, [m * 2 ^ e], or the
    overflow of the format. *)
Inductive rounded : Type :=
| Finite (m e : Z)
| Overflow.

(** The double nearest to [n / d] (round to nearest, ties to even), for
    positive [n] and [d]: 53 bits of significand, exponents from -1074 to
    971. *)
Definition round (n d : Z) : rounded :=
  let e := Z.max (log2_ratio n d - 52) (-1074) in
  let m := if e <? 0 then div_half_even (n * 2 ^ (- e)) d
           else div_half_even n (d * 2 ^ e) in
  if (971 <? e) || ((e =? 971) && (m =? 2 ^ 53)) then Overflow else Finite m e.

(** [p / 2 ^ k] in lowest terms. *)
Fixpoint lowest (p : positive) (k : N) : positive * N :=
  match p, k with
  | xO p', Npos _ => lowest p' (N.pred k)
  | _, _ => (p, k)
  end.

Definition signed (negative : bool) (z : Z) : Z := if negative then - z else z.

(** The value of a double: an integer, or a number that is not one. *)
Definition number_of (negative : bool) (r : rounded) : value :=
  match r with
  | Overflow => VReal (Infinite negative)
  | Finite m e =>
      if 0 <=? e then VNum (signed negative (m * 2 ^ e))
      else
        match m with
        | Zpos p =>
            match lowest p (Z.to_N (- e)) with
            | (p', N0) => VNum (signed negative (Zpos p'))
            | (p', Npos k) => VReal (Dyadic (signed negative (Zpos p')) k)
            end
        | _ => VNum 0
        end
  end.

Definition decimal (z : Z) : string :=
  NilZero.string_of_uint (N.to_uint (Z.to_N z)).

Definition digits (z : Z) : Z := Z.of_nat (String.length (decimal z)).

(** The number that the decimal [c * 10 ^ x] denotes, for a natural [c]. *)
Definition of_decimal (negative : bool) (c : Z) (x : Z) : value :=
  if (x =? 0) && safe_integer c then VNum (signed negative c)
  else if c =? 0 then VNum 0
  else if 309 <? x + digits c then VReal (Infinite negative)
  else if x + digits c <? -330 then VNum 0
  else if 0 <=? x then number_of negative (round (c * 10 ^ x) 1)
  else number_of negative (round c (10 ^ (- x))).

(** *** Number::toString *)

(** The [n] with [10 ^ (n - 1) <= a / b < 10 ^ n]. *)
Definition log10_ratio (a b : Z) : Z :=
  let g := digits a - digits b in
  if a * 10 ^ Z.max (- g) 0 <? b * 10 ^ Z.max g 0 then g else g + 1.

Definition same_number (a b : value) : bool :=
  match a, b with
  | VNum x, VNum y => x =? y
  | VReal (Dyadic m k), VReal (Dyadic m' k') => (m =? m') && (Pos.eqb k k')
  | VReal (Infinite s), VReal (Infinite s') => Bool.eqb s s'
  | _, _ => false
  end.

(** The integers [t] next to [(a / b) * 10 ^ (k - n)], below and above. *)
Definition below (a b n k : Z) : Z :=
  if 0 <=? k - n then (a * 10 ^ (k - n)) / b else a / (b * 10 ^ (n - k)).

(** [t * 10 ^ (n - k)] is nearer to [a / b] than [(t + 1) * 10 ^ (n - k)];
    of two equally near, the even one is taken. *)
Definition lower_is_nearer (a b n k t : Z) : bool :=
  let a' := if 0 <=? k - n then a * 10 ^ (k - n) else a in
  let b' := if 0 <=? k - n then b else b * 10 ^ (n - k) in
  if 2 * a' <? (2 * t + 1) * b' then true
  else if (2 * t + 1) * b' <? 2 * a' then false
  else Z.even t.

(** [t * 10 ^ (n - k)] reads as the number [target]. *)
Definition reads_as (t n k : Z) (target : value) : bool :=
  same_number (of_decimal false t (n - k)) target.

(** The digits [s] and their number [k] of Number::toString: the least [k]
    for which a decimal of [k] digits reads as the number, and of two such
    decimals the nearer one.  Seventeen digits always suffice. *)
Fixpoint shortest (fuel : nat) (a b n k : Z) (target : value) : Z * Z :=
  let lo := below a b n k in
  let hi := lo + 1 in
  match fuel with
  | O => (if lower_is_nearer a b n k lo then lo else hi, k)
  | S fuel' =>
      match reads_as lo n k target, reads_as hi n k target with
      | true, true => (if lower_is_nearer a b n k lo then lo else hi, k)
      | true, false => (lo, k)
      | false, true => (hi, k)
      | false, false => shortest fuel' a b n (k + 1) target
      end
  end.

Fixpoint strip_zeros (rev_digits : list ascii) : list ascii :=
  match rev_digits with
  | "0"%char :: r => strip_zeros r
  | _ => rev_digits
  end.

Definition without_trailing_zeros (s : string) : string :=
  string_of_list_ascii (rev (strip_zeros (rev (list_ascii_of_string s)))).

Fixpoint zeros (n : nat) : string :=
  match n with
  | O => EmptyString
  | S n' => String "0" (zeros n')
  end.

(** The text of the digits [s] with the decimal point after [n] of them. *)
Definition layout (s : string) (n : Z) : string :=
  let k := Z.of_nat (String.length s) in
  if (k <=? n) && (n <=? 21) then s ++ zeros (Z.to_nat (n - k))
  else if (0 <? n) && (n <=? 21) then
    substring 0 (Z.to_nat n) s ++ "." ++ substring (Z.to_nat n) (Z.to_nat (k - n)) s
  else if (-6 <? n) && (n <=? 0) then "0." ++ zeros (Z.to_nat (- n)) ++ s
  else
    let e := n - 1 in
    let exponent := (if 0 <=? e then "+" else "-") ++ decimal (Z.abs e) in
    if k =? 1 then s ++ "e" ++ exponent
    else substring 0 1 s ++ "." ++ substring 1 (Z.to_nat (k - 1)) s ++ "e" ++ exponent.

(** The text of the positive number [a / b], which is [target]. *)
Definition text (a b : Z) (target : value) : string :=
  let n := log10_ratio a b in
  let (t, k) := shortest 16 a b n 1 target in
  let s := decimal t in
  layout (without_trailing_zeros s) (n + (Z.of_nat (String.length s) - k)).

Definition real_to_string (x : real) : string :=
  match x with
  | Infinite false => "Infinity"
  | Infinite true => "-Infinity"
  | Dyadic m k =>
      (if m <? 0 then "-" else "")
      ++ text (Z.abs m) (2 ^ Zpos k) (VReal (Dyadic (Z.abs m) k))
  end.

(** The double nearest to [n / d], for a positive [d]. *)
Definition of_ratio (n d : Z) : value :=
  match n with
  | Z0 => VNum 0
  | Zpos _ => number_of false (round n d)
  | Zneg p => number_of true (round (Zpos p) d)
  end.

(** The double nearest to the integer [z]. *)
Definition of_integer (z : Z) : value :=
  if safe_integer z then VNum z else of_ratio z 1.

End Number.

(* --------------------------------------------------------------------- *)
(** ** The platform                                                       *)
(* --------------------------------------------------------------------- *)

(** What the platform provides and the embedding leaves open: the [path]
    module of Node, the comparison [s > 0] of a string with zero, and the
    message of the [SyntaxError] that [JSON.parse] throws for a text. *)
Class Platform : Type := {
  path_dirname : string -> string;
  path_basename : string -> string;
  path_join : string -> string -> string;
  path_resolve : string -> string;
  string_gt_zero : string -> bool;
  json_syntax_error : string -> string
}.

(* --------------------------------------------------------------------- *)
(** ** JSON.stringify(data, null, 2) and JSON.parse                       *)
(* --------------------------------------------------------------------- *)

Module JSON.

Definition nl : string := String (ascii_of_nat 10) EmptyString.
Definition dquote : ascii := ascii_of_nat 34.
Definition backslash : ascii := ascii_of_nat 92.

(** The gap of an indentation of 2. *)
Definition gap : string := "  ".

Definition hex_digit (n : nat) : ascii :=
  if n <? 10 then ascii_of_nat (48 + n) else ascii_of_nat (87 + n).

(** The escape of one code unit in QuoteJSONString. *)
Definition escape_char (c : ascii) : string :=
  let n := nat_of_ascii c in
  if n =? 8 then "\b"
  else if n =? 9 then "\t"
  else if n =? 10 then "\n"
  else if n =? 12 then "\f"
  else if n =? 13 then "\r"
  else if n =? 34 then String backslash (String dquote EmptyString)
  else if n =? 92 then String backslash (String backslash EmptyString)
  else if n <? 32 then
    "\u00" ++ String (hex_digit (n / 16)) (String (hex_digit (n mod 16)) EmptyString)
  else String c EmptyString.

Fixpoint escape (s : string) : string :=
  match s with
  | EmptyString => EmptyString
  | String c r => escape_char c ++ escape r
  end.

Definition quote (s : string) : string :=
  String dquote (escape s ++ String dquote EmptyString).

(** The four hexadecimal digits of a code unit. *)
Definition hex4 (u : N) : string :=
  String (hex_digit (N.to_nat (u / 4096 mod 16)))
    (String (hex_digit (N.to_nat (u / 256 mod 16)))
       (String (hex_digit (N.to_nat (u / 16 mod 16)))
          (String (hex_digit (N.to_nat (u mod 16))) EmptyString))).

(** A code unit in a text: itself below 256, its escape above. *)
Definition unit_text (u : N) : string :=
  if (u <? 256)%N then String (ascii_of_N u) EmptyString else "\u" ++ hex4 u.

(** The text of a string given by its code units. *)
Fixpoint wide_text (units : list N) : string :=
  match units with
  | [] => EmptyString
  | u :: r => unit_text u ++ wide_text r
  end.

Definition escape_unit (u : N) : string :=
  if (u <? 256)%N then escape_char (ascii_of_N u) else "\u" ++ hex4 u.

Fixpoint escape_units (units : list N) : string :=
  match units with
  | [] => EmptyString
  | u :: r => escape_unit u ++ escape_units r
  end.

Definition quote_units (units : list N) : string :=
  String dquote (escape_units units ++ String dquote EmptyString).

(** The string of code units below 256, if they all are. *)
Fixpoint narrow (units : list N) : option string :=
  match units with
  | [] => Some EmptyString
  | u :: r =>
      if (u <? 256)%N
      then match narrow r with
           | Some s => Some (String (ascii_of_N u) s)
           | None => None
           end
      else None
  end.

(** The string value with the given code units. *)
Definition string_value (units : list N) : value :=
  match narrow units with
  | Some s => VStr s
  | None => VWide units
  end.

(** Number::toString of an integer. *)
Definition number_to_string (z : Z) : string :=
  match z with
  | Z0 => "0"
  | Zpos p =>
      if safe_integer z then NilZero.string_of_uint (N.to_uint (Npos p))
      else Number.text z 1 (VNum z)
  | Zneg p =>
      String "-" (if safe_integer z then NilZero.string_of_uint (N.to_uint (Npos p))
                  else Number.text (Zpos p) 1 (VNum (Zpos p)))
  end.

(** The text between the brackets of a non-empty array or object. *)
Definition wrap (opening closing stepback indent : string) (partial : list string) : string :=
  match partial with
  | [] => opening ++ closing
  | _ =>
      opening ++ nl ++ indent ++ String.concat ("," ++ nl ++ indent) partial
        ++ nl ++ stepback ++ closing
  end.

(** SerializeJSONProperty: [None] is [undefined].  An infinity is written
    as [null]. *)
Fixpoint serialize (indent : string) (v : value) {struct v} : option string :=
  match v with
  | VUndefined => None
  | VNull => Some "null"
  | VBool true => Some "true"
  | VBool false => Some "false"
  | VNum z => Some (number_to_string z)
  | VStr s => Some (quote s)
  | VArr items =>
      let stepback := indent in
      let indent := indent ++ gap in
      let partial :=
        map (fun x => match serialize indent x with
                      | Some strP => strP
                      | None => "null"
                      end) items in
      Some (wrap "[" "]" stepback indent partial)
  | VObj props =>
      let stepback := indent in
      let indent := indent ++ gap in
      let partial :=
        flat_map (fun kv => match serialize indent (snd kv) with
                            | Some strP => [quote (fst kv) ++ ": " ++ strP]
                            | None => []
                            end) props in
      Some (wrap "{" "}" stepback indent partial)
  | VReal (Infinite _) => Some "null"
  | VReal x => Some (Number.real_to_string x)
  | VWide units => Some (quote_units units)
  | VWideObj props =>
      let stepback := indent in
      let indent := indent ++ gap in
      let partial :=
        flat_map (fun kv => match serialize indent (snd kv) with
                            | Some strP => [quote_units (fst kv) ++ ": " ++ strP]
                            | None => []
                            end) props in
      Some (wrap "{" "}" stepback indent partial)
  end.

(** [JSON.stringify(data, null, 2)] *)
Definition stringify (data : value) : option string := serialize "" data.

(** *** Parsing *)

Definition is_ws (c : ascii) : bool :=
  let n := nat_of_ascii c in
  (n =? 32) || (n =? 9) || (n =? 10) || (n =? 13).

Fixpoint skip_ws (s : string) : string :=
  match s with
  | EmptyString => EmptyString
  | String c r => if is_ws c then skip_ws r else s
  end.

Definition is_digit (c : ascii) : bool :=
  let n := nat_of_ascii c in (48 <=? n) && (n <=? 57).

Definition hex_value (c : ascii) : option nat :=
  let n := nat_of_ascii c in
  if (48 <=? n) && (n <=? 57) then Some (n - 48)
  else if (97 <=? n) && (n <=? 102) then Some (n - 87)
  else if (65 <=? n) && (n <=? 70) then Some (n - 55)
  else None.

(** The reasons for which the descent gives up.  The message of the error
    that [JSON.parse] throws is worded by the platform. *)
Definition unexpected (c : ascii) : JsError :=
  SyntaxError ("Unexpected token " ++ String c EmptyString ++ " in JSON").
Definition unexpected_end : JsError := SyntaxError "Unexpected end of JSON input".

Definition prepend (u : N) (r : result (list N * string)) : result (list N * string) :=
  rbind r (fun p => Ok (u :: fst p, snd p)).

Definition char_unit (c : ascii) : N := N_of_ascii c.

(** The code units of a string literal, after its opening quote. *)
Fixpoint parse_chars (s : string) : result (list N * string) :=
  match s with
  | EmptyString => Throw (SyntaxError "Unterminated string in JSON")
  | String c r =>
      if Ascii.eqb c dquote then Ok ([], r)
      else if Ascii.eqb c backslash then
        match r with
        | EmptyString => Throw (SyntaxError "Unterminated string in JSON")
        | String e r' =>
            if Ascii.eqb e dquote then prepend 34%N (parse_chars r')
            else if Ascii.eqb e backslash then prepend 92%N (parse_chars r')
            else if Ascii.eqb e "/" then prepend 47%N (parse_chars r')
            else if Ascii.eqb e "b" then prepend 8%N (parse_chars r')
            else if Ascii.eqb e "f" then prepend 12%N (parse_chars r')
            else if Ascii.eqb e "n" then prepend 10%N (parse_chars r')
            else if Ascii.eqb e "r" then prepend 13%N (parse_chars r')
            else if Ascii.eqb e "t" then prepend 9%N (parse_chars r')
            else if Ascii.eqb e "u" then
              match r' with
              | String h1 (String h2 (String h3 (String h4 r''))) =>
                  match hex_value h1, hex_value h2, hex_value h3, hex_value h4 with
                  | Some a, Some b, Some c', Some d =>
                      prepend (N.of_nat (4096 * a + 256 * b + 16 * c' + d)) (parse_chars r'')
                  | _, _, _, _ => Throw (SyntaxError "Bad Unicode escape in JSON")
                  end
              | _ => Throw (SyntaxError "Bad Unicode escape in JSON")
              end
            else Throw (SyntaxError "Bad escaped character in JSON")
        end
      else if nat_of_ascii c <? 32 then
        Throw (SyntaxError "Bad control character in string literal in JSON")
      else prepend (char_unit c) (parse_chars r)
  end.

(** The longest prefix of digits, and what follows it. *)
Fixpoint span_digits (s : string) : string * string :=
  match s with
  | EmptyString => (EmptyString, EmptyString)
  | String c r =>
      if is_digit c
      then let p := span_digits r in (String c (fst p), snd p)
      else (EmptyString, s)
  end.

Definition continues_number (s : string) : bool :=
  match s with
  | String c _ => Ascii.eqb c "." || Ascii.eqb c "e" || Ascii.eqb c "E"
  | EmptyString => false
  end.

(** The number that a string of digits writes. *)
Definition digits_value (ds : string) : Z :=
  match NilZero.uint_of_string ds with
  | Some u => Z.of_N (N.of_uint u)
  | None => 0
  end.

(** The digits of the integer part: no leading zero. *)
Definition parse_int (s : string) : result (string * string) :=
  let p := span_digits s in
  match fst p with
  | EmptyString =>
      match s with
      | EmptyString => Throw unexpected_end
      | String c _ => Throw (unexpected c)
      end
  | String d ds =>
      if Ascii.eqb d "0" && negb (String.eqb ds EmptyString)
      then Throw (SyntaxError "Unexpected number in JSON")
      else Ok p
  end.

(** The digits of the fraction, none when there is no point. *)
Definition parse_fraction (s : string) : result (string * string) :=
  match s with
  | String "." r =>
      let p := span_digits r in
      match fst p with
      | EmptyString => Throw (SyntaxError "Unterminated fractional number in JSON")
      | _ => Ok p
      end
  | _ => Ok (EmptyString, s)
  end.

(** The exponent, 0 when there is none. *)
Definition parse_exponent (s : string) : result (Z * string) :=
  match s with
  | String c r =>
      if Ascii.eqb c "e" || Ascii.eqb c "E" then
        let (negative, r') :=
          match r with
          | String "-" r' => (true, r')
          | String "+" r' => (false, r')
          | _ => (false, r)
          end in
        let p := span_digits r' in
        match fst p with
        | EmptyString => Throw (SyntaxError "Exponent part is missing a number in JSON")
        | ds => Ok (Number.signed negative (digits_value ds), snd p)
        end
      else Ok (0%Z, s)
  | EmptyString => Ok (0%Z, s)
  end.

(** A number: its sign, its integer part [i], its fraction [f] and its
    exponent [e] denote the decimal [i f * 10 ^ (e - length f)]. *)
Definition parse_number (s : string) : result (value * string) :=
  let (negative, r) :=
    match s with
    | String "-" r => (true, r)
    | _ => (false, s)
    end in
  rbind (parse_int r) (fun i =>
  rbind (parse_fraction (snd i)) (fun f =>
  rbind (parse_exponent (snd f)) (fun e =>
    Ok (Number.of_decimal negative (digits_value (fst i ++ fst f))
          (fst e - Z.of_nat (String.length (fst f))),
        snd e)))).

Definition parse_literal (lit : string) (v : value) (s : string) : result (value * string) :=
  if String.prefix lit s
  then Ok (v, substring (String.length lit) (String.length s - String.length lit) s)
  else match s with
       | EmptyString => Throw unexpected_end
       | String c _ => Throw (unexpected c)
       end.

(** Defining the property [k] among the index keys of [l], which come first
    in ascending order: an existing index takes the new value. *)
Fixpoint insert_index (i : N) (k : list N) (v : value) (l : list (list N * value))
  : list (list N * value) :=
  match l with
  | [] => [(k, v)]
  | (k', v') :: r =>
      match array_index k' with
      | Some j =>
          if (i <? j)%N then (k, v) :: l
          else if (i =? j)%N then (k', v) :: r
          else (k', v') :: insert_index i k v r
      | None => (k, v) :: l
      end
  end.

(** CreateDataProperty in the order of enumeration: an array index goes to
    its place among the indices; another key keeps its place if it exists
    and goes last if it is new. *)
Definition define_prop (k : list N) (v : value) (l : list (list N * value))
  : list (list N * value) :=
  match array_index k with
  | Some i => insert_index i k v l
  | None => set_units k v l
  end.

(** The keys as strings, if none has a code unit above 255. *)
Fixpoint narrow_props (l : list (list N * value)) : option (list (string * value)) :=
  match l with
  | [] => Some []
  | (k, v) :: r =>
      match narrow k, narrow_props r with
      | Some s, Some r' => Some ((s, v) :: r')
      | _, _ => None
      end
  end.

(** The object with the given properties. *)
Definition object_of (l : list (list N * value)) : value :=
  match narrow_props l with
  | Some props => VObj props
  | None => VWideObj l
  end.

Definition out_of_fuel : JsError := Error "out of fuel".

(** The recursive descent.  Every call consumes a character before it
    recurses twice, so twice the length of the text bounds the fuel that is
    needed. *)
Fixpoint parse_value (fuel : nat) (s : string) {struct fuel} : result (value * string) :=
  match fuel with
  | O => Throw out_of_fuel
  | S n =>
      match skip_ws s with
      | EmptyString => Throw unexpected_end
      | String c r as t =>
          if Ascii.eqb c "{" then
            match skip_ws r with
            | String "}" r' => Ok (VObj [], r')
            | _ => parse_members n r []
            end
          else if Ascii.eqb c "[" then
            match skip_ws r with
            | String "]" r' => Ok (VArr [], r')
            | _ => parse_elements n r []
            end
          else if Ascii.eqb c dquote then
            rbind (parse_chars r) (fun p => Ok (string_value (fst p), snd p))
          else if Ascii.eqb c "n" then parse_literal "null" VNull t
          else if Ascii.eqb c "t" then parse_literal "true" (VBool true) t
          else if Ascii.eqb c "f" then parse_literal "false" (VBool false) t
          else if Ascii.eqb c "-" || is_digit c then parse_number t
          else Throw (unexpected c)
      end
  end
with parse_elements (fuel : nat) (s : string) (acc : list value) {struct fuel}
  : result (value * string) :=
  match fuel with
  | O => Throw out_of_fuel
  | S n =>
      rbind (parse_value n s) (fun p =>
        match skip_ws (snd p) with
        | String "," r => parse_elements n r (acc ++ [fst p])
        | String "]" r => Ok (VArr (acc ++ [fst p]), r)
        | String c _ => Throw (unexpected c)
        | EmptyString => Throw unexpected_end
        end)
  end
with parse_members (fuel : nat) (s : string) (acc : list (list N * value)) {struct fuel}
  : result (value * string) :=
  match fuel with
  | O => Throw out_of_fuel
  | S n =>
      match skip_ws s with
      | EmptyString => Throw unexpected_end
      | String c r =>
          if Ascii.eqb c dquote then
            rbind (parse_chars r) (fun k =>
              match skip_ws (snd k) with
              | String ":" r1 =>
                  rbind (parse_value n r1) (fun p =>
                    match skip_ws (snd p) with
                    | String "," r2 => parse_members n r2 (define_prop (fst k) (fst p) acc)
                    | String "}" r2 => Ok (object_of (define_prop (fst k) (fst p) acc), r2)
                    | String c2 _ => Throw (unexpected c2)
                    | EmptyString => Throw unexpected_end
                    end)
              | String c1 _ => Throw (unexpected c1)
              | EmptyString => Throw unexpected_end
              end)
          else Throw (unexpected c)
      end
  end.

(** The value that the whole text denotes. *)
Definition parse_text (text : string) : result value :=
  rbind (parse_value (2 * String.length text + 2) text) (fun p =>
    match skip_ws (snd p) with
    | EmptyString => Ok (fst p)
    | String c _ => Throw (unexpected c)
    end).

Section Parse.
Context `{Platform}.

(** [JSON.parse(text)]: the value, or a [SyntaxError] when the text is not
    a JSON text. *)
Definition parse (text : string) : result value :=
  match parse_text text with
  | Ok v => Ok v
  | Throw _ => Throw (SyntaxError (json_syntax_error text))
  end.

End Parse.

End JSON.

(* --------------------------------------------------------------------- *)
(** ** Object literals                                                    *)
(* --------------------------------------------------------------------- *)

(** The indexed properties of an array or of a string. *)
Fixpoint index_props {A} (f : A -> value) (l : list A) (i : nat) : list (string * value) :=
  match l with
  | [] => []
  | a :: r => (JSON.number_to_string (Z.of_nat i), f a) :: index_props f r (S i)
  end.

(** [{ ...o }]: the own enumerable properties of [o], in order, for a value
    none of whose keys has a code unit above 255.  Spreading [undefined],
    [null], a number or a boolean adds nothing. *)
Definition spread (o : value) : list (string * value) :=
  match o with
  | VObj props => props
  | VArr items => index_props (fun x => x) items 0
  | VStr s => index_props (fun c => VStr (String c EmptyString)) (list_ascii_of_string s) 0
  | VWide units => index_props (fun u => JSON.string_value [u]) units 0
  | _ => []
  end.

(** The properties written after a spread in an object literal, applied
    left to right. *)
Definition set_props (l : list (string * value)) (updates : list (string * value))
  : list (string * value) :=
  fold_left (fun acc kv => set_prop (fst kv) (snd kv) acc) updates l.

Definition set_wide_props (l : list (list N * value)) (updates : list (string * value))
  : list (list N * value) :=
  fold_left (fun acc kv => set_units (units_of (fst kv)) (snd kv) acc) updates l.

(** [{ ...o, k1: v1, ... }]: the properties of [o] and then those written
    after the spread. *)
Definition object_spread (o : value) (updates : list (string * value)) : value :=
  match o with
  | VWideObj props => VWideObj (set_wide_props props updates)
  | _ => VObj (set_props (spread o) updates)
  end.

(* --------------------------------------------------------------------- *)
(** ** The world: the disk, the console, the external program             *)
(* --------------------------------------------------------------------- *)

(** What a console line shows.  A value that the platform renders (a date in
    the local format, a template with a division) is kept symbolic. *)
Inductive shown : Type :=
| Txt (s : string)
| Js (v : value)                         (* a value given as it is *)
| BigIntText (n : N)                     (* [n.toString()] of a BigInt *)
| PercentOfBasisPoints (n : Z)           (* [`${n / 100}%`] *)
| LocaleDate (v : value)                 (* [new Date(v).toLocaleString()] *)
| LocaleString (v : value)               (* [v.toLocaleString()] *)
| CreatorLine (index : nat) (address : string) (share : Z) (verified : bool)
| AttributeLine (trait_type : value) (val : value).

Inductive SpinnerCall : Type := SStart | SText | SSucceed | SWarn | SFail.
Inductive LogLevel : Type := LSuccess | LError | LWarning | LInfo | LStep | LTitle.

(** One call on the console: the spinner of [ora], the [log] helpers of
    [utils.js] (their pictographs are not recorded) and [console.log]. *)
Inductive Event : Type :=
| Spinner (call : SpinnerCall) (message : string)
| Log (level : LogLevel) (message : string)
| Separator
| ConsoleLog (args : list shown).

(** The disk: the regular files with their content, in the order in which
    a directory lists them, and the directories. *)
Record Disk : Type := mkDisk {
  files : list (string * string);
  dirs : list string
}.

(** What [execAsync] resolves to ([stdout], [stderr]) or rejects with. *)
Record ExecOutput : Type := mkExecOutput { stdout : string; stderr : string }.

Record World : Type := mkWorld {
  disk : Disk;
  console : list Event;
  (** the answer of the external program to the [n]th command line *)
  shell : nat -> string -> result ExecOutput;
  executed : nat
}.

(** A computation: it may throw, and it changes the world either way. *)
Definition M (A : Type) : Type := World -> result A * World.

Definition ret {A} (a : A) : M A := fun w => (Ok a, w).
Definition throw {A} (e : JsError) : M A := fun w => (Throw e, w).
Definition bind {A B} (c : M A) (k : A -> M B) : M B :=
  fun w => match c w with
           | (Ok a, w') => k a w'
           | (Throw e, w') => (Throw e, w')
           end.
Definition try_catch {A} (c : M A) (handler : JsError -> M A) : M A :=
  fun w => match c w with
           | (Ok a, w') => (Ok a, w')
           | (Throw e, w') => handler e w'
           end.
Definition lift {A} (r : result A) : M A := fun w => (r, w).
Definition emit (e : Event) : M unit :=
  fun w => (Ok tt, mkWorld (disk w) (console w ++ [e]) (shell w) (executed w)).
Definition get_disk : M Disk := fun w => (Ok (disk w), w).
Definition put_disk (d : Disk) : M unit :=
  fun w => (Ok tt, mkWorld d (console w) (shell w) (executed w)).
Definition when (b : bool) (c : M unit) : M unit := if b then c else ret tt.

Declare Scope js_scope.
Delimit Scope js_scope with js.
Notation "x <- c ;; k" := (bind c (fun x => k))
  (at level 61, c at next level, right associativity) : js_scope.
Notation "c ;; k" := (bind c (fun _ => k))
  (at level 61, right associativity) : js_scope.
Local Open Scope js_scope.

(** [await execAsync(cmd)] *)
Definition execAsync (cmd : string) : M ExecOutput :=
  fun w => (shell w (executed w) cmd,
            mkWorld (disk w) (console w) (shell w) (S (executed w))).

(** The [log] helpers of [utils.js]. *)
Module log.
Definition success (msg : string) : M unit := emit (Log LSuccess msg).
Definition error (msg : string) : M unit := emit (Log LError msg).
Definition warning (msg : string) : M unit := emit (Log LWarning msg).
Definition info (msg : string) : M unit := emit (Log LInfo msg).
Definition step (msg : string) : M unit := emit (Log LStep msg).
Definition title (msg : string) : M unit := emit (Log LTitle msg).
Definition separator : M unit := emit Separator.
End log.

(** The spinner of [ora]: [spinner.text = m] is [spinner.text m]. *)
Module spinner.
Definition start (m : string) : M unit := emit (Spinner SStart m).
Definition text (m : string) : M unit := emit (Spinner SText m).
Definition succeed (m : string) : M unit := emit (Spinner SSucceed m).
Definition warn (m : string) : M unit := emit (Spinner SWarn m).
Definition fail (m : string) : M unit := emit (Spinner SFail m).
End spinner.

Definition console_log (args : list shown) : M unit := emit (ConsoleLog args).

(* --------------------------------------------------------------------- *)
(** ** The [fs] module of Node, on [Disk]                                 *)
(* --------------------------------------------------------------------- *)

Definition is_file (d : Disk) (p : string) : bool :=
  match assoc p (files d) with Some _ => true | None => false end.

Definition is_dir (d : Disk) (p : string) : bool :=
  existsb (String.eqb p) (dirs d).

Module fs.
Section WithPlatform.
Context `{Platform}.

Definition existsSync (p : string) : M bool :=
  d <- get_disk ;; ret (is_file d p || is_dir d p).

(** [fs.mkdirSync(p, { recursive: true })]: no error when [p] is a
    directory already.  The parents it creates are not recorded. *)
Definition mkdirSync (p : string) : M unit :=
  d <- get_disk ;;
  if is_file d p then throw (Error ("EEXIST: file already exists, mkdir '" ++ p ++ "'"))
  else if is_dir d p then ret tt
  else put_disk (mkDisk (files d) (dirs d ++ [p])).

(** A whole-file write: it needs the directory of [p], and [p] must not
    be a directory. *)
Definition writeFileSync (p content : string) : M unit :=
  d <- get_disk ;;
  if is_dir d p then
    throw (Error ("EISDIR: illegal operation on a directory, open '" ++ p ++ "'"))
  else if negb (is_dir d (path_dirname p)) then
    throw (Error ("ENOENT: no such file or directory, open '" ++ p ++ "'"))
  else put_disk (mkDisk (set_prop p content (files d)) (dirs d)).

(** [fs.readFileSync(p, 'utf8')] *)
Definition readFileSync (p : string) : M string :=
  d <- get_disk ;;
  match assoc p (files d) with
  | Some content => ret content
  | None =>
      if is_dir d p
      then throw (Error "EISDIR: illegal operation on a directory, read")
      else throw (Error ("ENOENT: no such file or directory, open '" ++ p ++ "'"))
  end.

(** The names of the entries of a directory: its files, then its
    directories. *)
Definition readdirSync (p : string) : M (list string) :=
  d <- get_disk ;;
  if is_dir d p then
    ret (map path_basename
           (filter (fun f => String.eqb (path_dirname f) p)
                   (map fst (files d) ++ dirs d)))
  else if is_file d p then
    throw (Error ("ENOTDIR: not a directory, scandir '" ++ p ++ "'"))
  else throw (Error ("ENOENT: no such file or directory, scandir '" ++ p ++ "'")).

End WithPlatform.
End fs.

(* --------------------------------------------------------------------- *)
(** ** config/config.js                                                   *)
(* --------------------------------------------------------------------- *)

Module CONFIG.
Definition NETWORK : list (string * string) :=
  [ ("DEVNET", "https://api.devnet.solana.com");
    ("MAINNET", "https://api.mainnet-beta.solana.com");
    ("TESTNET", "https://api.testnet.solana.com") ].

Definition DEFAULT_NETWORK : string := "DEVNET".

(** The IPFS pinning service; the credential [JWT] is not part of the
    embedding, which does not hold the request. *)
Module PINATA.
Definition API_URL : string := "https://api.pinata.cloud/pinning/pinJSONToIPFS".
Definition GATEWAY : string := "https://gateway.pinata.cloud/ipfs/".
End PINATA.

Module PATHS.
Definition WALLETS : string := "./wallets".
Definition TOKENS : string := "./tokens".
Definition CONFIG : string := "./config".
End PATHS.

Definition EXPLORERS : list (string * list (string * string)) :=
  [ ("DEVNET", [ ("SOLANA", "https://explorer.solana.com");
                 ("SOLSCAN", "https://solscan.io") ]);
    ("MAINNET", [ ("SOLANA", "https://explorer.solana.com");
                  ("SOLSCAN", "https://solscan.io") ]) ].
End CONFIG.

(** [CONFIG.NETWORK[network.toUpperCase()]]; [None] is [undefined].  (An
    upper-case key never names a property inherited from [Object.prototype],
    whose names all have small letters.) *)
Definition getNetworkUrl (network : string) : option string :=
  assoc (toUpperCase network) CONFIG.NETWORK.

Definition getExplorerUrl (type network : string) : result string :=
  let cluster :=
    if String.eqb (toLowerCase network) "mainnet" then ""
    else "?cluster=" ++ toLowerCase network in
  match assoc (toUpperCase network) CONFIG.EXPLORERS with
  | None =>
      Throw (TypeError ("Cannot read properties of undefined (reading '"
                          ++ toUpperCase type ++ "')"))
  | Some explorers =>
      match assoc (toUpperCase type) explorers with
      | Some url => Ok (url ++ cluster)
      | None => Ok ("undefined" ++ cluster)
      end
  end.

Definition getNetworkCluster (network : string) : string :=
  if String.eqb (toLowerCase network) "mainnet" then ""
  else "?cluster=" ++ toLowerCase network.

(* --------------------------------------------------------------------- *)
(** ** src/utils.js                                                       *)
(* --------------------------------------------------------------------- *)

Module fileUtils.
Section WithPlatform.
Context `{Platform}.

Definition ensureDir (dirPath : string) : M unit :=
  b <- fs.existsSync dirPath ;;
  if negb b then fs.mkdirSync dirPath else ret tt.

(** [JSON.stringify] of [undefined] is [undefined], which
    [fs.writeFileSync] refuses as its data. *)
Definition saveJson (filePath : string) (data : value) : M unit :=
  let dir := path_dirname filePath in
  ensureDir dir ;;
  match JSON.stringify data with
  | Some content => fs.writeFileSync filePath content
  | None =>
      throw (TypeError "The data argument must be of type string or an instance of Buffer, TypedArray, or DataView. Received undefined")
  end.

Definition loadJson (filePath : string) : M value :=
  b <- fs.existsSync filePath ;;
  if negb b then throw (Error ("File not found: " ++ filePath))
  else
    content <- fs.readFileSync filePath ;;
    lift (JSON.parse content).

Definition exists_ (filePath : string) : M bool := fs.existsSync filePath.

Definition listFiles (dirPath extension : string) : M (list string) :=
  b <- fs.existsSync dirPath ;;
  if negb b then ret []
  else
    names <- fs.readdirSync dirPath ;;
    ret (map (fun file => path_join dirPath file)
           (filter (fun file =>
                      if negb (String.eqb extension "")
                      then endsWith file extension else true) names)).

End WithPlatform.
End fileUtils.

Module walletUtils.
Section WithPlatform.
Context `{Platform}.

Definition listWallets : M (list string) :=
  let walletDir := CONFIG.PATHS.WALLETS in
  fileUtils.listFiles walletDir ".json".

End WithPlatform.
End walletUtils.

(** The two links of [tokenUtils.getExplorerUrls]. *)
Record ExplorerUrls : Type := mkExplorerUrls { solana : string; solscan : string }.

Module tokenUtils.
Section WithPlatform.
Context `{Platform}.

Definition loadTokenInfo (filePath : string) : M value :=
  fileUtils.loadJson filePath.

Definition listTokens : M (list string) :=
  let tokenDir := CONFIG.PATHS.TOKENS in
  fileUtils.listFiles tokenDir ".json".

End WithPlatform.

Definition getExplorerUrls (address type network : string) : ExplorerUrls :=
  let cluster :=
    if String.eqb (toLowerCase network) "mainnet" then ""
    else "?cluster=" ++ toLowerCase network in
  {| solana := "https://explorer.solana.com/" ++ type ++ "/" ++ address ++ cluster;
     solscan := "https://solscan.io/" ++ type ++ "/" ++ address ++ cluster |}.

End tokenUtils.

Module validators.

(** [!address || typeof address !== 'string'] holds of everything but a
    non-empty string. *)
Definition validateAddress (address : value) : bool :=
  if negb (truthy address)
     || negb (match address with VStr _ | VWide _ => true | _ => false end)
  then false
  else
    match address with
    | VStr s => (32 <=? String.length s) && (String.length s <=? 44)
    | VWide units => (32 <=? List.length units) && (List.length units <=? 44)
    | _ => false
    end.

End validators.

Module displayUtils.

Definition displayExplorerLinks (address type network : string) : M unit :=
  let urls := tokenUtils.getExplorerUrls address type network in
  log.title "EXPLORER LINKS" ;;
  console_log [Txt "Solana Explorer:"; Txt (solana urls)] ;;
  console_log [Txt "SolScan:"; Txt (solscan urls)] ;;
  log.separator.

End displayUtils.

(* --------------------------------------------------------------------- *)
(** ** Typed arrays and data views                                        *)
(* --------------------------------------------------------------------- *)

(** A [Uint8Array]: a window of [u8_length] bytes that starts at
    [u8_byteOffset] in its [ArrayBuffer]. *)
Record Uint8Array : Type := mkUint8Array {
  u8_buffer : list byte;
  u8_byteOffset : nat;
  u8_length : nat
}.

(** The window lies inside the buffer, as the platform guarantees of every
    typed array. *)
Definition u8_wf (a : Uint8Array) : Prop :=
  u8_byteOffset a + u8_length a <= List.length (u8_buffer a).

(** The bytes seen through the window. *)
Definition u8_bytes (a : Uint8Array) : list byte :=
  firstn (u8_length a) (skipn (u8_byteOffset a) (u8_buffer a)).

(** [a[i]]: a number, or [undefined] past the end. *)
Definition u8_get (a : Uint8Array) (i : nat) : value :=
  if i <? u8_length a then
    match nth_error (u8_buffer a) (u8_byteOffset a + i) with
    | Some b => VNum (Z.of_N (Byte.to_N b))
    | None => VUndefined
    end
  else VUndefined.

Record DataView : Type := mkDataView {
  dv_buffer : list byte;
  dv_byteOffset : nat;
  dv_byteLength : nat
}.

(** [new DataView(buffer, byteOffset, byteLength)] *)
Definition new_DataView (buffer : list byte) (byteOffset byteLength : nat) : result DataView :=
  if List.length buffer <? byteOffset then
    Throw (RangeError "Start offset is outside the bounds of the buffer")
  else if List.length buffer <? byteOffset + byteLength then
    Throw (RangeError "Invalid DataView length")
  else Ok (mkDataView buffer byteOffset byteLength).

(** The number whose little-endian bytes are [bs]. *)
Fixpoint le_bytes_to_N (bs : list byte) : N :=
  match bs with
  | [] => 0%N
  | b :: r => (Byte.to_N b + 256 * le_bytes_to_N r)%N
  end.

(** [view.getBigUint64(byteOffset, littleEndian)] *)
Definition getBigUint64 (view : DataView) (byteOffset : nat) (littleEndian : bool) : result N :=
  if dv_byteLength view <? byteOffset + 8 then
    Throw (RangeError "Offset is outside the bounds of the DataView")
  else
    let bytes := firstn 8 (skipn (dv_byteOffset view + byteOffset) (dv_buffer view)) in
    Ok (if littleEndian then le_bytes_to_N bytes else le_bytes_to_N (rev bytes)).

(* --------------------------------------------------------------------- *)
(** ** src/check-token.js                                                 *)
(* --------------------------------------------------------------------- *)

(** The [mintInfo] object of [checkToken]. *)
Record MintInfo : Type := mkMintInfo {
  supply : N;
  decimals : value;
  isInitialized : bool
}.

(** What [umi.rpc.getAccount] resolves to: [exists] is false, or it is true
    and [data] holds the bytes of the account. *)
Inductive MaybeRpcAccount : Type :=
| AccountMissing
| AccountFound (data : Uint8Array).

Record Creator : Type := mkCreator {
  cr_address : string;
  cr_share : Z;
  cr_verified : bool
}.

(** The fields of the on-chain metadata that [checkToken] reads. *)
Record Metadata : Type := mkMetadata {
  md_name : string;
  md_symbol : string;
  md_uri : string;
  md_updateAuthority : string;
  md_isMutable : bool;
  md_primarySaleHappened : bool;
  md_sellerFeeBasisPoints : Z;
  md_tokenStandard : value;
  md_creators : option (list Creator)
}.

(** An HTTP response as [checkToken] reads it: its status, and the text that
    [response.json()] parses. *)
Record Response : Type := mkResponse { status : nat; body : string }.

(** [response.ok]: the status is in the range 200-299. *)
Definition ok (response : Response) : bool :=
  (200 <=? status response) && (status response <=? 299).

(** ECMAScript ToString, as a template literal or [+] applies it. *)
Fixpoint js_toString (v : value) : string :=
  match v with
  | VUndefined => "undefined"
  | VNull => "null"
  | VBool true => "true"
  | VBool false => "false"
  | VNum z => JSON.number_to_string z
  | VStr s => s
  | VArr items =>
      String.concat ","
        (map (fun x => match x with
                       | VUndefined | VNull => ""
                       | _ => js_toString x
                       end) items)
  | VObj _ | VWideObj _ => "[object Object]"
  | VReal x => Number.real_to_string x
  | VWide units => JSON.wide_text units
  end.

(** [v.length] of a value that is neither [undefined] nor [null]. *)
Definition js_length (v : value) : value :=
  match v with
  | VArr items => VNum (Z.of_nat (List.length items))
  | VStr s => VNum (Z.of_nat (String.length s))
  | VWide units => VNum (Z.of_nat (List.length units))
  | VObj props => match assoc "length" props with Some w => w | None => VUndefined end
  | VWideObj props =>
      match assoc_units (units_of "length") props with Some w => w | None => VUndefined end
  | _ => VUndefined
  end.

Section CheckToken.
Context `{Platform}.

(** [v > 0] *)
Definition gt_zero (v : value) : bool :=
  match v with
  | VNum z => (0 <? z)%Z
  | VBool b => b
  | VStr s => string_gt_zero s
  | VArr _ | VWide _ => string_gt_zero (js_toString v)
  | VReal (Dyadic m _) => (0 <? m)%Z
  | VReal (Infinite negative) => negb negative
  | VUndefined | VNull | VObj _ | VWideObj _ => false
  end.

(** Lines 136-154: the fixed-offset reading of the mint account, without
    its [try]. *)
Definition decodeMint (mintData : Uint8Array) : result (option MintInfo) :=
  if 82 <=? u8_length mintData then
    rbind (new_DataView (u8_buffer mintData) (u8_byteOffset mintData + 36) 8) (fun supply =>
    let decimals := u8_get mintData 44 in
    let isInitialized := strict_eq (u8_get mintData 45) (VNum 1) in
    rbind (getBigUint64 supply 0 true) (fun supply' =>
    Ok (Some {| supply := supply';
                decimals := decimals;
                isInitialized := isInitialized |})))
  else Ok None.

(** Lines 136-154 with the [try] and its [catch]: the value of [mintInfo]
    afterwards ([None] is [null]). *)
Definition parseMintAccount (mintData : Uint8Array) : M (option MintInfo) :=
  try_catch (lift (decodeMint mintData))
    (fun _ => log.warning "Could not parse mint account data details" ;; ret None).

(** Lines 158-169: [metadata], and with it [metadataExists]. *)
Definition tryFetchMetadata (fetchMetadataFromSeeds : result Metadata) : M (option Metadata) :=
  try_catch
    (metadata <- lift fetchMetadataFromSeeds ;;
     spinner.succeed "Token information fetched successfully" ;;
     ret (Some metadata))
    (fun _ => spinner.warn "Token exists but has no metadata" ;; ret None).

(** Lines 171-183. *)
Definition displayMintFacts (tokenAddress : value) (network : string)
    (mintInfo : option MintInfo) : M unit :=
  log.separator ;;
  log.title "TOKEN INFORMATION" ;;
  console_log [Txt "Token Address:"; Js tokenAddress] ;;
  console_log [Txt "Network:"; Txt network] ;;
  console_log [Txt "Mint Account:"; Txt "Exists"] ;;
  match mintInfo with
  | Some mi =>
      console_log [Txt "Supply:"; BigIntText (supply mi)] ;;
      console_log [Txt "Decimals:"; Js (decimals mi)] ;;
      console_log [Txt "Initialized:"; Txt (if isInitialized mi then "Yes" else "No")]
  | None => ret tt
  end.

Fixpoint forEach {A} (f : nat -> A -> M unit) (index : nat) (l : list A) : M unit :=
  match l with
  | [] => ret tt
  | a :: r => f index a ;; forEach f (S index) r
  end.

(** Lines 186-204. *)
Definition displayMetadata (metadata : Metadata) : M unit :=
  log.separator ;;
  log.title "METADATA INFORMATION" ;;
  console_log [Txt "Name:"; Txt (md_name metadata)] ;;
  console_log [Txt "Symbol:"; Txt (md_symbol metadata)] ;;
  console_log [Txt "URI:"; Txt (md_uri metadata)] ;;
  console_log [Txt "Update Authority:"; Txt (md_updateAuthority metadata)] ;;
  console_log [Txt "Mint Authority:"; Txt "Check via CLI"] ;;
  console_log [Txt "Is Mutable:"; Txt (if md_isMutable metadata then "Yes" else "No")] ;;
  console_log [Txt "Primary Sale:";
               Txt (if md_primarySaleHappened metadata then "Yes" else "No")] ;;
  console_log [Txt "Seller Fee:"; PercentOfBasisPoints (md_sellerFeeBasisPoints metadata)] ;;
  console_log [Txt "Token Standard:";
               Js (js_or (md_tokenStandard metadata) (VStr "Unknown"))] ;;
  match md_creators metadata with
  | Some ((_ :: _) as creators) =>
      console_log [Txt "Creators:"] ;;
      forEach (fun index creator =>
                 console_log [CreatorLine (index + 1) (cr_address creator)
                                (cr_share creator) (cr_verified creator)])
              0 creators
  | _ => ret tt
  end.

(** [description.substring(0, 100)] *)
Definition js_substring_0_100 (v : value) : result string :=
  match v with
  | VStr s => Ok (substring 0 100 s)
  | VWide units => Ok (JSON.wide_text (firstn 100 units))
  | _ => Throw (TypeError "offChainData.description.substring is not a function")
  end.

(** Lines 212-232: the off-chain section of a response that is [ok]. *)
Definition displayOffChain (response : Response) : M unit :=
  offChainData <- lift (JSON.parse (body response)) ;;
  spinner.succeed "Off-chain metadata fetched" ;;
  log.separator ;;
  log.title "OFF-CHAIN METADATA" ;;
  description <- lift (get_prop offChainData "description") ;;
  (if truthy description then
     shortened <- lift (js_substring_0_100 description) ;;
     console_log [Txt "Description:"; Txt (shortened ++ "...")]
   else ret tt) ;;
  image <- lift (get_prop offChainData "image") ;;
  when (truthy image) (console_log [Txt "Image:"; Js image]) ;;
  external_url <- lift (get_prop offChainData "external_url") ;;
  when (truthy external_url) (console_log [Txt "External URL:"; Js external_url]) ;;
  attributes <- lift (get_prop offChainData "attributes") ;;
  if truthy attributes && gt_zero (js_length attributes) then
    console_log [Txt "Attributes:"] ;;
    match attributes with
    | VArr items =>
        forEach (fun _ attr =>
                   trait_type <- lift (get_prop attr "trait_type") ;;
                   val <- lift (get_prop attr "value") ;;
                   console_log [AttributeLine trait_type val])
                0 items
    | _ => throw (TypeError "offChainData.attributes.forEach is not a function")
    end
  else ret tt.

(** Lines 206-239: the best-effort fetch of the URI. *)
Definition fetchOffChain (metadata : Metadata) (fetch : result Response) : M unit :=
  if negb (String.eqb (md_uri metadata) "") then
    spinner.start "Fetching off-chain metadata..." ;;
    try_catch
      (response <- lift fetch ;;
       if ok response then displayOffChain response
       else spinner.warn "Could not fetch off-chain metadata")
      (fun _ => spinner.warn "Could not fetch off-chain metadata")
  else ret tt.

(** Lines 240-245. *)
Definition displayNoMetadata : M unit :=
  log.separator ;;
  log.title "METADATA INFORMATION" ;;
  console_log [Txt "No metadata found for this token"] ;;
  console_log [Txt "This token was created without Metaplex metadata"].

(** Lines 247-267; [tokenInfo] is [null] after a manual entry. *)
Definition displayLocalInfo (tokenInfo : value) : M unit :=
  if truthy tokenInfo then
    log.separator ;;
    log.title "LOCAL TOKEN INFO" ;;
    createdAt <- lift (get_prop tokenInfo "createdAt") ;;
    console_log [Txt "Created:"; LocaleDate createdAt] ;;
    toolVersion <- lift (get_prop tokenInfo "toolVersion") ;;
    console_log [Txt "Tool Version:"; Js (js_or toolVersion (VStr "Unknown"))] ;;
    walletFile <- lift (get_prop tokenInfo "walletFile") ;;
    console_log [Txt "Wallet Used:"; Js (js_or walletFile (VStr "Unknown"))] ;;
    createTransaction <- lift (get_prop tokenInfo "createTransaction") ;;
    when (truthy createTransaction)
         (console_log [Txt "Create Tx:"; Js createTransaction]) ;;
    lastUpdateDate <- lift (get_prop tokenInfo "lastUpdateDate") ;;
    when (truthy lastUpdateDate)
         (console_log [Txt "Last Updated:"; LocaleDate lastUpdateDate]) ;;
    totalMinted <- lift (get_prop tokenInfo "totalMinted") ;;
    when (truthy totalMinted)
         (console_log [Txt "Total Minted:"; LocaleString totalMinted])
  else ret tt.

(** Lines 269-299: the links, and the branch on the answer to the last
    prompt. *)
Definition displayLinksAndActions (tokenAddress : value) (network action : string) : M unit :=
  log.separator ;;
  displayUtils.displayExplorerLinks (js_toString tokenAddress) "address" network ;;
  if String.eqb action "mint" then log.info "Redirecting to mint tokens..."
  else if String.eqb action "update" then log.info "Redirecting to update metadata..."
  else if String.eqb action "browser" then
    let urls := tokenUtils.getExplorerUrls (js_toString tokenAddress) "address" network in
    log.info "Explorer URLs:" ;;
    console_log [Txt "Solana Explorer:"; Txt (solana urls)] ;;
    console_log [Txt "SolScan:"; Txt (solscan urls)]
  else ret tt.

(** Lines 306-320: the outer [catch]. *)
Definition checkToken_failed (e : JsError) : M unit :=
  log.error ("Token check failed: " ++ error_message e) ;;
  (if includes (error_message e) "account not found" then
     log.info "The token address does not exist on the selected network" ;;
     log.info "   - Check the address is correct" ;;
     log.info "   - Make sure you're on the right network"
   else if includes (error_message e) "Invalid address" then
     log.info "Please enter a valid Solana address (32-44 characters)"
   else if includes (error_message e) "network" then
     log.info "Network connection issue - try again in a moment"
   else ret tt) ;;
  throw e.

(** [checkToken] from line 114 on, once the token, the network and the
    answers of the outside are known:
    - [connect]: [createUmi(getNetworkUrl(network))] and
      [publicKey(tokenAddress)];
    - [getAccount]: [umi.rpc.getAccount(mintAddress)];
    - [fetchMetadataFromSeeds]: the metadata of the mint;
    - [fetch]: [fetch(metadata.uri)];
    - [action]: the answer to the last prompt. *)
Definition checkToken (tokenAddress tokenInfo : value) (network : string)
    (connect : result unit)
    (getAccount : result MaybeRpcAccount)
    (fetchMetadataFromSeeds : result Metadata)
    (fetch : result Response)
    (action : string) : M unit :=
  try_catch
    (spinner.start "Fetching token information..." ;;
     try_catch
       (lift connect ;;
        spinner.text "Checking mint account..." ;;
        mintAccount <- lift getAccount ;;
        match mintAccount with
        | AccountMissing =>
            spinner.fail "Token mint account not found" ;;
            log.error "The specified token address does not exist on this network"
        | AccountFound mintData =>
            spinner.text "Fetching mint account data..." ;;
            mintInfo <- parseMintAccount mintData ;;
            spinner.text "Fetching metadata..." ;;
            metadata <- tryFetchMetadata fetchMetadataFromSeeds ;;
            displayMintFacts tokenAddress network mintInfo ;;
            match metadata with
            | Some md => displayMetadata md ;; fetchOffChain md fetch
            | None => displayNoMetadata
            end ;;
            displayLocalInfo tokenInfo ;;
            displayLinksAndActions tokenAddress network action
        end)
       (fun e => spinner.fail "Failed to fetch token information" ;; throw e))
    checkToken_failed.

End CheckToken.

(* --------------------------------------------------------------------- *)
(** ** The record update of mint-tokens.js and revoke-authorities.js      *)
(* --------------------------------------------------------------------- *)

Section RecordUpdate.
Context `{Platform}.

(** The predicate given to [tokenFiles.find]: the record of [file] has the
    mint address [tokenAddress]; a file that cannot be loaded does not
    match. *)
Definition hasMintAddress (tokenAddress : value) (file : string) : M bool :=
  try_catch
    (data <- fileUtils.loadJson file ;;
     mintAddress <- lift (get_prop data "mintAddress") ;;
     ret (strict_eq mintAddress tokenAddress))
    (fun _ => ret false).

(** [l.find(pred)]; [None] is [undefined]. *)
Fixpoint find_file (pred : string -> M bool) (l : list string) : M (option string) :=
  match l with
  | [] => ret None
  | file :: r =>
      b <- pred file ;;
      if b then ret (Some file) else find_file pred r
  end.

(** mint-tokens.js lines 318-326, revoke-authorities.js lines 336-344. *)
Definition findTokenFile (tokenAddress : value) : M (option string) :=
  tokenFiles <- tokenUtils.listTokens ;;
  find_file (hasMintAddress tokenAddress) tokenFiles.

(** [(tokenInfo.totalMinted || 0) + amount] for a number [amount].  The
    left operand is a truthy value or 0. *)
Definition totalMinted_plus (totalMinted : value) (amount : Z) : value :=
  match js_or totalMinted (VNum 0) with
  | VNum x => Number.of_integer (x + amount)
  | VBool _ => Number.of_integer (1 + amount)
  | VStr s => VStr (s ++ JSON.number_to_string amount)
  | (VArr _ | VObj _ | VWideObj _) as o =>
      VStr (js_toString o ++ JSON.number_to_string amount)
  | VReal (Dyadic m k) => Number.of_ratio (m + amount * 2 ^ Zpos k) (2 ^ Zpos k)
  | VReal (Infinite negative) => VReal (Infinite negative)
  | VWide units => VWide (units ++ units_of (JSON.number_to_string amount))
  | VUndefined | VNull => Number.of_integer amount
  end.

(** mint-tokens.js lines 314-342; [now] is [new Date().toISOString()]. *)
Definition mint_updateTokenInfo (tokenAddress tokenInfo : value) (amount : Z)
    (now : string) : M unit :=
  if truthy tokenInfo then
    try_catch
      (tokenFile <- findTokenFile tokenAddress ;;
       match tokenFile with
       | Some file =>
           if negb (String.eqb file "") then
             totalMinted <- lift (get_prop tokenInfo "totalMinted") ;;
             let updatedInfo :=
               object_spread tokenInfo
                 [ ("lastMintAmount", VNum amount);
                   ("lastMintDate", VStr now);
                   ("totalMinted", totalMinted_plus totalMinted amount) ] in
             fileUtils.saveJson file updatedInfo ;;
             log.info "Token info updated with minting details"
           else ret tt
       | None => ret tt
       end)
      (fun _ => log.warning "Could not update token info file")
  else ret tt.

(** *** revoke-authorities.js *)

Definition is_alnum (c : ascii) : bool :=
  let n := nat_of_ascii c in
  ((48 <=? n) && (n <=? 57)) || ((65 <=? n) && (n <=? 90)) || ((97 <=? n) && (n <=? 122)).

Fixpoint span_alnum (s : string) : string :=
  match s with
  | EmptyString => EmptyString
  | String c r => if is_alnum c then String c (span_alnum r) else EmptyString
  end.

(** The Latin letters without their case, as the flag [i] compares them. *)
Definition fold_case (c : ascii) : ascii :=
  let n := nat_of_ascii c in
  if (65 <=? n) && (n <=? 90) then ascii_of_nat (n + 32) else c.

(** What follows [pattern] at the head of [s], whatever the case. *)
Fixpoint after_prefix_ci (pattern s : string) : option string :=
  match pattern, s with
  | EmptyString, _ => Some s
  | String p pattern', String c s' =>
      if Ascii.eqb (fold_case p) (fold_case c) then after_prefix_ci pattern' s' else None
  | String _ _, EmptyString => None
  end.

(** [stdout.match(/Signature: ([A-Za-z0-9]+)/i)]: the group of the first
    match, if there is one. *)
Fixpoint match_signature (s : string) : option string :=
  match s with
  | EmptyString => None
  | String _ r =>
      match after_prefix_ci "Signature: " s with
      | Some rest =>
          match span_alnum rest with
          | EmptyString => match_signature r
          | group => Some group
          end
      | None => match_signature r
      end
  end.

(** A property of the [results] object; a missing one is [undefined]. *)
Definition field (results : list (string * value)) (k : string) : value :=
  match assoc k results with Some v => v | None => VUndefined end.

(** Lines 221-254.  The only call that can throw, [execAsync], comes
    before any assignment to [results]. *)
Definition revokeMint (tokenAddress : value) (network : string)
    (results : list (string * value)) : M (list (string * value)) :=
  spinner.start "Revoking mint authority..." ;;
  try_catch
    (let revokeMintCmd :=
       "spl-token authorize " ++ js_toString tokenAddress ++ " mint --disable --url " ++ network in
     log.info ("Executing: " ++ revokeMintCmd) ;;
     out <- execAsync revokeMintCmd ;;
     when (negb (String.eqb (stderr out) "") && negb (includes (stderr out) "Signature:"))
          (spinner.warn ("Mint authority revocation output: " ++ stderr out)) ;;
     results' <-
       (if negb (String.eqb (stdout out) "") then
          spinner.succeed "Mint authority revoked successfully!" ;;
          log.info ("Output: " ++ stdout out) ;;
          match match_signature (stdout out) with
          | Some signature =>
              log.success ("Mint revoke transaction: " ++ signature) ;;
              ret (set_prop "mintRevokeSignature" (VStr signature) results)
          | None => ret results
          end
        else ret results) ;;
     ret (set_prop "mintRevoked" (VBool true) results'))
    (fun e =>
       spinner.fail "Failed to revoke mint authority" ;;
       log.error ("Mint authority revocation failed: " ++ error_message e) ;;
       ret (set_prop "mintError" (VStr (error_message e))
              (set_prop "mintRevoked" (VBool false) results))).

(** Lines 256-289. *)
Definition revokeFreeze (tokenAddress : value) (network : string)
    (results : list (string * value)) : M (list (string * value)) :=
  spinner.start "Revoking freeze authority..." ;;
  try_catch
    (let revokeFreezeCmd :=
       "spl-token authorize " ++ js_toString tokenAddress ++ " freeze --disable --url " ++ network in
     log.info ("Executing: " ++ revokeFreezeCmd) ;;
     out <- execAsync revokeFreezeCmd ;;
     when (negb (String.eqb (stderr out) "") && negb (includes (stderr out) "Signature:"))
          (spinner.warn ("Freeze authority revocation output: " ++ stderr out)) ;;
     results' <-
       (if negb (String.eqb (stdout out) "") then
          spinner.succeed "Freeze authority revoked successfully!" ;;
          log.info ("Output: " ++ stdout out) ;;
          match match_signature (stdout out) with
          | Some signature =>
              log.success ("Freeze revoke transaction: " ++ signature) ;;
              ret (set_prop "freezeRevokeSignature" (VStr signature) results)
          | None => ret results
          end
        else ret results) ;;
     ret (set_prop "freezeRevoked" (VBool true) results'))
    (fun e =>
       spinner.fail "Failed to revoke freeze authority" ;;
       log.error ("Freeze authority revocation failed: " ++ error_message e) ;;
       ret (set_prop "freezeError" (VStr (error_message e))
              (set_prop "freezeRevoked" (VBool false) results))).

(** Lines 220-290: the loop over the chosen authorities. *)
Fixpoint revokeEach (tokenAddress : value) (network : string)
    (authoritiesToRevoke : list string) (results : list (string * value))
  : M (list (string * value)) :=
  match authoritiesToRevoke with
  | [] => ret results
  | authority :: rest =>
      results1 <- (if String.eqb authority "mint"
                   then revokeMint tokenAddress network results else ret results) ;;
      results2 <- (if String.eqb authority "freeze"
                   then revokeFreeze tokenAddress network results1 else ret results1) ;;
      revokeEach tokenAddress network rest results2
  end.

(** Lines 346-354: the record that is written. *)
Definition revoke_updatedInfo (tokenInfo : value) (results : list (string * value))
    (now : string) : result value :=
  rbind (get_prop tokenInfo "mintAuthorityRevoked") (fun mintAuthorityRevoked =>
  rbind (get_prop tokenInfo "freezeAuthorityRevoked") (fun freezeAuthorityRevoked =>
  rbind (get_prop tokenInfo "mintRevokeTransaction") (fun mintRevokeTransaction =>
  rbind (get_prop tokenInfo "freezeRevokeTransaction") (fun freezeRevokeTransaction =>
  Ok (object_spread tokenInfo
        [ ("mintAuthorityRevoked",
            js_or (field results "mintRevoked") mintAuthorityRevoked);
          ("freezeAuthorityRevoked",
            js_or (field results "freezeRevoked") freezeAuthorityRevoked);
          ("mintRevokeTransaction",
            js_or (field results "mintRevokeSignature") mintRevokeTransaction);
          ("freezeRevokeTransaction",
            js_or (field results "freezeRevokeSignature") freezeRevokeTransaction);
          ("lastRevokeDate", VStr now) ]))))).

(** Lines 333-362. *)
Definition revoke_updateTokenInfo (tokenAddress tokenInfo : value)
    (results : list (string * value)) (now : string) : M unit :=
  if truthy tokenInfo then
    try_catch
      (tokenFile <- findTokenFile tokenAddress ;;
       match tokenFile with
       | Some file =>
           if negb (String.eqb file "") then
             updatedInfo <- lift (revoke_updatedInfo tokenInfo results now) ;;
             fileUtils.saveJson file updatedInfo ;;
             log.info "Token info updated with revocation details"
           else ret tt
       | None => ret tt
       end)
      (fun _ => log.warning "Could not update token info file")
  else ret tt.

(** Lines 292-331: the summary of the outcome and the links. *)
Definition revoke_displayResults (tokenAddress : value) (network : string)
    (authoritiesToRevoke : list string) (results : list (string * value)) : M unit :=
  log.success "AUTHORITY REVOCATION COMPLETE!" ;;
  log.separator ;;
  console_log [Txt "Token Address:"; Js tokenAddress] ;;
  (if truthy (field results "mintRevoked") then
     console_log [Txt "Mint Authority: REVOKED"] ;;
     when (truthy (field results "mintRevokeSignature"))
          (console_log [Txt "   Transaction:"; Js (field results "mintRevokeSignature")])
   else if existsb (String.eqb "mint") authoritiesToRevoke then
     console_log [Txt "Mint Authority: REVOCATION FAILED"] ;;
     when (truthy (field results "mintError"))
          (console_log [Txt "   Error:"; Js (field results "mintError")])
   else ret tt) ;;
  (if truthy (field results "freezeRevoked") then
     console_log [Txt "Freeze Authority: REVOKED"] ;;
     when (truthy (field results "freezeRevokeSignature"))
          (console_log [Txt "   Transaction:"; Js (field results "freezeRevokeSignature")])
   else if existsb (String.eqb "freeze") authoritiesToRevoke then
     console_log [Txt "Freeze Authority: REVOCATION FAILED"] ;;
     when (truthy (field results "freezeError"))
          (console_log [Txt "   Error:"; Js (field results "freezeError")])
   else ret tt) ;;
  console_log [Txt "Network:"; Txt (toUpperCase network)] ;;
  log.separator ;;
  when (truthy (field results "mintRevokeSignature"))
       (displayUtils.displayExplorerLinks
          (js_toString (field results "mintRevokeSignature")) "tx" (toUpperCase network)) ;;
  when (truthy (field results "freezeRevokeSignature")
        && negb (strict_eq (field results "freezeRevokeSignature")
                           (field results "mintRevokeSignature")))
       (displayUtils.displayExplorerLinks
          (js_toString (field results "freezeRevokeSignature")) "tx" (toUpperCase network)).

(** Lines 364-382. *)
Definition revoke_displayStatus (results : list (string * value)) : M unit :=
  log.separator ;;
  log.title "TOKEN STATUS AFTER REVOCATION" ;;
  when (truthy (field results "mintRevoked"))
       (log.warning "MINT AUTHORITY: PERMANENTLY DISABLED" ;;
        log.info "   - No more tokens can ever be minted" ;;
        log.info "   - Token supply is now fixed forever") ;;
  when (truthy (field results "freezeRevoked"))
       (log.warning "FREEZE AUTHORITY: PERMANENTLY DISABLED" ;;
        log.info "   - No token accounts can be frozen" ;;
        log.info "   - All tokens are permanently transferable") ;;
  when (truthy (field results "mintRevoked") || truthy (field results "freezeRevoked"))
       (log.success "Your token is now more decentralized!").

(** Lines 389-407: the outer [catch]. *)
Definition revoke_failed (e : JsError) : M unit :=
  log.error ("Authority revocation failed: " ++ error_message e) ;;
  (if includes (error_message e) "insufficient funds" then
     log.info "Solution: Add SOL to your wallet for transaction fees" ;;
     log.info "   For devnet: solana airdrop 1 --url devnet"
   else if includes (error_message e) "not found" then
     log.info "Solution: Make sure Solana CLI tools are installed"
   else if includes (error_message e) "authority" then
     log.info "Solution: Make sure you're using the current authority wallet" ;;
     log.info "   Only the current authority can revoke authorities"
   else if includes (error_message e) "Invalid mint" then
     log.info "Solution: Check the token address is correct"
   else if includes (error_message e) "already disabled" then
     log.info "Info: The authority may already be revoked"
   else ret tt) ;;
  throw e.

(** [revokeAuthorities] from line 196 on, once the token, the authorities,
    the wallet and the network are chosen and the revocation is confirmed. *)
Definition revokeAuthorities (tokenAddress tokenInfo : value)
    (authoritiesToRevoke : list string) (walletFile network now : string) : M unit :=
  try_catch
    (spinner.start "Setting up Solana configuration..." ;;
     try_catch
       (let absoluteWalletPath := path_resolve walletFile in
        spinner.text "Configuring Solana CLI with wallet..." ;;
        let configSetCmd :=
          "solana config set --keypair " ++ absoluteWalletPath ++ " --url " ++ network in
        log.info ("Setting config: " ++ configSetCmd) ;;
        out <- execAsync configSetCmd ;;
        when (negb (String.eqb (stderr out) ""))
             (log.warning ("Config warning: " ++ stderr out)) ;;
        spinner.succeed "Solana CLI configured successfully" ;;
        results <- revokeEach tokenAddress network authoritiesToRevoke [] ;;
        revoke_displayResults tokenAddress network authoritiesToRevoke results ;;
        revoke_updateTokenInfo tokenAddress tokenInfo results now ;;
        revoke_displayStatus results)
       (fun e => spinner.fail "Authority revocation failed" ;; throw e))
    revoke_failed.

End RecordUpdate.

(* ===================================================================== *)
(** * Part I (continued).  The notions of the statements *)
(* ===================================================================== *)

Import JSON.

Section Notions.
Context {platform : Platform}.

Definition number_ends (rest : string) : bool :=
  match rest with
  | EmptyString => true
  | String c _ => negb (is_digit c) && negb (continues_number rest)
  end.

Fixpoint distinct (l : list string) : bool :=
  match l with
  | [] => true
  | k :: r => negb (existsb (String.eqb k) r) && distinct r
  end.

(** [k] is enumerated before [k']: an array index comes before a greater
    one and before every other key. *)
Definition precedes (k k' : list N) : bool :=
  match array_index k, array_index k' with
  | Some i, Some j => (i <? j)%N
  | None, Some _ => false
  | _, None => true
  end.

(** The keys are in the order of enumeration: the array indices first, in
    ascending order. *)
Fixpoint ordered (keys : list (list N)) : bool :=
  match keys with
  | [] => true
  | k :: r => forallb (precedes k) r && ordered r
  end.

Definition keys_ordered (props : list (string * value)) : bool :=
  ordered (map (fun kv => units_of (fst kv)) props).

(** The properties with their keys as code units. *)
Definition wide_props (l : list (string * value)) : list (list N * value) :=
  map (fun kv => (units_of (fst kv), snd kv)) l.

(** The name of a property is no array index. *)
Definition plain_name (k : string) : bool :=
  match array_index (units_of k) with None => true | Some _ => false end.

(** The code units of a string one of which is above 255. *)
Definition proper_wide (units : list N) : bool :=
  forallb (fun u => (u <? 65536)%N) units && existsb (fun u => (256 <=? u)%N) units.

(** The values that [saveJson] writes without loss but for [undefined] and
    the infinities: the keys of each object are distinct strings in the
    order of enumeration, and the numbers are integers that JavaScript holds
    exactly. *)
Fixpoint storable (v : value) : bool :=
  match v with
  | VNum z => safe_integer z
  | VArr items => forallb storable items
  | VObj props =>
      distinct (map fst props) && keys_ordered props
      && forallb (fun kv => storable (snd kv)) props
  | VWide units => proper_wide units
  | VReal (Dyadic _ _) | VWideObj _ => false
  | _ => true
  end.

Definition is_undefined (v : value) : bool :=
  match v with VUndefined => true | _ => false end.

Fixpoint normalize (v : value) : value :=
  match v with
  | VArr items =>
      VArr (map (fun x => if is_undefined x then VNull else normalize x) items)
  | VObj props =>
      VObj (flat_map (fun kv => if is_undefined (snd kv) then []
                                else [(fst kv, normalize (snd kv))]) props)
  | VWideObj props =>
      VWideObj (flat_map (fun kv => if is_undefined (snd kv) then []
                                    else [(fst kv, normalize (snd kv))]) props)
  | VReal (Infinite _) => VNull
  | _ => v
  end.

Section ValueInd.
Variable P : value -> Prop.
Hypothesis Hundef : P VUndefined.
Hypothesis Hnull : P VNull.
Hypothesis Hbool : forall b, P (VBool b).
Hypothesis Hnum : forall z, P (VNum z).
Hypothesis Hstr : forall s, P (VStr s).
Hypothesis Harr : forall items, Forall P items -> P (VArr items).
Hypothesis Hobj : forall props, Forall (fun kv => P (snd kv)) props -> P (VObj props).
Hypothesis Hreal : forall x, P (VReal x).
Hypothesis Hwide : forall units, P (VWide units).
Hypothesis Hwideobj :
  forall props, Forall (fun kv => P (snd kv)) props -> P (VWideObj props).

Fixpoint value_ind' (v : value) : P v :=
  match v with
  | VUndefined => Hundef
  | VNull => Hnull
  | VBool b => Hbool b
  | VNum z => Hnum z
  | VStr s => Hstr s
  | VArr items =>
      Harr items
        ((fix go (l : list value) : Forall P l :=
            match l with
            | [] => Forall_nil P
            | x :: r => Forall_cons x (value_ind' x) (go r)
            end) items)
  | VObj props =>
      Hobj props
        ((fix go (l : list (string * value)) : Forall (fun kv => P (snd kv)) l :=
            match l with
            | [] => Forall_nil _
            | kv :: r => Forall_cons kv (value_ind' (snd kv)) (go r)
            end) props)
  | VReal x => Hreal x
  | VWide units => Hwide units
  | VWideObj props =>
      Hwideobj props
        ((fix go (l : list (list N * value)) : Forall (fun kv => P (snd kv)) l :=
            match l with
            | [] => Forall_nil _
            | kv :: r => Forall_cons kv (value_ind' (snd kv)) (go r)
            end) props)
  end.
End ValueInd.

Fixpoint all_ws (s : string) : bool :=
  match s with
  | EmptyString => true
  | String c r => is_ws c && all_ws r
  end.

Definition elem_text (indent : string) (x : value) : string :=
  match serialize indent x with Some strP => strP | None => "null" end.

Definition member_text (indent : string) (kv : string * value) : string :=
  quote (fst kv) ++ ": " ++ elem_text indent (snd kv).

(** The first character of a serialized value. *)
Definition starts_value (t : string) : bool :=
  match t with
  | EmptyString => false
  | String c _ =>
      negb (is_ws c) && negb (Ascii.eqb c "]") && negb (Ascii.eqb c "}")
  end.

Definition norm_elem (x : value) : value :=
  if is_undefined x then VNull else normalize x.

Definition round_trips (v : value) : Prop :=
  forall indent t rest fuel,
    all_ws indent = true -> storable v = true ->
    serialize indent v = Some t -> number_ends rest = true ->
    String.length t < fuel ->
    parse_value fuel (t ++ rest) = Ok (normalize v, rest).

Definition norm_member (kv : string * value) : string * value :=
  (fst kv, normalize (snd kv)).

Definition defined (kv : string * value) : bool := negb (is_undefined (snd kv)).

Fixpoint representable (v : value) : bool :=
  match v with
  | VUndefined | VReal _ | VWideObj _ => false
  | VNull | VBool _ | VStr _ => true
  | VNum z => safe_integer z
  | VWide units => proper_wide units
  | VArr items => forallb representable items
  | VObj props =>
      distinct (map fst props) && keys_ordered props
      && forallb (fun kv => representable (snd kv)) props
  end.

Definition with_disk (w : World) (d : Disk) : World :=
  mkWorld d (console w) (shell w) (executed w).

Definition tell (w : World) (evs : list Event) : World :=
  mkWorld (disk w) (console w ++ evs) (shell w) (executed w).

(** The file holds a JSON text whose value has the mint address as its
    [mintAddress]. *)
Definition holds_record_of (d : Disk) (tokenAddress : value) (file : string) : Prop :=
  exists content data mintAddress,
    assoc file (files d) = Some content
    /\ JSON.parse content = Ok data
    /\ get_prop data "mintAddress" = Ok mintAddress
    /\ strict_eq mintAddress tokenAddress = true.

(** No [.json] file of the tokens directory holds a record of the mint
    address. *)
Definition matches_no_record (w : World) (tokenAddress : value) : Prop :=
  forall name, endsWith name ".json" = true ->
    ~ holds_record_of (disk w) tokenAddress (path_join CONFIG.PATHS.TOKENS name).

Definition silent_or_warned (evs : list Event) : Prop :=
  evs = [] \/ evs = [Log LWarning "Could not update token info file"].

(** [post c P Q]: if [c] returns [a] then [P a], if it throws [e] then [Q e]. *)
Definition post {A} (c : M A) (P : A -> Prop) (Q : JsError -> Prop) : Prop :=
  forall w, match fst (c w) with Ok a => P a | Throw e => Q e end.

(** What [results.mintRevoked] and [results.freezeRevoked] can be. *)
Definition outcome_flag (v : value) : Prop :=
  v = VUndefined \/ v = VBool true \/ v = VBool false.

Definition outcome_flags (results : list (string * value)) : Prop :=
  outcome_flag (field results "mintRevoked") /\ outcome_flag (field results "freezeRevoked").

Definition blank : World :=
  mkWorld (mkDisk [] []) [] (fun _ _ => Throw (Error "no external program")) 0.

(** What a computation prints when it starts from a blank console. *)
Definition events_of {A} (c : M A) : list Event := console (snd (c blank)).

(** [says c r evs]: whatever the world, [c] ends with [r], prints [evs] and
    changes nothing else. *)
Definition says {A} (c : M A) (r : result A) (evs : list Event) : Prop :=
  forall w, c w = (r, tell w evs).

(** The computations that only print. *)
Definition prints {A} (c : M A) : Prop := exists r evs, says c r evs.
(** The computations that only print and never throw. *)
Definition prints_ok (c : M unit) : Prop := exists evs, says c (Ok tt) evs.

(** The value of [mintInfo] after the decoding step. *)
Definition mintInfo_of (mintData : Uint8Array) : option MintInfo :=
  match decodeMint mintData with Ok mintInfo => mintInfo | Throw _ => None end.

Definition could_not_parse : Event := Log LWarning "Could not parse mint account data details".

Definition metadata_of (fetchMetadataFromSeeds : result Metadata) : option Metadata :=
  match fetchMetadataFromSeeds with Ok md => Some md | Throw _ => None end.

(** The metadata part of the report: the on-chain metadata and what the
    fetch of its URI gave, or the notice that there is none. *)
Definition metadata_report (fm : result Metadata) (fetch : result Response) : list Event :=
  match fm with
  | Ok md => events_of (displayMetadata md) ++ events_of (fetchOffChain md fetch)
  | Throw _ => events_of displayNoMetadata
  end.

(** The report of an inspection whose mint account exists. *)
Definition found_report (tokenAddress tokenInfo : value) (network : string)
    (mintData : Uint8Array) (fm : result Metadata) (fetch : result Response)
    (action : string) : list Event :=
  [ Spinner SStart "Fetching token information...";
    Spinner SText "Checking mint account...";
    Spinner SText "Fetching mint account data..." ]
  ++ events_of (parseMintAccount mintData)
  ++ [ Spinner SText "Fetching metadata...";
       match fm with
       | Ok _ => Spinner SSucceed "Token information fetched successfully"
       | Throw _ => Spinner SWarn "Token exists but has no metadata"
       end ]
  ++ events_of (displayMintFacts tokenAddress network (mintInfo_of mintData))
  ++ metadata_report fm fetch
  ++ events_of (displayLocalInfo tokenInfo)
  ++ events_of (displayLinksAndActions tokenAddress network action).

Definition not_found_report : list Event :=
  [ Spinner SStart "Fetching token information...";
    Spinner SText "Checking mint account...";
    Spinner SFail "Token mint account not found";
    Log LError "The specified token address does not exist on this network" ].

Definition byte_at (bs : list byte) (i : nat) : N := Byte.to_N (nth i bs x00).

(** The unsigned 64-bit little-endian integer at offset [off] of [bs]. *)
Definition u64_le_at (bs : list byte) (off : nat) : N :=
  (byte_at bs off
   + 2 ^ 8 * byte_at bs (off + 1)%nat
   + 2 ^ 16 * byte_at bs (off + 2)%nat
   + 2 ^ 24 * byte_at bs (off + 3)%nat
   + 2 ^ 32 * byte_at bs (off + 4)%nat
   + 2 ^ 40 * byte_at bs (off + 5)%nat
   + 2 ^ 48 * byte_at bs (off + 6)%nat
   + 2 ^ 56 * byte_at bs (off + 7)%nat)%N.

Definition byte_of_N (n : N) : byte :=
  match Byte.of_N (n mod 256) with Some b => b | None => x00 end.

(** The [k] low bytes of [v], least significant first. *)
Fixpoint N_to_le_bytes (k : nat) (v : N) : list byte :=
  match k with
  | O => []
  | S k' => byte_of_N v :: N_to_le_bytes k' (v / 256)
  end.

Definition u64_to_le_bytes (v : N) : list byte := N_to_le_bytes 8 v.

(** 82 bytes, all zero but byte 45. *)
Definition scenario_bytes : list byte := repeat x00 45 ++ [x01] ++ repeat x00 36.

Definition scenario_mint_data : Uint8Array := mkUint8Array scenario_bytes 0 82.

Definition empty_mint_data : Uint8Array := mkUint8Array [] 0 0.

(** The dereference of the URI failed: the transport failed, or the status
    of the response is outside 200-299. *)
Definition dereference_failed (fetch : result Response) : Prop :=
  match fetch with
  | Throw _ => True
  | Ok response => status response < 200 \/ 299 < status response
  end.

Definition off_chain_unavailable : list Event :=
  [ Spinner SStart "Fetching off-chain metadata...";
    Spinner SWarn "Could not fetch off-chain metadata" ].

Definition mint_account_exists : Event := ConsoleLog [Txt "Mint Account:"; Txt "Exists"].

(** The value of a property of a loaded record. *)
Definition prop_of (data : value) (k : string) : value :=
  match get_prop data k with Ok v => v | Throw _ => VUndefined end.

(** The lines of the mint facts: the address, the network, the existence of
    the account and, when the account was decoded, its supply, its decimals
    and whether it is initialized. *)
Definition mint_facts_lines (tokenAddress : value) (network : string)
    (mintInfo : option MintInfo) : list Event :=
  [ Separator;
    Log LTitle "TOKEN INFORMATION";
    ConsoleLog [Txt "Token Address:"; Js tokenAddress];
    ConsoleLog [Txt "Network:"; Txt network];
    mint_account_exists ]
  ++ match mintInfo with
     | Some mi =>
         [ ConsoleLog [Txt "Supply:"; BigIntText (supply mi)];
           ConsoleLog [Txt "Decimals:"; Js (decimals mi)];
           ConsoleLog [Txt "Initialized:"; Txt (if isInitialized mi then "Yes" else "No")] ]
     | None => []
     end.

(** One line for each creator, numbered from [rank]. *)
Fixpoint creator_lines (rank : nat) (creators : list Creator) : list Event :=
  match creators with
  | [] => []
  | creator :: rest =>
      ConsoleLog [CreatorLine rank (cr_address creator) (cr_share creator)
                    (cr_verified creator)]
      :: creator_lines (S rank) rest
  end.

(** The lines of the on-chain metadata: its fields and, when there are
    creators, a heading and one numbered line for each of them. *)
Definition metadata_lines (md : Metadata) : list Event :=
  [ Separator;
    Log LTitle "METADATA INFORMATION";
    ConsoleLog [Txt "Name:"; Txt (md_name md)];
    ConsoleLog [Txt "Symbol:"; Txt (md_symbol md)];
    ConsoleLog [Txt "URI:"; Txt (md_uri md)];
    ConsoleLog [Txt "Update Authority:"; Txt (md_updateAuthority md)];
    ConsoleLog [Txt "Mint Authority:"; Txt "Check via CLI"];
    ConsoleLog [Txt "Is Mutable:"; Txt (if md_isMutable md then "Yes" else "No")];
    ConsoleLog [Txt "Primary Sale:"; Txt (if md_primarySaleHappened md then "Yes" else "No")];
    ConsoleLog [Txt "Seller Fee:"; PercentOfBasisPoints (md_sellerFeeBasisPoints md)];
    ConsoleLog [Txt "Token Standard:";
                Js (if truthy (md_tokenStandard md) then md_tokenStandard md
                    else VStr "Unknown")] ]
  ++ match md_creators md with
     | None | Some [] => []
     | Some creators => ConsoleLog [Txt "Creators:"] :: creator_lines 1 creators
     end.

(** The report up to the off-chain section: the progress of the lookups,
    the warning of the decoder if the decoding threw, the mint facts and the
    on-chain metadata. *)
Definition on_chain_report (tokenAddress : value) (network : string)
    (mintData : Uint8Array) (md : Metadata) : list Event :=
  [ Spinner SStart "Fetching token information...";
    Spinner SText "Checking mint account...";
    Spinner SText "Fetching mint account data..." ]
  ++ match decodeMint mintData with Ok _ => [] | Throw _ => [could_not_parse] end
  ++ [ Spinner SText "Fetching metadata...";
       Spinner SSucceed "Token information fetched successfully" ]
  ++ mint_facts_lines tokenAddress network (mintInfo_of mintData)
  ++ metadata_lines md.

(** The lines of the local record, when there is one. *)
Definition local_info_lines (tokenInfo : value) : list Event :=
  if truthy tokenInfo then
    [ Separator;
      Log LTitle "LOCAL TOKEN INFO";
      ConsoleLog [Txt "Created:"; LocaleDate (prop_of tokenInfo "createdAt")];
      ConsoleLog [Txt "Tool Version:";
                  Js (if truthy (prop_of tokenInfo "toolVersion")
                      then prop_of tokenInfo "toolVersion" else VStr "Unknown")];
      ConsoleLog [Txt "Wallet Used:";
                  Js (if truthy (prop_of tokenInfo "walletFile")
                      then prop_of tokenInfo "walletFile" else VStr "Unknown")] ]
    ++ (if truthy (prop_of tokenInfo "createTransaction")
        then [ConsoleLog [Txt "Create Tx:"; Js (prop_of tokenInfo "createTransaction")]]
        else [])
    ++ (if truthy (prop_of tokenInfo "lastUpdateDate")
        then [ConsoleLog [Txt "Last Updated:"; LocaleDate (prop_of tokenInfo "lastUpdateDate")]]
        else [])
    ++ (if truthy (prop_of tokenInfo "totalMinted")
        then [ConsoleLog [Txt "Total Minted:"; LocaleString (prop_of tokenInfo "totalMinted")]]
        else [])
  else [].

(** The explorer links, and what the answer to the last prompt adds. *)
Definition links_lines (tokenAddress : value) (network action : string) : list Event :=
  let address := js_toString tokenAddress in
  let cluster :=
    if String.eqb (toLowerCase network) "mainnet" then ""
    else "?cluster=" ++ toLowerCase network in
  let solana_link := "https://explorer.solana.com/address/" ++ address ++ cluster in
  let solscan_link := "https://solscan.io/address/" ++ address ++ cluster in
  [ Separator;
    Log LTitle "EXPLORER LINKS";
    ConsoleLog [Txt "Solana Explorer:"; Txt solana_link];
    ConsoleLog [Txt "SolScan:"; Txt solscan_link];
    Separator ]
  ++ (if String.eqb action "mint" then [Log LInfo "Redirecting to mint tokens..."]
      else if String.eqb action "update" then [Log LInfo "Redirecting to update metadata..."]
      else if String.eqb action "browser" then
        [ Log LInfo "Explorer URLs:";
          ConsoleLog [Txt "Solana Explorer:"; Txt solana_link];
          ConsoleLog [Txt "SolScan:"; Txt solscan_link] ]
      else []).

(** The report after the off-chain section: the local record and the
    links. *)
Definition closing_lines (tokenAddress tokenInfo : value) (network action : string)
  : list Event :=
  local_info_lines tokenInfo ++ links_lines tokenAddress network action.

(** The report after the off-chain section. *)
Definition closing_report (tokenAddress tokenInfo : value) (network action : string)
  : list Event :=
  events_of (displayLocalInfo tokenInfo)
  ++ events_of (displayLinksAndActions tokenAddress network action).

Definition base58_alphabet : string :=
  "123456789ABCDEFGHJKLMNPQRSTUVWXYZabcdefghijkmnopqrstuvwxyz".

Fixpoint mem_char (c : ascii) (s : string) : bool :=
  match s with
  | EmptyString => false
  | String c' r => Ascii.eqb c c' || mem_char c r
  end.

(** Every character is in the base58 alphabet. *)
Fixpoint is_base58 (s : string) : bool :=
  match s with
  | EmptyString => true
  | String c r => mem_char c base58_alphabet && is_base58 r
  end.

Definition not_an_address : string := "0000000000000000000!!!!!!!!!!!!!!!!!!!!!".

(** What [results] holds: nothing, a flag or a text. *)
Definition primitive (v : value) : bool :=
  match v with VUndefined | VBool _ | VStr _ => true | _ => false end.

(** What the loop of [revokeAuthorities] keeps true of [results]. *)
Definition results_inv (results : list (string * value)) : Prop :=
  outcome_flags results /\ forallb (fun kv => primitive (snd kv)) results = true.

(** The properties that [revoke_updatedInfo] writes over those of the record. *)
Definition revoke_updates (props results : list (string * value)) (now : string)
  : list (string * value) :=
  [ ("mintAuthorityRevoked",
      js_or (field results "mintRevoked") (field props "mintAuthorityRevoked"));
    ("freezeAuthorityRevoked",
      js_or (field results "freezeRevoked") (field props "freezeAuthorityRevoked"));
    ("mintRevokeTransaction",
      js_or (field results "mintRevokeSignature") (field props "mintRevokeTransaction"));
    ("freezeRevokeTransaction",
      js_or (field results "freezeRevokeSignature") (field props "freezeRevokeTransaction"));
    ("lastRevokeDate", VStr now) ].

(** [changes_disk c R]: whatever [c] does, and whether it returns or throws,
    the disk before and the disk after are related by [R]. *)
Definition changes_disk {A} (c : M A) (R : Disk -> Disk -> Prop) : Prop :=
  forall w, R (disk w) (disk (snd (c w))).

Definition keeps_disk {A} (c : M A) : Prop := changes_disk c eq.

(** Every file of the later disk is as it was, or holds a record in which
    the flags that were true in [tokenInfo] are true. *)
Definition flags_kept (tokenInfo : value) (before after : Disk) : Prop :=
  forall file,
    assoc file (files after) = assoc file (files before)
    \/ exists content record,
         assoc file (files after) = Some content
         /\ JSON.parse content = Ok record
         /\ (get_prop tokenInfo "mintAuthorityRevoked" = Ok (VBool true) ->
             get_prop record "mintAuthorityRevoked" = Ok (VBool true))
         /\ (get_prop tokenInfo "freezeAuthorityRevoked" = Ok (VBool true) ->
             get_prop record "freezeAuthorityRevoked" = Ok (VBool true)).

(** Every record of the mint address that a [.json] file of the tokens
    directory holds is the record [props]: the store has no other version
    of it. *)
Definition same_record (d : Disk) (tokenAddress : value)
    (props : list (string * value)) : Prop :=
  forall name content data mintAddress,
    endsWith name ".json" = true ->
    assoc (path_join CONFIG.PATHS.TOKENS name) (files d) = Some content ->
    JSON.parse content = Ok data ->
    get_prop data "mintAddress" = Ok mintAddress ->
    strict_eq mintAddress tokenAddress = true ->
    data = VObj props.

(** A file that held a record in which a flag was true holds a record in
    which it is true. *)
Definition flags_stay (before after : Disk) : Prop :=
  forall file content record flag,
    In flag ["mintAuthorityRevoked"; "freezeAuthorityRevoked"] ->
    assoc file (files before) = Some content ->
    JSON.parse content = Ok record ->
    get_prop record flag = Ok (VBool true) ->
    exists content' record',
      assoc file (files after) = Some content'
      /\ JSON.parse content' = Ok record'
      /\ get_prop record' flag = Ok (VBool true).

End Notions.

(** ** Concrete data for the examples *)

(** The part of [s] before its last slash and the part after it. *)
Fixpoint split_last_slash (s : string) : option (string * string) :=
  match s with
  | EmptyString => None
  | String c r =>
      match split_last_slash r with
      | Some (d, b) => Some (String c d, b)
      | None => if Ascii.eqb c "/" then Some (EmptyString, r) else None
      end
  end.

(** A plain reading of paths, for the examples: no normalisation; and one
    message for every text that is not JSON. *)
Definition plain_paths : Platform :=
  {| path_dirname := fun p =>
       match split_last_slash p with Some (d, _) => d | None => "." end;
     path_basename := fun p =>
       match split_last_slash p with Some (_, b) => b | None => p end;
     path_join := fun d f => d ++ "/" ++ f;
     path_resolve := fun p => p;
     string_gt_zero := fun _ => false;
     json_syntax_error := fun _ => "Unexpected token in JSON" |}.

Definition example_record : value :=
  VObj [ ("name", VStr "Alpha"); ("symbol", VStr "ALP");
         ("mintAddress", VStr "7xKXtg2CW87d97TXJSDpbD5jBkheTqA83TZRuJosgAsU");
         ("decimals", VNum 9); ("initialSupply", VNum 1000000);
         ("network", VStr "devnet");
         ("mintAuthorityRevoked", VBool true) ].

Definition example_path : string := "./tokens/ALP-1700000000000.json".

(** A disk with one token record, and an external program that accepts the
    first command (the configuration) and refuses every other one. *)
Definition example_world : World :=
  mkWorld
    (mkDisk [ (example_path,
               match JSON.stringify example_record with Some t => t | None => "" end) ]
            [ "./tokens" ])
    []
    (fun n _ => match n with
                | O => Ok (mkExecOutput "Config File: config.yml" "")
                | S _ => Throw (Error "Command failed: the authority is already disabled")
                end)
    0.

Definition other_mint : value := VStr "So11111111111111111111111111111111111111112".

Definition example_mint : value := VStr "7xKXtg2CW87d97TXJSDpbD5jBkheTqA83TZRuJosgAsU".

Definition example_props : list (string * value) :=
  [ ("name", VStr "Alpha"); ("symbol", VStr "ALP");
    ("mintAddress", example_mint);
    ("decimals", VNum 9); ("initialSupply", VNum 1000000);
    ("network", VStr "devnet");
    ("mintAuthorityRevoked", VBool true) ].

(** The record of [example_world] after a revocation of the mint authority
    that the external program refuses. *)
Definition example_after_failed_revocation : World :=
  snd (@revokeAuthorities plain_paths example_mint (VObj example_props) ["mint"]
         "./wallets/wallet.json" "devnet" "2025-01-01T00:00:00.000Z" example_world).

Definition example_metadata : Metadata :=
  {| md_name := "Alpha"; md_symbol := "ALP";
     md_uri := "https://gateway.pinata.cloud/ipfs/QmExample";
     md_updateAuthority := "9WzDXwBbmkg8ZTbNMqUxvQRAyrZzDsGYdLVL9zYtAWWM";
     md_isMutable := true; md_primarySaleHappened := false;
     md_sellerFeeBasisPoints := 0; md_tokenStandard := VUndefined;
     md_creators := None |}.

(** A second version of the record of [example_record], in which the mint
    authority is not revoked. *)
Definition copy_props : list (string * value) :=
  [ ("name", VStr "Alpha"); ("symbol", VStr "ALP");
    ("mintAddress", example_mint);
    ("decimals", VNum 9); ("initialSupply", VNum 1000000);
    ("network", VStr "devnet");
    ("mintAuthorityRevoked", VBool false) ].

Definition copy_path : string := "./tokens/ALP-1700000000001.json".

(** The disk of [example_world] with the second version next to the first,
    and the same external program. *)
Definition copies_world : World :=
  mkWorld
    (mkDisk [ (example_path,
               match JSON.stringify example_record with Some t => t | None => "" end);
              (copy_path,
               match JSON.stringify (VObj copy_props) with Some t => t | None => "" end) ]
            [ "./tokens" ])
    []
    (shell example_world)
    0.

(** [copies_world] after a revocation of the mint authority, asked for the
    second version, that the external program refuses. *)
Definition copies_after_failed_revocation : World :=
  snd (@revokeAuthorities plain_paths example_mint (VObj copy_props) ["mint"]
         "./wallets/wallet.json" "devnet" "2025-01-01T00:00:00.000Z" copies_world).

(** A record whose [totalMinted] is the fraction 0.5, and a disk that holds
    it. *)
Definition half_props : list (string * value) :=
  [ ("name", VStr "Half"); ("symbol", VStr "HLF");
    ("mintAddress", example_mint);
    ("totalMinted", VReal (Dyadic 1 1)) ].

Definition half_path : string := "./tokens/HLF-1700000000002.json".

Definition half_world : World :=
  mkWorld
    (mkDisk [ (half_path,
               match JSON.stringify (VObj half_props) with Some t => t | None => "" end) ]
            [ "./tokens" ])
    []
    (shell example_world)
    0.

(** A wallet file of 64 times the fraction 0.5. *)
Definition half_wallet_path : string := "./wallets/half.json".

Definition half_wallet_world : World :=
  mkWorld
    (mkDisk [ (half_wallet_path, "[" ++ String.concat "," (repeat "0.5" 64) ++ "]") ]
            [ "./wallets" ])
    []
    (shell example_world)
    0.

(** The answer to a URI that does not exist (HTTP 404). *)
Definition response_404 : Response := {| status := 404; body := "Not Found" |}.

(** An answer with the status 201 and an empty JSON object. *)
Definition response_201 : Response := {| status := 201; body := "{}" |}.

(** The inspection of the token of [example_metadata] when the fetch of its
    URI is answered with [response_201]. *)
Definition created_response_inspection : M unit :=
  @checkToken plain_paths other_mint VNull "DEVNET" (Ok tt)
    (Ok (AccountFound scenario_mint_data)) (Ok example_metadata) (Ok response_201) "back".

(** The inspection of an account whose data is empty, on a token without
    metadata. *)
Definition short_buffer_inspection : M unit :=
  @checkToken plain_paths other_mint VNull "DEVNET" (Ok tt) (Ok (AccountFound empty_mint_data))
    (Throw (Error "The account of type [Metadata] was not found")) (Throw (Error "unused"))
    "back".

(* ===================================================================== *)
(** * Part I (further).  More of the sources                              *)
(* ===================================================================== *)

(** The comparisons [s < n] and [s > n] of a string with a number, which
    convert the string to a number first; the conversion is left to the
    platform. *)
Class StringOrder : Type := {
  string_lt : string -> Z -> bool;
  string_gt : string -> Z -> bool
}.

(** [Array.isArray(v)] *)
Definition isArray (v : value) : bool :=
  match v with VArr _ => true | _ => false end.

(** [list.includes(x)] on a list of strings. *)
Definition list_includes (l : list string) (x : string) : bool :=
  existsb (String.eqb x) l.

(** The white space that [String.prototype.trim] removes, below 256. *)
Definition is_trimmed_char (c : ascii) : bool :=
  let n := nat_of_ascii c in
  ((9 <=? n) && (n <=? 13)) || (n =? 32) || (n =? 160).

Fixpoint trim_start (s : string) : string :=
  match s with
  | EmptyString => EmptyString
  | String c r => if is_trimmed_char c then trim_start r else s
  end.

(** The text without the white space at its end. *)
Fixpoint trim_end (s : string) : string :=
  match s with
  | EmptyString => EmptyString
  | String c r =>
      match trim_end r with
      | EmptyString => if is_trimmed_char c then EmptyString else String c EmptyString
      | r' => String c r'
      end
  end.

(** [s.trim()] *)
Definition js_trim (s : string) : string := trim_end (trim_start s).

(** [l.map(f)] for an [f] with effects. *)
Fixpoint js_map {A B} (f : A -> M B) (l : list A) : M (list B) :=
  match l with
  | [] => ret []
  | a :: r => b <- f a ;; bs <- js_map f r ;; ret (b :: bs)
  end.

(* --------------------------------------------------------------------- *)
(** ** src/utils.js, continued                                            *)
(* --------------------------------------------------------------------- *)

Section Utils.
Context `{Platform}.
Context `{StringOrder}.

(** [v < n] and [v > n] for a number [n]: [v] is converted to a number, and
    a comparison with NaN is false. *)
Definition js_lt (v : value) (n : Z) : bool :=
  match v with
  | VNum z => (z <? n)%Z
  | VBool b => ((if b then 1 else 0) <? n)%Z
  | VNull => (0 <? n)%Z
  | VStr s => string_lt s n
  | VArr _ | VWide _ => string_lt (js_toString v) n
  | VReal (Dyadic m k) => (m <? n * 2 ^ Zpos k)%Z
  | VReal (Infinite negative) => negative
  | VUndefined | VObj _ | VWideObj _ => false
  end.

Definition js_gt (v : value) (n : Z) : bool :=
  match v with
  | VNum z => (n <? z)%Z
  | VBool b => (n <? (if b then 1 else 0))%Z
  | VNull => (n <? 0)%Z
  | VStr s => string_gt s n
  | VArr _ | VWide _ => string_gt (js_toString v) n
  | VReal (Dyadic m k) => (n * 2 ^ Zpos k <? m)%Z
  | VReal (Infinite negative) => negb negative
  | VUndefined | VObj _ | VWideObj _ => false
  end.

(** [required.filter(field => !config[field])] *)
Fixpoint missing_fields (config : value) (required : list string) : result (list string) :=
  match required with
  | [] => Ok []
  | name :: rest =>
      rbind (get_prop config name) (fun v =>
      rbind (missing_fields config rest) (fun missing =>
      Ok (if negb (truthy v) then name :: missing else missing)))
  end.

(** [validators.validateTokenConfig] *)
Definition validateTokenConfig (config : value) : result bool :=
  let required := ["name"; "symbol"; "description"] in
  rbind (missing_fields config required) (fun missing =>
  if 0 <? List.length missing then
    Throw (Error ("Missing required fields: " ++ String.concat ", " missing))
  else
    rbind (get_prop config "symbol") (fun symbol =>
    if js_gt (js_length symbol) 10 then
      Throw (Error "Token symbol should be 10 characters or less")
    else
      rbind (get_prop config "decimals") (fun decimals =>
      if js_lt decimals 0 || js_gt decimals 18 then
        Throw (Error "Decimals must be between 0 and 18")
      else Ok true))).

(** [walletUtils.loadWallet] *)
Definition loadWallet (walletPath : string) : M value :=
  try_catch
    (b <- fileUtils.exists_ walletPath ;;
     (if negb b then throw (Error ("Wallet file not found: " ++ walletPath))
      else ret tt) ;;
     walletData <- fileUtils.loadJson walletPath ;;
     (if negb (isArray walletData) || negb (strict_eq (js_length walletData) (VNum 64))
      then throw (Error "Invalid wallet format. Expected array of 64 numbers.")
      else ret tt) ;;
     log.success ("Wallet loaded: " ++ walletPath) ;;
     ret walletData)
    (fun error =>
       log.error ("Failed to load wallet: " ++ error_message error) ;;
       throw error).

(** [tokenUtils.saveTokenInfo]; [date_now] is [Date.now()] and [now] is
    [new Date().toISOString()]. *)
Definition saveTokenInfo (tokenData : value) (date_now : Z) (now : string) : M string :=
  symbol <- lift (get_prop tokenData "symbol") ;;
  let fileName := js_toString symbol ++ "-" ++ JSON.number_to_string date_now ++ ".json" in
  let filePath := path_join CONFIG.PATHS.TOKENS fileName in
  fileUtils.saveJson filePath
    (object_spread tokenData
       [ ("createdAt", VStr now); ("toolVersion", VStr "1.0.0") ]) ;;
  log.success ("Token info saved: " ++ filePath) ;;
  ret filePath.

(** [pinataUtils.uploadJson]; [fetch] is what the request to
    [CONFIG.PINATA.API_URL] gives.  The body of a response that is not JSON
    makes [response.json()] throw; the error is taken to be the one of
    [JSON.parse]. *)
Definition uploadJson (jsonData : value) (name : string) (fetch : result Response) : M string :=
  try_catch
    (log.step ("Uploading " ++ name ++ " to IPFS...") ;;
     response <- lift fetch ;;
     (if negb (ok response) then
        let errorData := body response in
        throw (Error ("Pinata upload failed: "
                        ++ JSON.number_to_string (Z.of_nat (status response))
                        ++ " - " ++ errorData))
      else ret tt) ;;
     result <- lift (JSON.parse (body response)) ;;
     IpfsHash <- lift (get_prop result "IpfsHash") ;;
     let uri := CONFIG.PINATA.GATEWAY ++ js_toString IpfsHash in
     log.success ("Uploaded to IPFS: " ++ uri) ;;
     ret uri)
    (fun error =>
       log.error ("Failed to upload to Pinata: " ++ error_message error) ;;
       throw error).

End Utils.

(* --------------------------------------------------------------------- *)
(** ** The choice of a created token                                      *)
(* --------------------------------------------------------------------- *)

(** One entry of the list offered by the prompt: its label, and its value,
    [{ address, info }] or [null]. *)
Record Choice : Type := mkChoice {
  choice_name : string;
  choice_value : option (value * value)
}.

Section TokenChoices.
Context `{Platform}.

(** check-token.js lines 53-66, mint-tokens.js lines 56-69,
    revoke-authorities.js lines 60-73 and the same lines of
    update-metadata.js: the entry made for one file. *)
Definition tokenChoice (file : string) : M Choice :=
  try_catch
    (data <- fileUtils.loadJson file ;;
     name <- lift (get_prop data "name") ;;
     symbol <- lift (get_prop data "symbol") ;;
     mintAddress <- lift (get_prop data "mintAddress") ;;
     ret {| choice_name := js_toString name ++ " (" ++ js_toString symbol ++ ") - "
                             ++ js_toString mintAddress;
            choice_value := Some (mintAddress, data) |})
    (fun _ => ret {| choice_name := "Error loading " ++ file; choice_value := None |}).

(** The entries kept: those whose value is not [null]. *)
Definition tokenChoices (tokenFiles : list string) : M (list Choice) :=
  choices <- js_map tokenChoice tokenFiles ;;
  ret (filter (fun choice => match choice_value choice with
                             | Some _ => true
                             | None => false
                             end) choices).

End TokenChoices.

(* --------------------------------------------------------------------- *)
(** ** index.js                                                           *)
(* --------------------------------------------------------------------- *)

Section Index.
Context `{Platform}.

(** [listCreatedTokens] *)
Definition listCreatedTokens : M unit :=
  log.title "CREATED TOKENS" ;;
  tokenFiles <- fileUtils.listFiles CONFIG.PATHS.TOKENS ".json" ;;
  if List.length tokenFiles =? 0 then log.warning "No tokens created yet"
  else
    forEach (fun index file =>
               try_catch
                 (tokenData <- fileUtils.loadJson file ;;
                  name <- lift (get_prop tokenData "name") ;;
                  symbol <- lift (get_prop tokenData "symbol") ;;
                  mintAddress <- lift (get_prop tokenData "mintAddress") ;;
                  console_log [ Txt (JSON.number_to_string (Z.of_nat (index + 1)) ++ ".");
                                Js name;
                                Txt ("(" ++ js_toString symbol ++ ")");
                                Js mintAddress ])
                 (fun error =>
                    log.error ("Error reading " ++ file ++ ": " ++ error_message error)))
            0 tokenFiles.

(** [initializeDirectories] *)
Definition initializeDirectories : M unit :=
  fileUtils.ensureDir CONFIG.PATHS.WALLETS ;;
  fileUtils.ensureDir CONFIG.PATHS.TOKENS ;;
  fileUtils.ensureDir CONFIG.PATHS.CONFIG.

End Index.

(* --------------------------------------------------------------------- *)
(** ** The signature of a transaction sent through the SDK                *)
(* --------------------------------------------------------------------- *)

(** [byte.toString(16).padStart(2, '0')] *)
Definition hex_byte (b : byte) : string :=
  let n := N.to_nat (Byte.to_N b) in
  String (JSON.hex_digit (n / 16)) (String (JSON.hex_digit (n mod 16)) EmptyString).

(** create-token.js lines 274-276 and update-metadata.js (lines 779-781 of
    the file that holds mint-tokens.js):
    [Array.from(tx.signature).map(...).join('')]. *)
Definition signature_hex (signature : list byte) : string :=
  String.concat "" (map hex_byte signature).

(* --------------------------------------------------------------------- *)
(** ** src/mint-tokens.js                                                 *)
(* --------------------------------------------------------------------- *)

Section MintTokens.
Context `{Platform}.

Definition owner_option (recipient : value) : string :=
  if truthy recipient then " --owner " ++ js_toString recipient else "".

(** Lines 233-256: the associated token account; its failure is not one of
    the operation. *)
Definition createAta (tokenAddress recipient : value) (network : string) : M unit :=
  spinner.start "Creating associated token account (if needed)..." ;;
  let createAtaCmd :=
    "spl-token create-account " ++ js_toString tokenAddress ++ " --url " ++ network
    ++ owner_option recipient in
  try_catch
    (out <- execAsync createAtaCmd ;;
     if negb (String.eqb (stderr out) "")
        && negb (includes (stderr out) "Error: Account already exists")
     then spinner.warn ("ATA creation output: " ++ stderr out)
     else spinner.succeed "Associated token account ready")
    (fun createError =>
       if includes (error_message createError) "Account already exists"
       then spinner.succeed "Associated token account already exists"
       else spinner.warn ("ATA creation issue (continuing): " ++ error_message createError)).

(** Lines 257-283: the mint itself. *)
Definition mintCommand (tokenAddress recipient : value) (amount : Z) (network : string)
  : M unit :=
  spinner.start "Minting tokens..." ;;
  let mintCmd :=
    "spl-token mint " ++ js_toString tokenAddress ++ " " ++ JSON.number_to_string amount
    ++ " --url " ++ network
    ++ (if truthy recipient then " " ++ js_toString recipient else "") in
  log.info ("Executing: " ++ mintCmd) ;;
  out <- execAsync mintCmd ;;
  when (negb (String.eqb (stderr out) "") && negb (includes (stderr out) "Signature:"))
       (spinner.warn ("Command output: " ++ stderr out)) ;;
  if negb (String.eqb (stdout out) "") then
    spinner.succeed "Tokens minted successfully!" ;;
    log.info ("Output: " ++ stdout out) ;;
    match match_signature (stdout out) with
    | Some signature => log.success ("Transaction signature: " ++ signature)
    | None => ret tt
    end
  else ret tt.

(** Lines 285-298: the balance; its failure is not one of the operation. *)
Definition checkBalance (tokenAddress recipient : value) (network : string) : M unit :=
  spinner.start "Checking token balance..." ;;
  try_catch
    (let balanceCmd :=
       "spl-token balance " ++ js_toString tokenAddress ++ " --url " ++ network
       ++ owner_option recipient in
     out <- execAsync balanceCmd ;;
     spinner.succeed ("Current token balance: " ++ js_trim (stdout out)))
    (fun balanceError =>
       spinner.warn ("Could not check balance: " ++ error_message balanceError)).

(** Lines 300-312. *)
Definition mint_displayResults (tokenAddress recipient : value) (amount : Z)
    (network : string) : M unit :=
  log.success "TOKENS MINTED SUCCESSFULLY!" ;;
  log.separator ;;
  console_log [Txt "Token Address:"; Js tokenAddress] ;;
  console_log [Txt "Amount Minted:"; LocaleString (VNum amount)] ;;
  console_log [Txt "Network:"; Txt (toUpperCase network)] ;;
  when (truthy recipient) (console_log [Txt "Recipient:"; Js recipient]) ;;
  log.separator ;;
  displayUtils.displayExplorerLinks (js_toString tokenAddress) "address" (toUpperCase network).

(** Lines 344-367; [again] is the session started by the answer
    [mint-more]. *)
Definition mint_nextAction (tokenAddress : value) (network nextAction : string)
    (again : M unit) : M unit :=
  if String.eqb nextAction "mint-more" then
    log.info "Starting another minting session..." ;;
    again
  else if String.eqb nextAction "explorer" then
    let urls := tokenUtils.getExplorerUrls (js_toString tokenAddress) "address"
                  (toUpperCase network) in
    log.info "Explorer URLs:" ;;
    console_log [Txt "Solana Explorer:"; Txt (solana urls)] ;;
    console_log [Txt "SolScan:"; Txt (solscan urls)]
  else ret tt.

(** Lines 374-395: the outer [catch]. *)
Definition mint_failed (e : JsError) : M unit :=
  log.error ("Token minting failed: " ++ error_message e) ;;
  (if includes (error_message e) "insufficient funds" then
     log.info "Solution: Add SOL to your wallet for transaction fees" ;;
     log.info "   For devnet: solana airdrop 2 --url devnet"
   else if includes (error_message e) "not found" then
     log.info "Solution: Make sure Solana CLI tools are installed" ;;
     log.info "   Install from: https://docs.solana.com/cli/install-solana-cli-tools"
   else if includes (error_message e) "authority" then
     log.info "Solution: Make sure you're using the mint authority wallet" ;;
     log.info "   The wallet must be the same one used to create the token"
   else if includes (error_message e) "Invalid mint" then
     log.info "Solution: Check the token address is correct" ;;
     log.info "   Make sure the token exists on the selected network"
   else if includes (error_message e) "config" then
     log.info "Solution: Solana CLI configuration issue" ;;
     log.info "   Try running: solana config get"
   else ret tt) ;;
  throw e.

(** [mintTokens] from line 201 on, once the token, the wallet, the network,
    the amount and the recipient are chosen and the mint is confirmed. *)
Definition mintTokens (tokenAddress tokenInfo : value) (walletFile network : string)
    (amount : Z) (recipient : value) (nextAction : string) (again : M unit)
    (now : string) : M unit :=
  try_catch
    (spinner.start "Setting up Solana configuration..." ;;
     try_catch
       (let absoluteWalletPath := path_resolve walletFile in
        spinner.text "Configuring Solana CLI with wallet..." ;;
        let configSetCmd :=
          "solana config set --keypair " ++ absoluteWalletPath ++ " --url " ++ network in
        log.info ("Setting config: " ++ configSetCmd) ;;
        out <- execAsync configSetCmd ;;
        when (negb (String.eqb (stderr out) ""))
             (log.warning ("Config warning: " ++ stderr out)) ;;
        when (negb (String.eqb (stdout out) ""))
             (log.info ("Config set: " ++ js_trim (stdout out))) ;;
        spinner.succeed "Solana CLI configured successfully" ;;
        spinner.start "Verifying configuration..." ;;
        verify <- execAsync "solana config get" ;;
        log.info ("Current config:" ++ JSON.nl ++ stdout verify) ;;
        spinner.succeed "Configuration verified" ;;
        createAta tokenAddress recipient network ;;
        mintCommand tokenAddress recipient amount network ;;
        checkBalance tokenAddress recipient network ;;
        mint_displayResults tokenAddress recipient amount network ;;
        mint_updateTokenInfo tokenAddress tokenInfo amount now ;;
        mint_nextAction tokenAddress network nextAction again)
       (fun e => spinner.fail "Token minting failed" ;; throw e))
    mint_failed.

End MintTokens.

(* --------------------------------------------------------------------- *)
(** ** src/update-metadata.js: the record update                          *)
(* --------------------------------------------------------------------- *)

Section UpdateMetadata.
Context `{Platform}.

(** The object [updates] (lines 598-666 of the file that holds
    mint-tokens.js and update-metadata.js), filled in the order of the
    prompts; [answers] gives the text typed at the prompt of a field. *)
Definition collect_updates (fieldsToUpdate : list string) (answers : string -> string)
  : list (string * value) :=
  fold_left
    (fun updates name =>
       if list_includes fieldsToUpdate name
       then set_prop name (VStr (answers name)) updates
       else updates)
    ["name"; "symbol"; "description"; "image"; "externalUrl"] [].

(** Lines 799-805 of the same file: the record that is written. *)
Definition update_updatedInfo (tokenInfo : value) (updates : list (string * value))
    (metadataUri signature now : string) : value :=
  object_spread (object_spread tokenInfo updates)
    [ ("metadataUri", VStr metadataUri);
      ("lastUpdateTransaction", VStr signature);
      ("lastUpdateDate", VStr now) ].

(** Lines 785-813 of the same file. *)
Definition update_updateTokenInfo (tokenAddress tokenInfo : value)
    (updates : list (string * value)) (metadataUri signature now : string) : M unit :=
  if truthy tokenInfo then
    try_catch
      (tokenFile <- findTokenFile tokenAddress ;;
       match tokenFile with
       | Some file =>
           if negb (String.eqb file "") then
             fileUtils.saveJson file
               (update_updatedInfo tokenInfo updates metadataUri signature now) ;;
             log.success "Token info file updated"
           else ret tt
       | None => ret tt
       end)
      (fun _ => log.warning "Could not update token info file")
  else ret tt.

End UpdateMetadata.

(* ===================================================================== *)
(** * Part I (end).  The notions of the further properties *)
(* ===================================================================== *)

Section FurtherNotions.
Context {platform : Platform}.

(** ** The signature in the output of the external program *)

(** Some place of [s] holds the words that precede a signature, in any
    letter case. *)
Fixpoint mentions_signature (s : string) : bool :=
  match s with
  | EmptyString => false
  | String _ r =>
      match after_prefix_ci "Signature: " s with
      | Some _ => true
      | None => mentions_signature r
      end
  end.

Fixpoint all_alnum (s : string) : bool :=
  match s with
  | EmptyString => true
  | String c r => is_alnum c && all_alnum r
  end.

Definition starts_alnum (s : string) : bool :=
  match s with
  | EmptyString => false
  | String c _ => is_alnum c
  end.

(** ** The calls of the external program *)

(** [ran w w' n]: from [w] to [w'] the external program was called [n] times
    and the disk was left as it is. *)
Definition ran (w w' : World) (n : nat) : Prop :=
  disk w' = disk w /\ shell w' = shell w /\ executed w' = n + executed w.

(** The answer of the external program to [cmd] when it is the command
    issued after [k] others, counted from [w]. *)
Definition answer (w : World) (k : nat) (cmd : string) : result ExecOutput :=
  shell w (k + executed w) cmd.

Definition accepted {A} (r : result A) : bool :=
  match r with Ok _ => true | Throw _ => false end.

Definition revokeMintCmd (tokenAddress : value) (network : string) : string :=
  "spl-token authorize " ++ js_toString tokenAddress ++ " mint --disable --url " ++ network.

Definition revokeFreezeCmd (tokenAddress : value) (network : string) : string :=
  "spl-token authorize " ++ js_toString tokenAddress ++ " freeze --disable --url " ++ network.

(** The signature captured in the answer [r]: the one of a non-empty
    standard output. *)
Definition captured (r : result ExecOutput) : option string :=
  match r with
  | Ok out => if String.eqb (stdout out) "" then None else match_signature (stdout out)
  | Throw _ => None
  end.

(** The signature that a revocation stores for the answer [r]. *)
Definition stored_signature (r : result ExecOutput) : value :=
  match captured r with
  | Some signature => VStr signature
  | None => VUndefined
  end.

(** [results] after the revocation of one authority whose command was
    answered by [r]; [revoked], [signature] and [error] are the names of
    the three properties of that authority. *)
Definition revocation_results (revoked signature error : string)
    (r : result ExecOutput) (results : list (string * value)) : list (string * value) :=
  match r with
  | Ok _ =>
      set_prop revoked (VBool true)
        (match captured r with
         | Some s => set_prop signature (VStr s) results
         | None => results
         end)
  | Throw e =>
      set_prop error (VStr (error_message e)) (set_prop revoked (VBool false) results)
  end.

(** The message that a revocation stores for the answer [r]. *)
Definition stored_error (r : result ExecOutput) : value :=
  match r with
  | Ok _ => VUndefined
  | Throw e => VStr (error_message e)
  end.

(** [results] after the loop of [revokeAuthorities] over the chosen
    authorities, the mint authority first; [r1] and [r2] are the answers to
    the two commands. *)
Definition chosen_results (mint freeze : bool) (r1 r2 : result ExecOutput)
  : list (string * value) :=
  let results1 :=
    if mint
    then revocation_results "mintRevoked" "mintRevokeSignature" "mintError" r1 []
    else [] in
  if freeze
  then revocation_results "freezeRevoked" "freezeRevokeSignature" "freezeError" r2 results1
  else results1.

(** The authorities chosen in the checkbox. *)
Definition chosen (mint freeze : bool) : list string :=
  ((if mint then ["mint"] else []) ++ (if freeze then ["freeze"] else []))%list.

Definition configSetCmd (walletFile network : string) : string :=
  "solana config set --keypair " ++ path_resolve walletFile ++ " --url " ++ network.

(** ** What the store can hold *)

(** [reads_disk c]: [c] only reads the disk: its result depends on nothing
    else and it leaves the world as it is. *)
Definition reads_disk {A} (c : M A) : Prop :=
  forall w, exists r, forall w', disk w' = disk w -> c w' = (r, w').

(** The path can be written by [saveJson]: it is not a directory, and its
    directory exists or can be made. *)
Definition writable (d : Disk) (filePath : string) : Prop :=
  is_dir d filePath = false
  /\ is_file d (path_dirname filePath) = false
  /\ path_dirname filePath <> filePath.

(** The amount minted so far according to a record: its [totalMinted], and
    nothing when the property is missing. *)
Definition minted_so_far (props : list (string * value)) : option Z :=
  match field props "totalMinted" with
  | VNum x => Some x
  | VUndefined | VNull => Some 0%Z
  | _ => None
  end.

(** ** The configuration of a new token *)

(** The required fields that are empty, in the order of the check. *)
Definition empty_fields (name symbol description : string) : list string :=
  map fst (filter (fun kv => String.eqb (snd kv) "")
             [("name", name); ("symbol", symbol); ("description", description)]).

(** ** The text of a signature *)

Definition is_hex_char (c : ascii) : bool :=
  let n := nat_of_ascii c in
  ((48 <=? n) && (n <=? 57)) || ((97 <=? n) && (n <=? 102)).

Fixpoint all_hex (s : string) : bool :=
  match s with
  | EmptyString => true
  | String c r => is_hex_char c && all_hex r
  end.

(** The bytes written as pairs of hexadecimal digits. *)
Fixpoint hex_decode (s : string) : option (list byte) :=
  match s with
  | EmptyString => Some []
  | String a (String b r) =>
      match JSON.hex_value a, JSON.hex_value b, hex_decode r with
      | Some x, Some y, Some l =>
          match Byte.of_N (N.of_nat (16 * x + y)) with
          | Some byte => Some (byte :: l)
          | None => None
          end
      | _, _, _ => None
      end
  | String _ EmptyString => None
  end.

(** ** The created tokens *)

(** A record from which properties can be read. *)
Definition is_record (data : value) : bool :=
  match data with VUndefined | VNull => false | _ => true end.

(** What the store holds at [file]: the value of the JSON text of the file,
    or the error of reading it. *)
Definition stored (w : World) (file : string) : result value :=
  match assoc file (files (disk w)) with
  | Some content => JSON.parse content
  | None =>
      Throw (Error (if is_dir (disk w) file
                    then "EISDIR: illegal operation on a directory, read"
                    else "File not found: " ++ file))
  end.

(** The entry that the prompt makes for [file] in the world [w]. *)
Definition entry_of (w : World) (file : string) : Choice :=
  match stored w file with
  | Ok data =>
      if is_record data then
        {| choice_name := js_toString (prop_of data "name") ++ " ("
                            ++ js_toString (prop_of data "symbol") ++ ") - "
                            ++ js_toString (prop_of data "mintAddress");
           choice_value := Some (prop_of data "mintAddress", data) |}
      else {| choice_name := "Error loading " ++ file; choice_value := None |}
  | Throw _ => {| choice_name := "Error loading " ++ file; choice_value := None |}
  end.

Definition is_offered (choice : Choice) : bool :=
  match choice_value choice with Some _ => true | None => false end.

(** The error of reading a property of [null] or [undefined]. *)
Definition not_a_record (data : value) (k : string) : JsError :=
  match get_prop data k with Throw e => e | Ok _ => Error "" end.

(** The line that [listCreatedTokens] prints for the file of rank [index]. *)
Definition listing_line (w : World) (index : nat) (file : string) : Event :=
  match stored w file with
  | Ok data =>
      if is_record data then
        ConsoleLog [ Txt (JSON.number_to_string (Z.of_nat (index + 1)) ++ ".");
                     Js (prop_of data "name");
                     Txt ("(" ++ js_toString (prop_of data "symbol") ++ ")");
                     Js (prop_of data "mintAddress") ]
      else Log LError ("Error reading " ++ file ++ ": "
                         ++ error_message (not_a_record data "name"))
  | Throw e => Log LError ("Error reading " ++ file ++ ": " ++ error_message e)
  end.

Fixpoint listing_lines (w : World) (index : nat) (files : list string) : list Event :=
  match files with
  | [] => []
  | file :: rest => listing_line w index file :: listing_lines w (S index) rest
  end.

(** ** The commands of a mint *)

Definition mintCmd (tokenAddress recipient : value) (amount : Z) (network : string) : string :=
  "spl-token mint " ++ js_toString tokenAddress ++ " " ++ JSON.number_to_string amount
  ++ " --url " ++ network
  ++ (if truthy recipient then " " ++ js_toString recipient else "").

(** The first of the three commands that a mint needs (the configuration,
    its verification, the mint itself) to be refused, if any; the commands
    are the first, the second and the fourth of the operation. *)
Definition first_refusal (w : World) (walletFile network : string)
    (tokenAddress recipient : value) (amount : Z) : option (JsError * nat) :=
  match answer w 0 (configSetCmd walletFile network) with
  | Throw e => Some (e, 1)
  | Ok _ =>
      match answer w 1 "solana config get" with
      | Throw e => Some (e, 2)
      | Ok _ =>
          match answer w 3 (mintCmd tokenAddress recipient amount network) with
          | Throw e => Some (e, 4)
          | Ok _ => None
          end
      end
  end.

End FurtherNotions.

(** ** For the examples *)

(** A plain reading of the comparisons, for the examples: a text that is not
    a numeral converts to [NaN], and compares false with every number. *)
Definition plain_order : StringOrder :=
  {| string_lt := fun _ _ => false; string_gt := fun _ _ => false |}.

(** The answers typed at the prompts of an update, for the examples. *)
Definition example_answers (name : string) : string :=
  if String.eqb name "name" then "Beta"
  else if String.eqb name "image" then "https://example.org/beta.png"
  else "".

(** A configuration of a new token that passes the validation. *)
Definition example_config : list (string * value) :=
  [ ("name", VStr "Alpha"); ("symbol", VStr "ALP");
    ("description", VStr "The first token"); ("decimals", VNum 9) ].

(* ===================================================================== *)
(** * Part II.  Lemmas and theorems *)
(* ===================================================================== *)

Section Proofs.
Context {platform : Platform}.

(* --------------------------------------------------------------------- *)
(** ** Strings *)
(* --------------------------------------------------------------------- *)

Lemma length_append (a b : string) : String.length (a ++ b) = String.length a + String.length b.
Proof. induction a; simpl; auto. Qed.

Lemma append_assoc (a b c : string) : (a ++ b) ++ c = a ++ (b ++ c).
Proof. induction a; simpl; congruence. Qed.

Lemma append_nil_r (a : string) : a ++ "" = a.
Proof. induction a; simpl; congruence. Qed.

Lemma substring_all (s : string) : substring 0 (String.length s) s = s.
Proof. induction s; simpl; congruence. Qed.

(* --------------------------------------------------------------------- *)
(** ** JSON: string literals *)
(* --------------------------------------------------------------------- *)

Lemma parse_chars_step c tail res :
  parse_chars tail = Ok res ->
  parse_chars (escape_char c ++ tail) = Ok (N_of_ascii c :: fst res, snd res).
Proof.
  intros Ht.
  destruct c as [[|] [|] [|] [|] [|] [|] [|] [|]];
    match goal with
    | |- context [escape_char ?c] =>
        let e := eval vm_compute in (escape_char c) in
        change (escape_char c) with e
    end;
    cbn; rewrite Ht; reflexivity.
Qed.

Lemma hex_value_digit n : n < 16 -> hex_value (hex_digit n) = Some n.
Proof. intros H. do 16 (destruct n as [|n]; [reflexivity|]). lia. Qed.

Lemma parse_chars_u h1 h2 h3 h4 tail :
  parse_chars (String backslash (String "u" (String h1 (String h2 (String h3 (String h4 tail))))))
  = match hex_value h1, hex_value h2, hex_value h3, hex_value h4 with
    | Some a, Some b, Some c, Some d =>
        prepend (N.of_nat (4096 * a + 256 * b + 16 * c + d)) (parse_chars tail)
    | _, _, _, _ => Throw (SyntaxError "Bad Unicode escape in JSON")
    end.
Proof. reflexivity. Qed.

Lemma hex4_value u :
  (u < 65536)%N ->
  N.of_nat (4096 * N.to_nat (u / 4096 mod 16) + 256 * N.to_nat (u / 256 mod 16)
            + 16 * N.to_nat (u / 16 mod 16) + N.to_nat (u mod 16)) = u.
Proof.
  intros H.
  rewrite !Nat2N.inj_add, !Nat2N.inj_mul, !N2Nat.id.
  change (N.of_nat 4096) with 4096%N. change (N.of_nat 256) with 256%N.
  change (N.of_nat 16) with 16%N.
  replace (u / 4096)%N with (u / 16 / 16 / 16)%N
    by (rewrite !N.Div0.div_div; reflexivity).
  replace (u / 256)%N with (u / 16 / 16)%N by (rewrite !N.Div0.div_div; reflexivity).
  pose proof (N.div_mod' u 16) as H1.
  pose proof (N.div_mod' (u / 16) 16) as H2.
  pose proof (N.div_mod' (u / 16 / 16) 16) as H3.
  pose proof (N.div_mod' (u / 16 / 16 / 16) 16) as H4.
  pose proof (N.mod_lt u 16 ltac:(discriminate)).
  pose proof (N.mod_lt (u / 16) 16 ltac:(discriminate)).
  pose proof (N.mod_lt (u / 16 / 16) 16 ltac:(discriminate)).
  pose proof (N.mod_lt (u / 16 / 16 / 16) 16 ltac:(discriminate)).
  generalize dependent (u mod 16)%N. generalize dependent (u / 16 mod 16)%N.
  generalize dependent (u / 16 / 16 mod 16)%N.
  generalize dependent (u / 16 / 16 / 16 mod 16)%N.
  generalize dependent (u / 16 / 16 / 16 / 16)%N.
  generalize dependent (u / 16 / 16 / 16)%N.
  generalize dependent (u / 16 / 16)%N.
  generalize dependent (u / 16)%N.
  intros. lia.
Qed.

Lemma nibble_small x : N.to_nat (x mod 16) < 16.
Proof. pose proof (N.mod_lt x 16 ltac:(discriminate)). lia. Qed.

Lemma parse_chars_wide u tail res :
  (u < 65536)%N ->
  parse_chars tail = Ok res ->
  parse_chars (("\u" ++ hex4 u) ++ tail) = Ok (u :: fst res, snd res).
Proof.
  intros Hu Ht. unfold hex4. cbn [append].
  change (String "\" ?r) with (String backslash r).
  rewrite parse_chars_u.
  rewrite !hex_value_digit by apply nibble_small.
  rewrite hex4_value by assumption. rewrite Ht. reflexivity.
Qed.

Lemma parse_chars_unit u tail res :
  (u <? 65536)%N = true ->
  parse_chars tail = Ok res ->
  parse_chars (escape_unit u ++ tail) = Ok (u :: fst res, snd res).
Proof.
  intros Hu Ht. apply N.ltb_lt in Hu. unfold escape_unit.
  destruct (u <? 256)%N eqn:E.
  - apply N.ltb_lt in E. rewrite (parse_chars_step _ _ _ Ht).
    rewrite N_ascii_embedding by assumption. reflexivity.
  - apply parse_chars_wide; assumption.
Qed.

Lemma parse_chars_units units rest :
  forallb (fun u => (u <? 65536)%N) units = true ->
  parse_chars (escape_units units ++ String dquote rest) = Ok (units, rest).
Proof.
  induction units as [|u units IH]; cbn [escape_units forallb]; intros H.
  - reflexivity.
  - apply andb_prop in H as [Hu H]. rewrite append_assoc.
    rewrite (parse_chars_unit u _ _ Hu (IH H)). reflexivity.
Qed.

Lemma units_of_cons c s : units_of (String c s) = N_of_ascii c :: units_of s.
Proof. reflexivity. Qed.

Lemma N_of_ascii_small c : (N_of_ascii c <? 256)%N = true.
Proof. apply N.ltb_lt, N_ascii_bounded. Qed.

Lemma escape_units_of s : escape_units (units_of s) = escape s.
Proof.
  induction s as [|c s IH]; [reflexivity|].
  rewrite units_of_cons. cbn [escape_units escape]. rewrite IH.
  unfold escape_unit. rewrite N_of_ascii_small, ascii_N_embedding. reflexivity.
Qed.

Lemma narrow_units_of s : narrow (units_of s) = Some s.
Proof.
  induction s as [|c s IH]; [reflexivity|].
  rewrite units_of_cons. cbn [narrow]. rewrite N_of_ascii_small, IH, ascii_N_embedding.
  reflexivity.
Qed.

Lemma string_value_units_of s : string_value (units_of s) = VStr s.
Proof. unfold string_value. rewrite narrow_units_of. reflexivity. Qed.

Lemma narrow_wide units :
  existsb (fun u => (256 <=? u)%N) units = true -> narrow units = None.
Proof.
  induction units as [|u units IH]; cbn [existsb narrow]; [discriminate|].
  intros H. destruct (u <? 256)%N eqn:E; [|reflexivity].
  apply N.ltb_lt in E. apply orb_prop in H as [H|H].
  - apply N.leb_le in H. lia.
  - rewrite (IH H). reflexivity.
Qed.

Lemma string_value_wide units : proper_wide units = true -> string_value units = VWide units.
Proof.
  unfold proper_wide. intros H. apply andb_prop in H as [_ H].
  unfold string_value. rewrite (narrow_wide _ H). reflexivity.
Qed.

Lemma parse_chars_escape s rest :
  parse_chars (escape s ++ String dquote rest) = Ok (units_of s, rest).
Proof.
  rewrite <- escape_units_of. apply parse_chars_units.
  apply forallb_forall. intros u Hu. unfold units_of in Hu.
  apply in_map_iff in Hu as (c & <- & _).
  apply N.ltb_lt. pose proof (N_ascii_bounded c). lia.
Qed.

Lemma units_eqb_eq x y : units_eqb x y = true <-> x = y.
Proof.
  revert y. induction x as [|u x IH]; intros [|u' y]; cbn [units_eqb];
    try (split; [discriminate|congruence]); [tauto|].
  rewrite andb_true_iff, N.eqb_eq, IH. split; [intros [-> ->]; reflexivity|].
  intros [= -> ->]. auto.
Qed.

Lemma units_of_inj a b : units_of a = units_of b -> a = b.
Proof.
  intros H. pose proof (narrow_units_of a) as Ha. rewrite H, narrow_units_of in Ha.
  congruence.
Qed.

Lemma units_eqb_units_of a b : units_eqb (units_of a) (units_of b) = String.eqb a b.
Proof.
  destruct (String.eqb a b) eqn:E.
  - apply String.eqb_eq in E. subst. apply units_eqb_eq. reflexivity.
  - destruct (units_eqb (units_of a) (units_of b)) eqn:E'; [|reflexivity].
    apply units_eqb_eq, units_of_inj in E'. subst. rewrite String.eqb_refl in E. discriminate.
Qed.

(* --------------------------------------------------------------------- *)
(** ** JSON: numbers *)
(* --------------------------------------------------------------------- *)

Lemma span_digits_uint d rest :
  match rest with EmptyString => True | String c _ => is_digit c = false end ->
  span_digits (NilEmpty.string_of_uint d ++ rest) = (NilEmpty.string_of_uint d, rest).
Proof.
  intros Hr. induction d; simpl; try (rewrite IHd; reflexivity).
  destruct rest; simpl; auto. rewrite Hr. reflexivity.
Qed.

Lemma nzhead_not_D0 d d' : Decimal.nzhead d <> Decimal.D0 d'.
Proof. induction d; simpl; auto; discriminate. Qed.

Lemma to_uint_normal p : Decimal.unorm (Pos.to_uint p) = Pos.to_uint p.
Proof.
  rewrite <- (DecimalPos.Unsigned.to_of (Pos.to_uint p)).
  rewrite DecimalPos.Unsigned.of_to. reflexivity.
Qed.

Lemma to_uint_head p :
  exists c ds, NilEmpty.string_of_uint (Pos.to_uint p) = String c ds
               /\ is_digit c = true /\ Ascii.eqb c "0" = false.
Proof.
  pose proof (to_uint_normal p) as Hn.
  pose proof (DecimalPos.Unsigned.to_uint_nonzero p) as Hz.
  pose proof (DecimalPos.Unsigned.to_uint_nonnil p) as Hnil.
  destruct (Pos.to_uint p) as [|d|d|d|d|d|d|d|d|d|d] eqn:E;
    try (eexists _, _; simpl; repeat split; reflexivity).
  - congruence.
  - exfalso. rewrite DecimalFacts.unorm_D0 in Hn.
    unfold Decimal.unorm in Hn.
    destruct (Decimal.nzhead d) eqn:En; try discriminate.
    + injection Hn as <-. apply Hz. reflexivity.
    + exact (nzhead_not_D0 _ _ En).
Qed.

Lemma number_ends_digit rest :
  number_ends rest = true ->
  match rest with EmptyString => True | String c _ => is_digit c = false end.
Proof.
  destruct rest as [|a rest]; [trivial|]. unfold number_ends.
  destruct (is_digit a); [discriminate|reflexivity].
Qed.

Lemma number_ends_continues rest :
  number_ends rest = true -> continues_number rest = false.
Proof.
  destruct rest as [|a rest]; [reflexivity|]. unfold number_ends.
  destruct (continues_number (String a rest)); [|reflexivity].
  rewrite andb_false_r. discriminate.
Qed.

Lemma string_of_pos p :
  NilZero.string_of_uint (Pos.to_uint p) = NilEmpty.string_of_uint (Pos.to_uint p).
Proof.
  pose proof (DecimalPos.Unsigned.to_uint_nonnil p) as Hnil.
  destruct (Pos.to_uint p); try reflexivity. congruence.
Qed.

Lemma parse_int_pos p rest :
  number_ends rest = true ->
  parse_int (NilZero.string_of_uint (N.to_uint (Npos p)) ++ rest)
  = Ok (NilZero.string_of_uint (N.to_uint (Npos p)), rest).
Proof.
  intros Hr. simpl N.to_uint. rewrite string_of_pos.
  unfold parse_int. rewrite span_digits_uint by (apply number_ends_digit; assumption).
  simpl fst.
  destruct (to_uint_head p) as (c & ds & E & Hd & H0). rewrite E, H0. reflexivity.
Qed.

Lemma digits_value_pos p :
  digits_value (NilZero.string_of_uint (N.to_uint (Npos p)) ++ "") = Zpos p.
Proof.
  rewrite append_nil_r. unfold digits_value. simpl N.to_uint.
  rewrite NilZero.usu by apply DecimalPos.Unsigned.to_uint_nonnil.
  change (N.of_uint (Pos.to_uint p)) with (Pos.of_uint (Pos.to_uint p)).
  rewrite DecimalPos.Unsigned.of_to. reflexivity.
Qed.

Lemma parse_fraction_none rest :
  number_ends rest = true -> parse_fraction rest = Ok (EmptyString, rest).
Proof.
  intros Hr. apply number_ends_continues in Hr.
  destruct rest as [|c rest]; [reflexivity|].
  unfold parse_fraction. unfold continues_number in Hr.
  destruct c as [[|] [|] [|] [|] [|] [|] [|] [|]]; try reflexivity; discriminate.
Qed.

Lemma parse_exponent_none rest :
  number_ends rest = true -> parse_exponent rest = Ok (0%Z, rest).
Proof.
  intros Hr. apply number_ends_continues in Hr.
  destruct rest as [|c rest]; [reflexivity|].
  unfold parse_exponent. unfold continues_number in Hr.
  apply orb_false_elim in Hr as [Hr HE]. apply orb_false_elim in Hr as [_ He].
  rewrite He, HE. reflexivity.
Qed.

Lemma of_decimal_integer negative c :
  safe_integer c = true -> Number.of_decimal negative c 0 = VNum (Number.signed negative c).
Proof. intros H. unfold Number.of_decimal. rewrite H. reflexivity. Qed.

Lemma parse_digits_spec negative p rest :
  safe_integer (Zpos p) = true -> number_ends rest = true ->
  rbind (parse_int (NilZero.string_of_uint (N.to_uint (Npos p)) ++ rest)) (fun i =>
  rbind (parse_fraction (snd i)) (fun f =>
  rbind (parse_exponent (snd f)) (fun e =>
    Ok (Number.of_decimal negative (digits_value (fst i ++ fst f))
          (fst e - Z.of_nat (String.length (fst f))),
        snd e))))
  = Ok (VNum (Number.signed negative (Zpos p)), rest).
Proof.
  intros Hs Hr. rewrite parse_int_pos by assumption. cbn [rbind fst snd].
  rewrite parse_fraction_none by assumption. cbn [rbind fst snd].
  rewrite parse_exponent_none by assumption. cbn [rbind fst snd].
  rewrite digits_value_pos. cbn [String.length Z.of_nat Z.sub Z.opp Z.add].
  rewrite of_decimal_integer by assumption. reflexivity.
Qed.

Lemma parse_number_spec z rest :
  safe_integer z = true -> number_ends rest = true ->
  parse_number (number_to_string z ++ rest) = Ok (VNum z, rest).
Proof.
  intros Hs Hr. destruct z as [|p|p]; cbn [number_to_string].
  - unfold parse_number. cbn [append]. unfold parse_int. cbn [span_digits].
    change (is_digit "0") with true. cbv beta iota.
    assert (Hsp : span_digits rest = (EmptyString, rest)).
    { pose proof (number_ends_digit rest Hr) as Hd.
      destruct rest; auto. cbn [span_digits]. rewrite Hd. reflexivity. }
    rewrite Hsp. cbn [fst snd rbind]. change (Ascii.eqb "0" "0") with true.
    cbn [String.eqb negb andb rbind fst snd].
    rewrite parse_fraction_none by assumption. cbn [rbind fst snd].
    rewrite parse_exponent_none by assumption. reflexivity.
  - rewrite Hs. unfold parse_number.
    pose proof (parse_digits_spec false p rest Hs Hr) as Hp.
    destruct (to_uint_head p) as (c & ds & E & Hd & H0).
    change (N.to_uint (N.pos p)) with (Pos.to_uint p) in *.
    rewrite string_of_pos in *. rewrite E in *. cbn [append] in *. clear E H0.
    destruct c as [[|] [|] [|] [|] [|] [|] [|] [|]];
      try (vm_compute in Hd; discriminate Hd);
      cbv beta iota; exact Hp.
  - assert (Hs' : safe_integer (Zpos p) = true).
    { unfold safe_integer in *. apply andb_prop in Hs as [H1 H2].
      apply Z.leb_le in H1, H2. apply andb_true_intro. split; apply Z.leb_le; lia. }
    rewrite Hs. unfold parse_number. cbn [append].
    exact (parse_digits_spec true p rest Hs' Hr).
Qed.

Lemma number_head z :
  safe_integer z = true ->
  exists c ds, number_to_string z = String c ds
               /\ (Ascii.eqb c "-" || is_digit c) = true.
Proof.
  intros Hs. destruct z as [|p|p]; cbn [number_to_string].
  - eexists _, _; split; reflexivity.
  - rewrite Hs. destruct (to_uint_head p) as (c & ds & E & Hd & H0).
    exists c, ds. split.
    + rewrite <- E. simpl N.to_uint. apply string_of_pos.
    + rewrite Hd. apply orb_true_r.
  - eexists _, _; split; reflexivity.
Qed.

(* --------------------------------------------------------------------- *)
(** ** JSON: white space and the first character of a value *)
(* --------------------------------------------------------------------- *)

Lemma skip_ws_app ws s : all_ws ws = true -> skip_ws (ws ++ s) = skip_ws s.
Proof.
  induction ws as [|c ws IH]; simpl; auto.
  intros H. apply andb_prop in H as [Hc Hw]. rewrite Hc. auto.
Qed.

Lemma all_ws_app a b : all_ws a = true -> all_ws b = true -> all_ws (a ++ b) = true.
Proof.
  induction a as [|c a IH]; simpl; auto.
  intros H Hb. apply andb_prop in H as [Hc Hw]. rewrite Hc. simpl. auto.
Qed.

Lemma parse_value_ws fuel ws s :
  all_ws ws = true -> parse_value fuel (ws ++ s) = parse_value fuel s.
Proof. intros H. destruct fuel; simpl; auto. rewrite skip_ws_app; auto. Qed.

Lemma parse_members_ws fuel ws s acc :
  all_ws ws = true -> parse_members fuel (ws ++ s) acc = parse_members fuel s acc.
Proof. intros H. destruct fuel; simpl; auto. rewrite skip_ws_app; auto. Qed.

Lemma serialize_arr indent items :
  serialize indent (VArr items)
  = Some (wrap "[" "]" indent (indent ++ gap) (map (elem_text (indent ++ gap)) items)).
Proof. reflexivity. Qed.

Lemma serialize_obj indent props :
  serialize indent (VObj props)
  = Some (wrap "{" "}" indent (indent ++ gap)
            (map (member_text (indent ++ gap))
                 (filter (fun kv => negb (is_undefined (snd kv))) props))).
Proof.
  simpl. f_equal. f_equal.
  induction props as [|[k v] props IH]; simpl; auto.
  rewrite IH. destruct v as [| |b|z|s|items|props'|[m e|negative]|units|props'];
    simpl; try reflexivity;
    unfold member_text, elem_text; simpl; try reflexivity.
  - destruct b; reflexivity.
Qed.

Lemma wrap_starts o c sb ind parts :
  starts_value o = true -> starts_value (wrap o c sb ind parts) = true.
Proof.
  intros H. destruct o; [discriminate|].
  unfold wrap. destruct parts; simpl in *; exact H.
Qed.

Lemma serialize_starts indent v t :
  storable v = true -> serialize indent v = Some t -> starts_value t = true.
Proof.
  destruct v as [| |b|z|s|items|props|[m e|negative]|units|props];
    cbn [serialize storable]; try discriminate.
  - intros _ [= <-]. reflexivity.
  - intros _. destruct b; intros [= <-]; reflexivity.
  - intros Hs [= <-]. destruct (number_head z Hs) as (c & ds & E & Hc). rewrite E.
    simpl. destruct c as [[|] [|] [|] [|] [|] [|] [|] [|]]; try reflexivity;
      vm_compute in Hc; discriminate.
  - intros _ [= <-]. reflexivity.
  - intros _ [= <-]. apply wrap_starts. reflexivity.
  - intros _ [= <-]. apply wrap_starts. reflexivity.
  - intros _ [= <-]. reflexivity.
  - intros _ [= <-]. reflexivity.
Qed.

Lemma elem_text_starts indent x :
  storable x = true -> starts_value (elem_text indent x) = true.
Proof.
  intros Hs. unfold elem_text. destruct (serialize indent x) eqn:E.
  - eapply serialize_starts; eauto.
  - reflexivity.
Qed.

Lemma skip_ws_starts t rest :
  starts_value t = true -> skip_ws (t ++ rest) = t ++ rest.
Proof.
  destruct t as [|c t]; simpl; try discriminate.
  intros H. destruct (is_ws c); simpl in *; auto. discriminate.
Qed.

(* --------------------------------------------------------------------- *)
(** ** JSON: the dispatch of [parse_value] *)
(* --------------------------------------------------------------------- *)

Ltac ascii_cases c := destruct c as [[|] [|] [|] [|] [|] [|] [|] [|]].

Lemma prefix_append lit rest : String.prefix lit (lit ++ rest) = true.
Proof.
  induction lit as [|c lit IH]; simpl.
  - destruct rest; reflexivity.
  - destruct (ascii_dec c c); [assumption | congruence].
Qed.

Lemma substring_append lit rest n :
  n = String.length rest -> substring (String.length lit) n (lit ++ rest) = rest.
Proof.
  intros ->. induction lit as [|c lit IH]; simpl; auto using substring_all.
Qed.

Lemma parse_literal_spec lit v rest :
  parse_literal lit v (lit ++ rest) = Ok (v, rest).
Proof.
  unfold parse_literal. rewrite prefix_append, substring_append; auto.
  rewrite length_append. lia.
Qed.

Lemma parse_value_array n r :
  starts_value (skip_ws r) = true ->
  parse_value (S n) (String "[" r) = parse_elements n r [].
Proof.
  intros H. cbn [parse_value]. 
  change (skip_ws (String "[" r)) with (String "[" r). cbv beta iota.
  change (Ascii.eqb "[" "{") with false. change (Ascii.eqb "[" "[") with true.
  cbv beta iota.
  destruct (skip_ws r) as [|c s]; [discriminate|].
  ascii_cases c; try reflexivity; discriminate.
Qed.

Lemma parse_value_object n r :
  starts_value (skip_ws r) = true ->
  parse_value (S n) (String "{" r) = parse_members n r [].
Proof.
  intros H. cbn [parse_value]. 
  change (skip_ws (String "{" r)) with (String "{" r). cbv beta iota.
  change (Ascii.eqb "{" "{") with true.
  cbv beta iota.
  destruct (skip_ws r) as [|c s]; [discriminate|].
  ascii_cases c; try reflexivity; discriminate.
Qed.

Lemma parse_value_number n c r :
  (Ascii.eqb c "-" || is_digit c) = true ->
  parse_value (S n) (String c r) = parse_number (String c r).
Proof.
  intros H. ascii_cases c; try reflexivity; vm_compute in H; discriminate.
Qed.

Lemma parse_value_string n r :
  parse_value (S n) (String dquote r)
  = rbind (parse_chars r) (fun p => Ok (string_value (fst p), snd p)).
Proof. reflexivity. Qed.

Lemma parse_value_null n rest : parse_value (S n) ("null" ++ rest) = Ok (VNull, rest).
Proof. exact (parse_literal_spec "null" VNull rest). Qed.

Lemma parse_value_true n rest : parse_value (S n) ("true" ++ rest) = Ok (VBool true, rest).
Proof. exact (parse_literal_spec "true" (VBool true) rest). Qed.

Lemma parse_value_false n rest : parse_value (S n) ("false" ++ rest) = Ok (VBool false, rest).
Proof. exact (parse_literal_spec "false" (VBool false) rest). Qed.

(* --------------------------------------------------------------------- *)
(** ** JSON: arrays *)
(* --------------------------------------------------------------------- *)

Lemma serialize_none indent x : serialize indent x = None -> x = VUndefined.
Proof.
  destruct x as [| |b|z|s|items|props|[m e|negative]|units|props];
    simpl; try discriminate; auto. destruct b; discriminate.
Qed.

Lemma elem_round_trips x :
  round_trips x ->
  forall indent rest fuel,
    all_ws indent = true -> storable x = true -> number_ends rest = true ->
    String.length (elem_text indent x) < fuel ->
    parse_value fuel (elem_text indent x ++ rest) = Ok (norm_elem x, rest).
Proof.
  intros Hx indent rest fuel Hi Hk Hr Hf. unfold elem_text in *.
  destruct (serialize indent x) as [t|] eqn:E.
  - rewrite (Hx indent t rest fuel) by auto. unfold norm_elem.
    destruct x; simpl in *; try reflexivity. discriminate.
  - apply serialize_none in E. subst x. destruct fuel; [simpl in Hf; lia|].
    apply parse_value_null.
Qed.

Lemma concat_cons2 sep x y l :
  String.concat sep (x :: y :: l) = x ++ sep ++ String.concat sep (y :: l).
Proof. reflexivity. Qed.

Lemma number_ends_nl r : number_ends (nl ++ r) = true.
Proof. reflexivity. Qed.

Lemma number_ends_comma r : number_ends (String "," r) = true.
Proof. reflexivity. Qed.

Lemma all_ws_nl : all_ws nl = true.
Proof. reflexivity. Qed.

Lemma length_nl : String.length nl = 1.
Proof. reflexivity. Qed.

Lemma parse_elements_spec ind' stepback items :
  Forall round_trips items ->
  all_ws ind' = true -> all_ws stepback = true ->
  forallb storable items = true ->
  items <> [] ->
  forall acc ws fuel rest,
    all_ws ws = true ->
    String.length (ws ++ String.concat ("," ++ nl ++ ind') (map (elem_text ind') items)
                      ++ nl ++ stepback ++ "]") <= fuel ->
    parse_elements fuel
      (ws ++ String.concat ("," ++ nl ++ ind') (map (elem_text ind') items)
          ++ nl ++ stepback ++ "]" ++ rest) acc
    = Ok (VArr (acc ++ map norm_elem items), rest).
Proof.
  intros HP Hind Hsb.
  induction items as [|x items IH]; intros Hk Hne acc ws fuel rest Hws Hfuel; [congruence|].
  inversion HP as [|? ? Px Pitems]; subst.
  simpl in Hk. apply andb_prop in Hk as [Hkx Hkitems].
  destruct fuel as [|n].
  { rewrite !length_append in Hfuel. simpl in Hfuel. lia. }
  cbn [parse_elements]. rewrite parse_value_ws by assumption.
  destruct items as [|y items'].
  - cbn [map String.concat] in *.
    rewrite (elem_round_trips x Px ind' _ n Hind Hkx (number_ends_nl _)).
    2:{ rewrite !length_append in Hfuel. simpl in Hfuel. lia. }
    cbn [rbind fst snd].
    rewrite <- (append_assoc nl stepback), skip_ws_app
      by (apply all_ws_app; auto using all_ws_nl).
    reflexivity.
  - assert (Hy : y :: items' <> []) by discriminate.
    specialize (IH Pitems Hkitems Hy (acc ++ [norm_elem x])%list (nl ++ ind') n rest).
    cbn [map] in Hfuel |- *. rewrite concat_cons2 in Hfuel |- *.
    rewrite !append_assoc in Hfuel |- *.
    change ("," ++ ?r) with (String "," r) in Hfuel |- *.
    rewrite (elem_round_trips x Px ind' _ n Hind Hkx (number_ends_comma _)).
    2:{ rewrite !length_append in Hfuel. simpl in Hfuel. lia. }
    cbn [rbind fst snd skip_ws]. change (is_ws ",") with false. cbv beta iota.
    rewrite <- (append_assoc nl ind').
    cbn [map] in IH. rewrite IH.
    + rewrite <- app_assoc. reflexivity.
    + apply all_ws_app; auto using all_ws_nl.
    + clear IH. cbn [map] in *. rewrite !length_append in *. cbn [String.length] in *.
      rewrite !length_append in *. rewrite ?length_nl in *.
      change (String.length "]") with 1 in *. lia.
Qed.

(* --------------------------------------------------------------------- *)
(** ** JSON: objects *)
(* --------------------------------------------------------------------- *)

Lemma set_prop_fresh {A} k (a : A) acc :
  assoc k acc = None -> set_prop k a acc = (acc ++ [(k, a)])%list.
Proof.
  induction acc as [|[k' a'] acc IH]; simpl; auto.
  destruct (String.eqb k k'); [discriminate|]. intros H. rewrite IH; auto.
Qed.

Lemma assoc_app_none {A} k (l1 l2 : list (string * A)) :
  assoc k l1 = None -> assoc k l2 = None -> assoc k (l1 ++ l2)%list = None.
Proof.
  induction l1 as [|[k' a'] l1 IH]; simpl; auto.
  destruct (String.eqb k k'); [discriminate|]. auto.
Qed.

Lemma narrow_wide_props l : narrow_props (wide_props l) = Some l.
Proof.
  induction l as [|[k v] l IH]; [reflexivity|].
  cbn [wide_props map narrow_props fst snd]. fold (wide_props l).
  rewrite narrow_units_of, IH. reflexivity.
Qed.

Lemma object_of_wide_props l : object_of (wide_props l) = VObj l.
Proof. unfold object_of. rewrite narrow_wide_props. reflexivity. Qed.

Lemma wide_props_app l1 l2 : wide_props (l1 ++ l2) = (wide_props l1 ++ wide_props l2)%list.
Proof. apply map_app. Qed.

Lemma set_units_fresh k v acc :
  assoc k acc = None ->
  set_units (units_of k) v (wide_props acc) = wide_props (acc ++ [(k, v)]).
Proof.
  induction acc as [|[k' v'] acc IH]; cbn [assoc]; [reflexivity|].
  cbn [wide_props map set_units fst snd app]. rewrite units_eqb_units_of.
  destruct (String.eqb k k'); [discriminate|]. intros H.
  fold (wide_props acc). rewrite (IH H). reflexivity.
Qed.

Lemma insert_index_last i k v acc :
  array_index (units_of k) = Some i ->
  forallb (fun kv => precedes (units_of (fst kv)) (units_of k)) acc = true ->
  insert_index i (units_of k) v (wide_props acc) = wide_props (acc ++ [(k, v)]).
Proof.
  intros Hk. induction acc as [|[k' v'] acc IH]; cbn [forallb]; [reflexivity|].
  intros H. apply andb_prop in H as [Hp H]. cbn [fst] in Hp.
  cbn [wide_props map insert_index fst snd app]. fold (wide_props acc).
  unfold precedes in Hp. rewrite Hk in Hp.
  destruct (array_index (units_of k')) as [j|]; [|discriminate].
  apply N.ltb_lt in Hp.
  destruct (i <? j)%N eqn:E1; [apply N.ltb_lt in E1; lia|].
  destruct (i =? j)%N eqn:E2; [apply N.eqb_eq in E2; lia|].
  rewrite (IH H). reflexivity.
Qed.

Lemma define_prop_last k v acc :
  assoc k acc = None ->
  forallb (fun kv => precedes (units_of (fst kv)) (units_of k)) acc = true ->
  define_prop (units_of k) v (wide_props acc) = wide_props (acc ++ [(k, v)]).
Proof.
  intros Hfresh Hp. unfold define_prop.
  destruct (array_index (units_of k)) as [i|] eqn:E.
  - apply insert_index_last; assumption.
  - apply set_units_fresh; assumption.
Qed.

Lemma forallb_map {A B} (f : A -> B) (p : B -> bool) l :
  forallb p (map f l) = forallb (fun a => p (f a)) l.
Proof. induction l as [|a l IH]; cbn; congruence. Qed.

Lemma ordered_app_precedes l1 k l2 :
  ordered (l1 ++ k :: l2) = true -> forallb (fun k' => precedes k' k) l1 = true.
Proof.
  induction l1 as [|a l1 IH]; cbn [app ordered forallb]; [reflexivity|].
  intros H. apply andb_prop in H as [Ha H]. rewrite forallb_app in Ha.
  apply andb_prop in Ha as [_ Ha]. cbn [forallb] in Ha. apply andb_prop in Ha as [Ha _].
  rewrite Ha, (IH H). reflexivity.
Qed.

Lemma keys_ordered_precedes acc k v l :
  keys_ordered (acc ++ (k, v) :: l) = true ->
  forallb (fun kv => precedes (units_of (fst kv)) (units_of k)) acc = true.
Proof.
  unfold keys_ordered. rewrite map_app. cbn [map fst]. intros H.
  apply ordered_app_precedes in H. rewrite forallb_map in H. exact H.
Qed.

Lemma member_text_app ind' kv X :
  member_text ind' kv ++ X
  = String dquote (escape (fst kv) ++
      String dquote (String ":" (String " " (elem_text ind' (snd kv) ++ X)))).
Proof.
  unfold member_text, quote. cbn [append]. rewrite !append_assoc. reflexivity.
Qed.

Lemma parse_members_step n k r acc :
  parse_members (S n) (String dquote (escape k ++ String dquote (String ":" r))) acc
  = rbind (parse_value n r) (fun p =>
      match skip_ws (snd p) with
      | String "," r2 => parse_members n r2 (define_prop (units_of k) (fst p) acc)
      | String "}" r2 => Ok (object_of (define_prop (units_of k) (fst p) acc), r2)
      | String c2 _ => Throw (unexpected c2)
      | EmptyString => Throw unexpected_end
      end).
Proof.
  cbn [parse_members].
  change (skip_ws (String dquote ?r)) with (String dquote r). cbv beta iota.
  change (Ascii.eqb dquote dquote) with true. cbv beta iota.
  rewrite parse_chars_escape. reflexivity.
Qed.

Lemma parse_value_space n s : parse_value n (String " " s) = parse_value n s.
Proof. destruct n; reflexivity. Qed.

Ltac lens :=
  repeat first [ rewrite length_append in * | progress cbn [String.length] in * ];
  rewrite ?length_nl in *.

Lemma existsb_eqb_false k l :
  existsb (String.eqb k) l = false -> forall k', In k' l -> String.eqb k' k = false.
Proof.
  induction l as [|x l IH]; simpl; [tauto|].
  intros H k' [<-|Hin].
  - apply orb_false_elim in H as [H _]. rewrite String.eqb_sym. exact H.
  - apply orb_false_elim in H as [_ H]. auto.
Qed.

Lemma parse_members_spec ind' stepback l :
  Forall (fun kv => round_trips (snd kv)) l ->
  all_ws ind' = true -> all_ws stepback = true ->
  forallb (fun kv => storable (snd kv)) l = true ->
  forallb (fun kv => negb (is_undefined (snd kv))) l = true ->
  distinct (map fst l) = true ->
  l <> [] ->
  forall acc ws fuel rest,
    all_ws ws = true ->
    (forall k, In k (map fst l) -> assoc k acc = None) ->
    keys_ordered (acc ++ l) = true ->
    String.length (ws ++ String.concat ("," ++ nl ++ ind') (map (member_text ind') l)
                      ++ nl ++ stepback ++ "}") <= fuel ->
    parse_members fuel
      (ws ++ String.concat ("," ++ nl ++ ind') (map (member_text ind') l)
          ++ nl ++ stepback ++ "}" ++ rest) (wide_props acc)
    = Ok (VObj (acc ++ map norm_member l), rest).
Proof.
  intros HP Hind Hsb.
  induction l as [|[k v] l IH];
    intros Hk Hdef Hd Hne acc ws fuel rest Hws Hfresh Hord Hfuel; [congruence|].
  inversion HP as [|? ? Pv Pl]; subst. cbn [snd] in Pv.
  cbn [forallb snd] in Hk, Hdef. apply andb_prop in Hk as [Hkv Hkl].
  apply andb_prop in Hdef as [Hv Hdefl].
  cbn [map fst distinct] in Hd. apply andb_prop in Hd as [Hkfresh Hdl].
  apply negb_true_iff in Hkfresh.
  assert (Hnorm : norm_elem v = normalize v).
  { unfold norm_elem. destruct (is_undefined v); [discriminate|reflexivity]. }
  assert (Hacc : define_prop (units_of k) (normalize v) (wide_props acc)
                 = wide_props (acc ++ [(k, normalize v)])).
  { apply define_prop_last; [apply Hfresh; left; reflexivity|].
    exact (keys_ordered_precedes _ _ _ _ Hord). }
  assert (Hord' : keys_ordered ((acc ++ [(k, normalize v)]) ++ l) = true).
  { rewrite <- app_assoc. cbn [app]. unfold keys_ordered in *.
    rewrite map_app in *. exact Hord. }
  destruct fuel as [|n].
  { clear - Hfuel. lens. lia. }
  rewrite parse_members_ws by assumption.
  destruct l as [|kv' l'].
  - cbn [map String.concat] in Hfuel |- *.
    rewrite member_text_app in Hfuel |- *. cbn [fst snd] in Hfuel |- *.
    rewrite parse_members_step.
    rewrite parse_value_space.
    rewrite (elem_round_trips v Pv ind' _ n Hind Hkv (number_ends_nl _)).
    2:{ clear - Hfuel. lens. lia. }
    cbn [rbind fst snd]. rewrite Hnorm, Hacc, object_of_wide_props.
    rewrite <- (append_assoc nl stepback), skip_ws_app
      by (apply all_ws_app; auto using all_ws_nl).
    reflexivity.
  - assert (Hy : kv' :: l' <> []) by discriminate.
    specialize (IH Pl Hkl Hdefl Hdl Hy (acc ++ [(k, normalize v)])%list (nl ++ ind') n rest).
    cbn [map] in Hfuel |- *. rewrite concat_cons2 in Hfuel |- *.
    rewrite !append_assoc in Hfuel |- *.
    rewrite member_text_app in Hfuel |- *. cbn [fst snd] in Hfuel |- *.
    change ("," ++ ?r) with (String "," r) in Hfuel |- *.
    rewrite parse_members_step.
    rewrite parse_value_space.
    rewrite (elem_round_trips v Pv ind' _ n Hind Hkv (number_ends_comma _)).
    2:{ clear - Hfuel. lens. lia. }
    cbn [rbind fst snd skip_ws]. change (is_ws ",") with false. cbv beta iota.
    rewrite Hnorm, Hacc.
    rewrite <- (append_assoc nl ind').
    cbn [map] in IH. rewrite IH.
    + rewrite <- app_assoc. reflexivity.
    + apply all_ws_app; auto using all_ws_nl.
    + intros k' Hin. apply assoc_app_none.
      * apply Hfresh. right. exact Hin.
      * cbn [assoc]. rewrite (existsb_eqb_false _ _ Hkfresh k' Hin). reflexivity.
    + exact Hord'.
    + clear - Hfuel. cbn [map] in *. lens. lia.
Qed.

(* --------------------------------------------------------------------- *)
(** ** JSON: parsing what [stringify] wrote *)
(* --------------------------------------------------------------------- *)

Lemma normalize_obj props :
  normalize (VObj props) = VObj (map norm_member (filter defined props)).
Proof.
  cbn [normalize]. f_equal.
  induction props as [|[k v] props IH]; cbn [flat_map filter map]; auto.
  unfold defined at 1. cbn [snd fst]. destruct (is_undefined v); cbn; rewrite IH; reflexivity.
Qed.

Lemma normalize_arr items :
  normalize (VArr items) = VArr (map norm_elem items).
Proof. reflexivity. Qed.

Lemma existsb_filter_false k (f : string * value -> bool) props :
  existsb (String.eqb k) (map fst props) = false ->
  existsb (String.eqb k) (map fst (filter f props)) = false.
Proof.
  induction props as [|kv props IH]; cbn; auto.
  intros H. apply orb_false_elim in H as [H1 H2].
  destruct (f kv); cbn; rewrite ?H1; auto.
Qed.

Lemma distinct_filter (f : string * value -> bool) props :
  distinct (map fst props) = true -> distinct (map fst (filter f props)) = true.
Proof.
  induction props as [|kv props IH]; cbn; auto.
  intros H. apply andb_prop in H as [H1 H2].
  destruct (f kv); cbn; auto.
  apply negb_true_iff in H1. rewrite existsb_filter_false by assumption. cbn. auto.
Qed.

Lemma forallb_filter {A} (p f : A -> bool) l :
  forallb p l = true -> forallb p (filter f l) = true.
Proof.
  induction l as [|a l IH]; cbn; auto.
  intros H. apply andb_prop in H as [H1 H2].
  destruct (f a); cbn; rewrite ?H1; auto.
Qed.

Lemma keys_ordered_filter (f : string * value -> bool) props :
  keys_ordered props = true -> keys_ordered (filter f props) = true.
Proof.
  unfold keys_ordered.
  induction props as [|kv props IH]; cbn [filter map ordered]; auto.
  intros H. apply andb_prop in H as [H1 H2].
  destruct (f kv); cbn [map ordered]; auto.
  rewrite (IH H2), andb_true_r.
  rewrite forallb_map in *. apply forallb_filter. exact H1.
Qed.

Lemma Forall_filter {A} (P : A -> Prop) f l : Forall P l -> Forall P (filter f l).
Proof.
  induction 1; cbn; auto. destruct (f x); auto.
Qed.

Lemma forallb_filter_self {A} (f : A -> bool) l : forallb f (filter f l) = true.
Proof.
  induction l as [|a l IH]; cbn; auto.
  destruct (f a) eqn:E; cbn; rewrite ?E; auto.
Qed.

Lemma all_ws_gap indent : all_ws indent = true -> all_ws (indent ++ gap) = true.
Proof. intros. apply all_ws_app; auto. Qed.

Lemma storable_obj props :
  storable (VObj props) = true ->
  distinct (map fst props) = true /\ keys_ordered props = true
  /\ forallb (fun kv => storable (snd kv)) props = true.
Proof.
  cbn [storable]. intros H. apply andb_prop in H as [H H3].
  apply andb_prop in H as [H1 H2]. auto.
Qed.

Lemma serialize_round_trips v : round_trips v.
Proof.
  induction v as [| |b|z|s|items IH|props IH|x|units|props IH] using value_ind';
    intros indent t rest fuel Hind Hk Hs Hr Hf.
  - discriminate.
  - injection Hs as <-. destruct fuel; [cbn in Hf; lia|]. apply parse_value_null.
  - destruct fuel; [cbn in Hf; lia|].
    destruct b; injection Hs as <-; [apply parse_value_true | apply parse_value_false].
  - injection Hs as <-. destruct fuel; [cbn in Hf; lia|]. cbn [storable] in Hk.
    destruct (number_head z Hk) as (c & ds & E & Hc).
    rewrite E. cbn [append]. rewrite parse_value_number by assumption.
    change (String c (ds ++ rest)) with (String c ds ++ rest). rewrite <- E.
    apply parse_number_spec; assumption.
  - injection Hs as <-. destruct fuel; [cbn in Hf; lia|].
    unfold quote. cbn [append]. rewrite parse_value_string.
    rewrite append_assoc. cbn [append]. rewrite parse_chars_escape.
    cbn [rbind fst snd]. rewrite string_value_units_of. reflexivity.
  - rewrite serialize_arr in Hs. injection Hs as <-.
    rewrite normalize_arr. cbn [storable] in Hk.
    destruct fuel as [|n]; [cbn in Hf; lia|].
    destruct items as [|x items].
    + reflexivity.
    + unfold wrap in Hf |- *. cbn [map] in Hf |- *.
      set (ind' := indent ++ gap) in *.
      set (parts := elem_text ind' x :: map (elem_text ind') items) in *.
      rewrite !append_assoc. cbn [append].
      assert (Hx : storable x = true).
      { cbn [forallb] in Hk. apply andb_prop in Hk as [Hk _]. exact Hk. }
      rewrite parse_value_array.
      2:{ rewrite <- (append_assoc nl ind'), skip_ws_app
            by (apply all_ws_app; [reflexivity | apply all_ws_gap; assumption]).
          subst parts. destruct items; [cbn [map String.concat]|cbn [map]; rewrite concat_cons2];
            rewrite ?append_assoc; rewrite skip_ws_starts by (apply elem_text_starts; exact Hx);
            pose proof (elem_text_starts ind' x Hx) as Hst;
            destruct (elem_text ind' x); [discriminate| exact Hst | discriminate | exact Hst]. }
      rewrite <- (append_assoc nl ind').
      pose proof (parse_elements_spec ind' indent (x :: items) IH
                    (all_ws_gap _ Hind) Hind Hk ltac:(discriminate) [] (nl ++ ind') n rest) as Hp.
      cbn [map] in Hp. fold parts in Hp. cbn [app] in Hp. apply Hp.
      * apply all_ws_app; [reflexivity | apply all_ws_gap; assumption].
      * clear - Hf. lens. lia.
  - rewrite serialize_obj in Hs. injection Hs as <-.
    rewrite normalize_obj. apply storable_obj in Hk as (Hd & Ho & Hk).
    destruct fuel as [|n]; [cbn in Hf; lia|].
    fold defined in Hf |- *.
    pose proof (Forall_filter _ defined _ IH) as IH'.
    pose proof (forallb_filter _ defined _ Hk) as Hk'.
    pose proof (distinct_filter defined _ Hd) as Hd'.
    pose proof (keys_ordered_filter defined _ Ho) as Ho'.
    pose proof (forallb_filter_self defined props) as Hdef.
    destruct (filter defined props) as [|kv l] eqn:El.
    + reflexivity.
    + unfold wrap in Hf |- *. cbn [map] in Hf |- *.
      set (ind' := indent ++ gap) in *.
      set (parts := member_text ind' kv :: map (member_text ind') l) in *.
      rewrite !append_assoc. cbn [append].
      rewrite parse_value_object.
      2:{ rewrite <- (append_assoc nl ind'), skip_ws_app
            by (apply all_ws_app; [reflexivity | apply all_ws_gap; assumption]).
          subst parts. destruct l; [cbn [map String.concat]|cbn [map]; rewrite concat_cons2];
            rewrite ?append_assoc; rewrite member_text_app; reflexivity. }
      rewrite <- (append_assoc nl ind').
      pose proof (parse_members_spec ind' indent (kv :: l) IH'
                    (all_ws_gap _ Hind) Hind Hk' Hdef Hd' ltac:(discriminate)
                    [] (nl ++ ind') n rest) as Hp.
      cbn [map] in Hp. fold parts in Hp. cbn [app] in Hp. apply Hp.
      * apply all_ws_app; [reflexivity | apply all_ws_gap; assumption].
      * intros; reflexivity.
      * exact Ho'.
      * clear - Hf. lens. lia.
  - destruct x as [m e|negative]; [discriminate|].
    injection Hs as <-. destruct fuel; [cbn in Hf; lia|]. apply parse_value_null.
  - injection Hs as <-. destruct fuel; [cbn in Hf; lia|]. cbn [storable] in Hk.
    unfold quote_units. cbn [append]. rewrite parse_value_string.
    rewrite append_assoc. cbn [append]. rewrite parse_chars_units.
    + cbn [rbind fst snd]. rewrite string_value_wide by assumption. reflexivity.
    + unfold proper_wide in Hk. apply andb_prop in Hk as [Hk _]. exact Hk.
  - discriminate.
Qed.

Lemma parse_text_stringify v t :
  storable v = true -> stringify v = Some t -> parse_text t = Ok (normalize v).
Proof.
  intros Hk Hs. unfold parse_text.
  rewrite <- (append_nil_r t) at 2.
  rewrite (serialize_round_trips v "" t "" (2 * String.length t + 2)); auto.
  lia.
Qed.

Lemma parse_stringify v t :
  storable v = true -> stringify v = Some t -> parse t = Ok (normalize v).
Proof.
  intros Hk Hs. unfold parse. rewrite (parse_text_stringify v t Hk Hs). reflexivity.
Qed.

Lemma representable_spec v :
  representable v = true ->
  storable v = true /\ normalize v = v /\ is_undefined v = false.
Proof.
  induction v as [| |b|z|s|items IH|props IH|x|units|props IH] using value_ind';
    intros Hr; try discriminate; try (repeat split; reflexivity).
  - repeat split; auto.
  - cbn [representable] in Hr. repeat split; auto.
    + cbn [storable]. apply forallb_forall. intros x Hx.
      rewrite Forall_forall in IH. apply IH; auto.
      rewrite forallb_forall in Hr. auto.
    + rewrite normalize_arr. f_equal.
      rewrite <- (map_id items) at 2. apply map_ext_in. intros x Hx.
      rewrite Forall_forall in IH. rewrite forallb_forall in Hr.
      destruct (IH x Hx (Hr x Hx)) as (_ & Hn & Hu). unfold norm_elem. rewrite Hu. exact Hn.
  - cbn [representable] in Hr. apply andb_prop in Hr as [Hd Hr].
    apply andb_prop in Hd as [Hd Ho].
    rewrite Forall_forall in IH. rewrite forallb_forall in Hr.
    repeat split; auto.
    + cbn [storable]. rewrite Hd, Ho. cbn. apply forallb_forall. intros x Hx.
      apply IH; auto.
    + rewrite normalize_obj.
      assert (Hf : filter defined props = props).
      { apply forallb_filter_id. apply forallb_forall. intros x Hx.
        unfold defined. destruct (IH x Hx (Hr x Hx)) as (_ & _ & ->). reflexivity. }
      rewrite Hf. f_equal. rewrite <- (map_id props) at 2. apply map_ext_in.
      intros [k x] Hx. unfold norm_member. cbn [fst snd]. f_equal.
      apply (IH (k, x) Hx (Hr _ Hx)).
  - repeat split; auto.
Qed.

Lemma serialize_defined indent v :
  is_undefined v = false -> exists t, JSON.serialize indent v = Some t.
Proof.
  destruct v as [| |b|z|s|items|props|[m e|negative]|units|props];
    cbn; try discriminate; eauto. destruct b; eauto.
Qed.

Lemma parse_stringify_representable v :
  representable v = true ->
  exists t, JSON.stringify v = Some t /\ JSON.parse t = Ok v.
Proof.
  intros Hr. destruct (representable_spec v Hr) as (Hk & Hn & Hu).
  destruct (serialize_defined "" v Hu) as [t Ht]. exists t. split; [exact Ht|].
  rewrite (parse_stringify v t Hk Ht), Hn. reflexivity.
Qed.

(* --------------------------------------------------------------------- *)
(** ** Running a computation *)
(* --------------------------------------------------------------------- *)

Lemma assoc_set_prop_eq {A} k (a : A) l : assoc k (set_prop k a l) = Some a.
Proof.
  induction l as [|[k' a'] l IH]; cbn.
  - rewrite String.eqb_refl. reflexivity.
  - destruct (String.eqb k k') eqn:E; cbn; rewrite E; auto.
Qed.

Lemma existsb_app_last p l q :
  existsb (String.eqb p) (l ++ [q]) = existsb (String.eqb p) l || String.eqb p q.
Proof. rewrite existsb_app. cbn. rewrite orb_false_r. reflexivity. Qed.

Lemma bind_ok {A B} (c : M A) (k : A -> M B) w a w' :
  c w = (Ok a, w') -> bind c k w = k a w'.
Proof. unfold bind. intros ->. reflexivity. Qed.

Lemma bind_throw {A B} (c : M A) (k : A -> M B) w e w' :
  c w = (Throw e, w') -> bind c k w = (Throw e, w').
Proof. unfold bind. intros ->. reflexivity. Qed.

Lemma try_ok {A} (c : M A) h w a w' :
  c w = (Ok a, w') -> try_catch c h w = (Ok a, w').
Proof. unfold try_catch. intros ->. reflexivity. Qed.

Lemma try_throw {A} (c : M A) h w e w' :
  c w = (Throw e, w') -> try_catch c h w = h e w'.
Proof. unfold try_catch. intros ->. reflexivity. Qed.

(* --------------------------------------------------------------------- *)
(** ** Writing a record and reading it back *)
(* --------------------------------------------------------------------- *)

Lemma existsSync_run p w :
  fs.existsSync p w = (Ok (is_file (disk w) p || is_dir (disk w) p), w).
Proof. reflexivity. Qed.

Lemma mkdirSync_run p w :
  is_file (disk w) p = false -> is_dir (disk w) p = false ->
  fs.mkdirSync p w = (Ok tt, with_disk w (mkDisk (files (disk w)) (dirs (disk w) ++ [p]))).
Proof. unfold fs.mkdirSync, bind, get_disk. intros -> ->. reflexivity. Qed.

Lemma writeFileSync_run p content w :
  is_dir (disk w) p = false -> is_dir (disk w) (path_dirname p) = true ->
  fs.writeFileSync p content w
  = (Ok tt, with_disk w (mkDisk (set_prop p content (files (disk w))) (dirs (disk w)))).
Proof. unfold fs.writeFileSync, bind, get_disk. intros -> ->. reflexivity. Qed.

Lemma readFileSync_run p content w :
  assoc p (files (disk w)) = Some content -> fs.readFileSync p w = (Ok content, w).
Proof. unfold fs.readFileSync, bind, get_disk. intros ->. reflexivity. Qed.

Lemma ensureDir_run dir w :
  is_file (disk w) dir = false ->
  exists d', fileUtils.ensureDir dir w = (Ok tt, with_disk w d')
             /\ files d' = files (disk w)
             /\ is_dir d' dir = true
             /\ (forall p, p <> dir -> is_dir d' p = is_dir (disk w) p).
Proof.
  intros Hf. unfold fileUtils.ensureDir.
  erewrite bind_ok by apply existsSync_run. rewrite Hf. cbn [orb].
  destruct (is_dir (disk w) dir) eqn:Hd; cbn [negb].
  - exists (disk w). repeat split; auto. destruct w; reflexivity.
  - rewrite mkdirSync_run by assumption. eexists. split; [reflexivity|].
    cbn [files]. repeat split.
    + unfold is_dir. cbn [dirs]. rewrite existsb_app_last, String.eqb_refl. apply orb_true_r.
    + intros p Hp. unfold is_dir. cbn [dirs]. rewrite existsb_app_last.
      apply String.eqb_neq in Hp. rewrite Hp. apply orb_false_r.
Qed.

Lemma loadJson_run p content w :
  assoc p (files (disk w)) = Some content ->
  fileUtils.loadJson p w = (JSON.parse content, w).
Proof.
  intros Ha. unfold fileUtils.loadJson.
  erewrite bind_ok by apply existsSync_run.
  unfold is_file. rewrite Ha. cbn [orb negb].
  erewrite bind_ok by (apply readFileSync_run; eassumption). reflexivity.
Qed.


(* --------------------------------------------------------------------- *)
(** ** Looking a record up by its mint address *)
(* --------------------------------------------------------------------- *)

Lemma tell_nil w : tell w [] = w.
Proof. destruct w. unfold tell. cbn. rewrite app_nil_r. reflexivity. Qed.

(** Reading never changes the world. *)
Lemma readFileSync_reads p w : exists r, fs.readFileSync p w = (r, w).
Proof.
  unfold fs.readFileSync, bind, get_disk.
  destruct (assoc p (files (disk w))); [|destruct (is_dir (disk w) p)]; eexists; reflexivity.
Qed.

Lemma loadJson_reads p w : exists r, fileUtils.loadJson p w = (r, w).
Proof.
  unfold fileUtils.loadJson. erewrite bind_ok by apply existsSync_run.
  destruct (negb _); [eexists; reflexivity|].
  destruct (readFileSync_reads p w) as [[c|e] Hr].
  - erewrite bind_ok by exact Hr. eexists; reflexivity.
  - erewrite bind_throw by exact Hr. eexists; reflexivity.
Qed.

Lemma readdirSync_reads p w : exists r, fs.readdirSync p w = (r, w).
Proof.
  unfold fs.readdirSync, bind, get_disk.
  destruct (is_dir (disk w) p); [|destruct (is_file (disk w) p)]; eexists; reflexivity.
Qed.

Lemma listFiles_reads dir ext w : exists r, fileUtils.listFiles dir ext w = (r, w).
Proof.
  unfold fileUtils.listFiles. erewrite bind_ok by apply existsSync_run.
  destruct (negb _); [eexists; reflexivity|].
  destruct (readdirSync_reads dir w) as [[c|e] Hr].
  - erewrite bind_ok by exact Hr. eexists; reflexivity.
  - erewrite bind_throw by exact Hr. eexists; reflexivity.
Qed.

Lemma hasMintAddress_reads tokenAddress file w :
  exists b, hasMintAddress tokenAddress file w = (Ok b, w).
Proof.
  unfold hasMintAddress.
  destruct (loadJson_reads file w) as [[data|e] Hr].
  - destruct (get_prop data "mintAddress") as [m|e] eqn:Hg.
    + erewrite try_ok; [eexists; reflexivity|].
      erewrite bind_ok by exact Hr. unfold lift. erewrite bind_ok by (rewrite Hg; reflexivity).
      reflexivity.
    + erewrite try_throw; [eexists; reflexivity|].
      erewrite bind_ok by exact Hr. unfold lift. erewrite bind_throw by (rewrite Hg; reflexivity).
      reflexivity.
  - erewrite try_throw; [eexists; reflexivity|].
    erewrite bind_throw by exact Hr. reflexivity.
Qed.

Lemma find_file_none tokenAddress l w :
  (forall file, In file l -> fst (hasMintAddress tokenAddress file w) = Ok false) ->
  find_file (hasMintAddress tokenAddress) l w = (Ok None, w).
Proof.
  induction l as [|file l IH]; intros Hall; cbn [find_file]; [reflexivity|].
  destruct (hasMintAddress_reads tokenAddress file w) as [b Hb].
  pose proof (Hall file (or_introl eq_refl)) as Hf. rewrite Hb in Hf. cbn in Hf.
  injection Hf as ->. erewrite bind_ok by exact Hb.
  apply IH. intros f Hin. apply Hall. right. exact Hin.
Qed.

Lemma listFiles_paths dirPath extension w l :
  fileUtils.listFiles dirPath extension w = (Ok l, w) -> extension <> "" ->
  forall file, In file l ->
    exists name, file = path_join dirPath name /\ endsWith name extension = true.
Proof.
  unfold fileUtils.listFiles. erewrite bind_ok by apply existsSync_run.
  intros Hl Hext file Hin. apply String.eqb_neq in Hext.
  destruct (negb _).
  - injection Hl as <-. destruct Hin.
  - destruct (readdirSync_reads dirPath w) as [[names|e] Hr].
    + erewrite bind_ok in Hl by exact Hr. injection Hl as <-.
      apply in_map_iff in Hin as (name & <- & Hn). apply filter_In in Hn as [_ Hn].
      exists name. split; [reflexivity|]. rewrite Hext in Hn. exact Hn.
    + erewrite bind_throw in Hl by exact Hr. discriminate.
Qed.

Lemma loadJson_no_file p w :
  assoc p (files (disk w)) = None -> exists e, fileUtils.loadJson p w = (Throw e, w).
Proof.
  intros Ha. unfold fileUtils.loadJson. erewrite bind_ok by apply existsSync_run.
  destruct (is_file (disk w) p || is_dir (disk w) p); cbn [negb].
  - unfold fs.readFileSync, bind, get_disk. rewrite Ha.
    destruct (is_dir (disk w) p); eexists; reflexivity.
  - eexists. reflexivity.
Qed.

(** A file that holds no record of the mint address does not match. *)
Lemma hasMintAddress_false tokenAddress file w :
  ~ holds_record_of (disk w) tokenAddress file ->
  hasMintAddress tokenAddress file w = (Ok false, w).
Proof.
  intros Hno. unfold hasMintAddress.
  destruct (assoc file (files (disk w))) as [content|] eqn:Hc.
  - pose proof (loadJson_run file content w Hc) as Hl.
    destruct (JSON.parse content) as [data|e] eqn:Hp.
    + destruct (get_prop data "mintAddress") as [m|e] eqn:Hg.
      * erewrite try_ok.
        2:{ erewrite bind_ok by exact Hl. unfold lift.
            erewrite bind_ok by (rewrite Hg; reflexivity). reflexivity. }
        destruct (strict_eq m tokenAddress) eqn:He; [|reflexivity].
        exfalso. apply Hno. exists content, data, m. auto.
      * erewrite try_throw; [reflexivity|].
        erewrite bind_ok by exact Hl. unfold lift.
        erewrite bind_throw by (rewrite Hg; reflexivity). reflexivity.
    + erewrite try_throw; [reflexivity|].
      erewrite bind_throw by exact Hl. reflexivity.
  - destruct (loadJson_no_file file w Hc) as [e Hl].
    erewrite try_throw; [reflexivity|].
    erewrite bind_throw by exact Hl. reflexivity.
Qed.

Lemma findTokenFile_not_found w tokenAddress :
  matches_no_record w tokenAddress ->
  findTokenFile tokenAddress w = (Ok None, w)
  \/ exists e, findTokenFile tokenAddress w = (Throw e, w).
Proof.
  intros Hno. unfold findTokenFile.
  destruct (listFiles_reads CONFIG.PATHS.TOKENS ".json" w) as [[l|e] Hl].
  - left. erewrite bind_ok by exact Hl. apply find_file_none.
    intros file Hin.
    destruct (listFiles_paths _ _ _ _ Hl ltac:(discriminate) file Hin) as (name & -> & Hn).
    rewrite hasMintAddress_false by (apply Hno; exact Hn). reflexivity.
  - right. exists e. erewrite bind_throw by exact Hl. reflexivity.
Qed.

(** C4.  Patching by a mint address that no stored record has.  Whatever the
    store, if no [.json] file of the tokens directory holds a JSON text whose
    [mintAddress] is the mint address, then the update performed after
    minting and the one performed after revocation both end normally in a
    world that differs from the initial one by the console only, where at
    most the warning of the failed update was printed: no file is created
    and none is modified. *)
Theorem patch_of_unknown_mint_writes_nothing w tokenAddress tokenInfo amount results now :
  matches_no_record w tokenAddress ->
  (exists evs,
      mint_updateTokenInfo tokenAddress tokenInfo amount now w = (Ok tt, tell w evs)
      /\ silent_or_warned evs)
  /\ (exists evs,
      revoke_updateTokenInfo tokenAddress tokenInfo results now w = (Ok tt, tell w evs)
      /\ silent_or_warned evs).
Proof.
  intros Hno. unfold mint_updateTokenInfo, revoke_updateTokenInfo.
  destruct (truthy tokenInfo).
  2:{ split; exists []; rewrite tell_nil; split; try reflexivity; left; reflexivity. }
  destruct (findTokenFile_not_found w tokenAddress Hno) as [Hf|[e Hf]].
  - split; exists []; rewrite tell_nil; (split; [|left; reflexivity]);
      (erewrite try_ok; [reflexivity|]); erewrite bind_ok by exact Hf; reflexivity.
  - split; exists [Log LWarning "Could not update token info file"];
      (split; [|right; reflexivity]);
      (erewrite try_throw by (erewrite bind_throw by exact Hf; reflexivity)); reflexivity.
Qed.

(* --------------------------------------------------------------------- *)
(** ** What a computation returns *)
(* --------------------------------------------------------------------- *)

Lemma post_ret {A} (a : A) (P : A -> Prop) Q : P a -> post (ret a) P Q.
Proof. intros Ha w. exact Ha. Qed.

Lemma post_emit e (P : unit -> Prop) Q : P tt -> post (emit e) P Q.
Proof. intros Ha w. exact Ha. Qed.

Lemma post_bind {A B} (c : M A) (k : A -> M B) (P' : A -> Prop) P Q :
  post c P' Q -> (forall a, P' a -> post (k a) P Q) -> post (bind c k) P Q.
Proof.
  intros Hc Hk w. specialize (Hc w). unfold bind.
  destruct (c w) as [[a|e] w']; cbn in *; auto. apply Hk. exact Hc.
Qed.

Lemma post_try {A} (c : M A) h (P : A -> Prop) Q' Q :
  post c P Q' -> (forall e, Q' e -> post (h e) P Q) -> post (try_catch c h) P Q.
Proof.
  intros Hc Hh w. specialize (Hc w). unfold try_catch.
  destruct (c w) as [[a|e] w']; cbn in *; auto. apply Hh. exact Hc.
Qed.

Lemma post_exec cmd (P : ExecOutput -> Prop) (Q : JsError -> Prop) :
  (forall out, P out) -> (forall e, Q e) -> post (execAsync cmd) P Q.
Proof. intros HP HQ w. unfold execAsync. cbn. destruct (shell w (executed w) cmd); auto. Qed.

Lemma post_when b c (P : unit -> Prop) Q : P tt -> post c P Q -> post (when b c) P Q.
Proof. intros Ht Hc. destruct b; cbn; auto. apply post_ret; auto. Qed.

Lemma post_returns {A} (c : M A) (P : A -> Prop) w :
  post c P (fun _ => False) -> exists a w', c w = (Ok a, w') /\ P a.
Proof.
  intros Hc. specialize (Hc w). destruct (c w) as [[a|e] w']; cbn in *; [eauto|tauto].
Qed.

Lemma assoc_set_prop {A} k k' (a : A) l :
  assoc k' (set_prop k a l) = if String.eqb k' k then Some a else assoc k' l.
Proof.
  induction l as [|[k0 a0] l IH]; cbn.
  - reflexivity.
  - destruct (String.eqb k k0) eqn:E; cbn.
    + apply String.eqb_eq in E. subst k0.
      destruct (String.eqb k' k); reflexivity.
    + rewrite IH. destruct (String.eqb k' k0) eqn:E0; [|reflexivity].
      apply String.eqb_eq in E0. subst k0.
      destruct (String.eqb k' k) eqn:E1; [|reflexivity].
      apply String.eqb_eq in E1. subst k'. rewrite String.eqb_refl in E. discriminate.
Qed.

Lemma field_set_prop k k' v results :
  field (set_prop k v results) k' = if String.eqb k' k then v else field results k'.
Proof. unfold field. rewrite assoc_set_prop. destruct (String.eqb k' k); reflexivity. Qed.

(* --------------------------------------------------------------------- *)
(** ** Computations that only print *)
(* --------------------------------------------------------------------- *)

Lemma tell_tell w e1 e2 : tell (tell w e1) e2 = tell w (e1 ++ e2).
Proof. unfold tell. cbn. rewrite app_assoc. reflexivity. Qed.

Lemma says_events {A} (c : M A) r evs : says c r evs -> evs = events_of c.
Proof. intros Hc. unfold events_of. rewrite (Hc blank). reflexivity. Qed.

Lemma says_canonical {A} (c : M A) r :
  (exists evs, says c r evs) -> says c r (events_of c).
Proof. intros [evs Hc]. rewrite <- (says_events c r evs Hc). exact Hc. Qed.

Lemma says_ret {A} (a : A) : says (ret a) (Ok a) [].
Proof. intros w. rewrite tell_nil. reflexivity. Qed.

Lemma says_throw {A} e : says (@throw A e) (Throw e) [].
Proof. intros w. rewrite tell_nil. reflexivity. Qed.

Lemma says_lift {A} (r : result A) : says (lift r) r [].
Proof. intros w. rewrite tell_nil. reflexivity. Qed.

Lemma says_emit e : says (emit e) (Ok tt) [e].
Proof. intros w. reflexivity. Qed.

Lemma says_bind {A B} (c : M A) (k : A -> M B) a e1 r e2 :
  says c (Ok a) e1 -> says (k a) r e2 -> says (bind c k) r (e1 ++ e2).
Proof.
  intros Hc Hk w. erewrite bind_ok by apply Hc. rewrite Hk, tell_tell. reflexivity.
Qed.

Lemma says_bind_throw {A B} (c : M A) (k : A -> M B) e e1 :
  says c (Throw e) e1 -> says (bind c k) (Throw e) e1.
Proof. intros Hc w. erewrite bind_throw by apply Hc. reflexivity. Qed.

Lemma says_try_ok {A} (c : M A) h a e1 :
  says c (Ok a) e1 -> says (try_catch c h) (Ok a) e1.
Proof. intros Hc w. erewrite try_ok by apply Hc. reflexivity. Qed.

Lemma says_try_throw {A} (c : M A) h e e1 r e2 :
  says c (Throw e) e1 -> says (h e) r e2 -> says (try_catch c h) r (e1 ++ e2).
Proof.
  intros Hc Hh w. erewrite try_throw by apply Hc. rewrite Hh, tell_tell. reflexivity.
Qed.

Lemma prints_ok_prints c : prints_ok c -> prints c.
Proof. intros [evs Hc]. exists (Ok tt), evs. exact Hc. Qed.

Lemma prints_ret {A} (a : A) : prints (ret a).
Proof. eexists _, _. apply says_ret. Qed.

Lemma prints_lift {A} (r : result A) : prints (lift r).
Proof. eexists _, _. apply says_lift. Qed.

Lemma prints_throw {A} e : prints (@throw A e).
Proof. eexists _, _. apply says_throw. Qed.

Lemma prints_emit e : prints (emit e).
Proof. eexists _, _. apply says_emit. Qed.

Lemma prints_bind {A B} (c : M A) (k : A -> M B) :
  prints c -> (forall a, prints (k a)) -> prints (bind c k).
Proof.
  intros ([a|e] & e1 & Hc) Hk.
  - destruct (Hk a) as (r & e2 & Hka). eexists _, _. eapply says_bind; eauto.
  - eexists _, _. eapply says_bind_throw; eauto.
Qed.

Lemma prints_ok_ret : prints_ok (ret tt).
Proof. eexists. apply says_ret. Qed.

Lemma prints_ok_emit e : prints_ok (emit e).
Proof. eexists. apply says_emit. Qed.

Lemma prints_ok_bind {A} (c : M A) (k : A -> M unit) a e1 :
  says c (Ok a) e1 -> prints_ok (k a) -> prints_ok (bind c k).
Proof. intros Hc [e2 Hk]. eexists. eapply says_bind; eauto. Qed.

Lemma prints_ok_seq (c : M unit) (k : unit -> M unit) :
  prints_ok c -> prints_ok (k tt) -> prints_ok (bind c k).
Proof. intros [e1 Hc] [e2 Hk]. eexists. eapply says_bind; eauto. Qed.

Lemma prints_ok_when b c : prints_ok c -> prints_ok (when b c).
Proof. destruct b; cbn; auto using prints_ok_ret. Qed.

Lemma prints_ok_try (c : M unit) h :
  prints c -> (forall e, prints_ok (h e)) -> prints_ok (try_catch c h).
Proof.
  intros ([[]|e] & e1 & Hc) Hh.
  - eexists. eapply says_try_ok; eauto.
  - destruct (Hh e) as (e2 & He). eexists. eapply says_try_throw; eauto.
Qed.

Lemma prints_ok_forEach {A} (f : nat -> A -> M unit) l :
  (forall i a, prints_ok (f i a)) -> forall i, prints_ok (forEach f i l).
Proof.
  intros Hf. induction l as [|a l IH]; intros i; cbn [forEach].
  - apply prints_ok_ret.
  - apply prints_ok_seq; auto.
Qed.

Lemma prints_forEach {A} (f : nat -> A -> M unit) l :
  (forall i a, prints (f i a)) -> forall i, prints (forEach f i l).
Proof.
  intros Hf. induction l as [|a l IH]; intros i; cbn [forEach].
  - apply prints_ret.
  - apply prints_bind; auto.
Qed.

Lemma prints_when b c : prints c -> prints (when b c).
Proof. destruct b; cbn; auto using prints_ret. Qed.

(** A token record that is not [null] or [undefined] can be read. *)
Lemma get_prop_truthy o k : truthy o = true -> exists v, get_prop o k = Ok v.
Proof.
  destruct o; cbn; try discriminate; eauto.
  - destruct (assoc k props); eauto.
  - destruct (assoc_units (units_of k) props); eauto.
Qed.

Ltac unfold_console :=
  unfold log.separator, log.title, log.info, log.error, log.warning,
    log.success, spinner.start, spinner.succeed, spinner.warn, spinner.fail,
    spinner.text, console_log.

Ltac printing_step :=
  lazymatch goal with
  | |- prints_ok (ret tt) => apply prints_ok_ret
  | |- prints_ok (emit _) => apply prints_ok_emit
  | |- prints_ok (when _ _) => apply prints_ok_when
  | |- prints_ok (bind _ _) => apply prints_ok_seq
  | |- prints (ret _) => apply prints_ret
  | |- prints (emit _) => apply prints_emit
  | |- prints (lift _) => apply prints_lift
  | |- prints (throw _) => apply prints_throw
  | |- prints (when _ _) => apply prints_when
  | |- prints (bind _ _) => apply prints_bind; [|intros]
  | |- prints (forEach _ _ _) => apply prints_forEach; intros
  | |- prints_ok (forEach _ _ _) => apply prints_ok_forEach; intros
  end.

Ltac printing := unfold_console; repeat printing_step.

(* --------------------------------------------------------------------- *)
(** ** The report of [checkToken] *)
(* --------------------------------------------------------------------- *)

Lemma displayMintFacts_prints tokenAddress network mintInfo :
  prints_ok (displayMintFacts tokenAddress network mintInfo).
Proof. unfold displayMintFacts. destruct mintInfo; printing. Qed.

Lemma displayMetadata_prints md : prints_ok (displayMetadata md).
Proof.
  unfold displayMetadata. printing.
  destruct (md_creators md) as [[|c l]|]; printing.
Qed.

Lemma displayNoMetadata_prints : prints_ok displayNoMetadata.
Proof. unfold displayNoMetadata. printing. Qed.

Lemma displayLocalInfo_prints tokenInfo : prints_ok (displayLocalInfo tokenInfo).
Proof.
  unfold displayLocalInfo. destruct (truthy tokenInfo) eqn:Ht; printing.
  repeat match goal with
         | |- prints_ok (bind (lift (get_prop tokenInfo ?k)) _) =>
             let v := fresh "v" in let Hv := fresh "Hv" in
             destruct (get_prop_truthy tokenInfo k Ht) as [v Hv]; rewrite Hv;
             eapply prints_ok_bind; [apply says_lift|]
         | _ => progress printing
         end.
Qed.

Lemma displayExplorerLinks_prints address type network :
  prints_ok (displayUtils.displayExplorerLinks address type network).
Proof. unfold displayUtils.displayExplorerLinks. printing. Qed.

Lemma displayLinksAndActions_prints tokenAddress network action :
  prints_ok (displayLinksAndActions tokenAddress network action).
Proof.
  unfold displayLinksAndActions. printing.
  - apply displayExplorerLinks_prints.
  - repeat (destruct (String.eqb action _)); printing.
Qed.

Lemma displayOffChain_prints response : prints (displayOffChain response).
Proof.
  unfold displayOffChain. unfold_console.
  repeat first
    [ printing_step
    | lazymatch goal with
      | |- prints (if ?b then _ else _) => destruct b
      | |- prints (match ?v with VArr _ => _ | _ => _ end) => destruct v
      end ].
Qed.

Lemma fetchOffChain_prints md fetch : prints_ok (fetchOffChain md fetch).
Proof.
  unfold fetchOffChain. destruct (negb _); [|apply prints_ok_ret].
  apply prints_ok_seq; [printing|].
  apply prints_ok_try.
  - apply prints_bind; [apply prints_lift|]. intros response.
    destruct (ok response); [apply displayOffChain_prints|].
    apply prints_ok_prints. printing.
  - intros e. printing.
Qed.

Lemma says_as {A} (c : M A) r e1 e2 : says c r e1 -> e1 = e2 -> says c r e2.
Proof. intros Hc <-. exact Hc. Qed.

Lemma prints_ok_says c : prints_ok c -> says c (Ok tt) (events_of c).
Proof. intros Hc. apply says_canonical. exact Hc. Qed.

Lemma parseMintAccount_says mintData :
  says (parseMintAccount mintData) (Ok (mintInfo_of mintData))
       (events_of (parseMintAccount mintData)).
Proof.
  apply says_canonical. unfold parseMintAccount, mintInfo_of.
  destruct (decodeMint mintData) as [mi|e].
  - eexists. apply says_try_ok. apply says_lift.
  - eexists. eapply says_try_throw; [apply says_lift|].
    eapply says_bind; [apply says_emit | apply says_ret].
Qed.

Lemma tryFetchMetadata_says fm :
  says (tryFetchMetadata fm) (Ok (metadata_of fm))
       [match fm with
        | Ok _ => Spinner SSucceed "Token information fetched successfully"
        | Throw _ => Spinner SWarn "Token exists but has no metadata"
        end].
Proof.
  unfold tryFetchMetadata. destruct fm as [md|e]; cbn [metadata_of].
  - apply says_try_ok. eapply says_as.
    + eapply says_bind; [apply says_lift|].
      eapply says_bind; [apply says_emit | apply says_ret].
    + reflexivity.
  - eapply says_as.
    + eapply says_try_throw; [eapply says_bind_throw; apply says_lift|].
      eapply says_bind; [apply says_emit | apply says_ret].
    + reflexivity.
Qed.

Lemma checkToken_found tokenAddress tokenInfo network mintData fm fetch action :
  says (checkToken tokenAddress tokenInfo network (Ok tt) (Ok (AccountFound mintData))
          fm fetch action)
       (Ok tt)
       (found_report tokenAddress tokenInfo network mintData fm fetch action).
Proof.
  unfold checkToken. apply says_try_ok.
  eapply says_as.
  - eapply says_bind; [apply says_emit|].
    apply says_try_ok.
    eapply says_bind; [apply says_lift|].
    eapply says_bind; [apply says_emit|].
    eapply says_bind; [apply says_lift|].
    eapply says_bind; [apply says_emit|].
    eapply says_bind; [apply parseMintAccount_says|].
    eapply says_bind; [apply says_emit|].
    eapply says_bind; [apply tryFetchMetadata_says|].
    eapply says_bind; [apply prints_ok_says, displayMintFacts_prints|].
    eapply says_bind.
    { instantiate (2 := tt). instantiate (1 := metadata_report fm fetch).
      destruct fm as [md|e]; cbn [metadata_of metadata_report].
      - eapply says_bind; [apply prints_ok_says, displayMetadata_prints|].
        apply prints_ok_says, fetchOffChain_prints.
      - apply prints_ok_says, displayNoMetadata_prints. }
    eapply says_bind; [apply prints_ok_says, displayLocalInfo_prints|].
    apply prints_ok_says, displayLinksAndActions_prints.
  - unfold found_report. cbn [app]. reflexivity.
Qed.

Lemma checkToken_missing tokenAddress tokenInfo network fm fetch action :
  says (checkToken tokenAddress tokenInfo network (Ok tt) (Ok AccountMissing)
          fm fetch action)
       (Ok tt) not_found_report.
Proof.
  unfold checkToken. apply says_try_ok.
  eapply says_as.
  - eapply says_bind; [apply says_emit|].
    apply says_try_ok.
    eapply says_bind; [apply says_lift|].
    eapply says_bind; [apply says_emit|].
    eapply says_bind; [apply says_lift|].
    eapply says_bind; [apply says_emit|apply says_emit].
  - reflexivity.
Qed.

(* --------------------------------------------------------------------- *)
(** ** The account decoder *)
(* --------------------------------------------------------------------- *)

Lemma to_N_byte_of_N n : Byte.to_N (byte_of_N n) = (n mod 256)%N.
Proof.
  unfold byte_of_N. destruct (Byte.of_N (n mod 256)) as [b|] eqn:E.
  - apply Byte.to_of_N in E. exact E.
  - apply Byte.of_N_None_iff in E.
    pose proof (N.mod_upper_bound n 256 ltac:(discriminate)). lia.
Qed.

Lemma le_bytes_of_N k v : le_bytes_to_N (N_to_le_bytes k v) = (v mod 256 ^ N.of_nat k)%N.
Proof.
  revert v. induction k as [|k IH]; intros v.
  - cbn. rewrite N.mod_1_r. reflexivity.
  - cbn [N_to_le_bytes le_bytes_to_N]. rewrite to_N_byte_of_N, IH.
    rewrite Nat2N.inj_succ, N.pow_succ_r'.
    rewrite (N.Div0.mod_mul_r v 256 (256 ^ N.of_nat k)). reflexivity.
Qed.

Lemma firstn_skipn_nth {A} (d : A) n : forall off l,
  off + n <= List.length l ->
  firstn n (skipn off l) = map (fun i => nth (off + i) l d) (seq 0 n).
Proof.
  induction n as [|n IH]; intros off l Hl; [reflexivity|].
  destruct (skipn off l) as [|a r] eqn:E.
  - pose proof (f_equal (@List.length A) E) as HE. rewrite length_skipn in HE. cbn in HE. lia.
  - cbn [firstn seq map]. rewrite Nat.add_0_r. f_equal.
    + rewrite <- (firstn_skipn off l) at 1. rewrite app_nth2; rewrite length_firstn; [|lia].
      replace (off - Nat.min off (List.length l)) with 0 by lia. rewrite E. reflexivity.
    + assert (Hr : r = skipn (S off) l).
      { change (S off) with (1 + off). rewrite <- skipn_skipn, E. reflexivity. }
      rewrite Hr, (IH (S off) l) by lia. rewrite <- seq_shift, map_map.
      apply map_ext. intros i. f_equal. lia.
Qed.

Lemma nth_u8_bytes a i :
  u8_wf a -> i < u8_length a ->
  nth i (u8_bytes a) x00 = nth (u8_byteOffset a + i) (u8_buffer a) x00.
Proof.
  intros Hwf Hi. unfold u8_bytes, u8_wf in *.
  rewrite nth_firstn. destruct (i <? u8_length a) eqn:E; [|apply Nat.ltb_ge in E; lia].
  rewrite nth_skipn. reflexivity.
Qed.

Lemma u8_get_in_range a i :
  u8_wf a -> i < u8_length a ->
  u8_get a i = VNum (Z.of_N (byte_at (u8_bytes a) i)).
Proof.
  intros Hwf Hi. unfold u8_get, byte_at. apply Nat.ltb_lt in Hi as Hi'. rewrite Hi'.
  rewrite nth_u8_bytes by assumption.
  unfold u8_wf in Hwf.
  rewrite (nth_error_nth' _ x00) by lia. reflexivity.
Qed.

Lemma window_of_bytes a off n :
  u8_wf a -> off + n <= u8_length a ->
  firstn n (skipn (u8_byteOffset a + off) (u8_buffer a))
  = firstn n (skipn off (u8_bytes a)).
Proof.
  intros Hwf Hn. unfold u8_wf in Hwf.
  rewrite (firstn_skipn_nth x00) by lia.
  rewrite (firstn_skipn_nth x00).
  2:{ unfold u8_bytes. rewrite length_firstn, length_skipn. lia. }
  apply map_ext_in. intros i Hi. apply in_seq in Hi.
  rewrite nth_u8_bytes by (assumption || lia). f_equal. lia.
Qed.

Lemma le_bytes_window bs off :
  off + 8 <= List.length bs ->
  le_bytes_to_N (firstn 8 (skipn off bs)) = u64_le_at bs off.
Proof.
  intros Hl. rewrite (firstn_skipn_nth x00) by assumption.
  cbn [seq map le_bytes_to_N]. unfold u64_le_at, byte_at. rewrite Nat.add_0_r.
  change (2 ^ 8)%N with 256%N. change (2 ^ 16)%N with 65536%N.
  change (2 ^ 24)%N with 16777216%N. change (2 ^ 32)%N with 4294967296%N.
  change (2 ^ 40)%N with 1099511627776%N. change (2 ^ 48)%N with 281474976710656%N.
  change (2 ^ 56)%N with 72057594037927936%N.
  lia.
Qed.

Lemma decodeMint_spec mintData :
  u8_wf mintData -> 82 <= u8_length mintData ->
  decodeMint mintData
  = Ok (Some {| supply := le_bytes_to_N (firstn 8 (skipn 36 (u8_bytes mintData)));
                decimals := VNum (Z.of_N (byte_at (u8_bytes mintData) 44));
                isInitialized := N.eqb (byte_at (u8_bytes mintData) 45) 1 |}).
Proof.
  intros Hwf Hlen. unfold decodeMint.
  apply Nat.leb_le in Hlen as Hlen'. rewrite Hlen'.
  unfold new_DataView. unfold u8_wf in Hwf.
  destruct (List.length (u8_buffer mintData) <? u8_byteOffset mintData + 36) eqn:E1;
    [apply Nat.ltb_lt in E1; lia|].
  destruct (List.length (u8_buffer mintData) <? u8_byteOffset mintData + 36 + 8) eqn:E2;
    [apply Nat.ltb_lt in E2; lia|].
  cbn [rbind]. unfold getBigUint64. cbn [dv_byteLength dv_byteOffset dv_buffer Nat.ltb Nat.leb Nat.add].
  rewrite Nat.add_0_r. rewrite (window_of_bytes mintData 36 8) by (assumption || lia).
  rewrite !u8_get_in_range by (assumption || lia).
  cbn [rbind strict_eq]. do 3 f_equal.
  destruct (byte_at (u8_bytes mintData) 45) as [|p]; [reflexivity|].
  cbn. destruct p; reflexivity.
Qed.

(** C1.  The account decoder on a buffer of at least 82 bytes.  The decoding
    step of [checkToken] returns, without printing and without throwing, a
    snapshot whose [supply] is the unsigned 64-bit little-endian integer at
    byte offset 36, whose [decimals] is the byte at offset 44 and whose
    [isInitialized] tells whether the byte at offset 45 is 1.  Hence a supply
    below 2^64 written little-endian at offset 36 is recovered exactly, and
    the buffer of 82 zero bytes with byte 45 set to 1 decodes to
    [{supply: 0, decimals: 0, isInitialized: true}]. *)
Theorem mint_account_decoding mintData :
  u8_wf mintData -> 82 <= u8_length mintData ->
  let bs := u8_bytes mintData in
  let decoded := {| supply := u64_le_at bs 36;
                    decimals := VNum (Z.of_N (byte_at bs 44));
                    isInitialized := N.eqb (byte_at bs 45) 1 |} in
  (forall w, parseMintAccount mintData w = (Ok (Some decoded), w))
  /\ (forall v, (v < 2 ^ 64)%N ->
        firstn 8 (skipn 36 bs) = u64_to_le_bytes v -> supply decoded = v)
  /\ (bs = scenario_bytes ->
        decoded = {| supply := 0; decimals := VNum 0; isInitialized := true |}).
Proof.
  intros Hwf Hlen bs decoded.
  assert (Hbs : List.length bs = u8_length mintData).
  { unfold bs, u8_bytes. unfold u8_wf in Hwf. rewrite length_firstn, length_skipn. lia. }
  assert (Hsup : le_bytes_to_N (firstn 8 (skipn 36 bs)) = u64_le_at bs 36).
  { apply le_bytes_window. lia. }
  split; [|split].
  - intros w. unfold parseMintAccount. erewrite try_ok; [reflexivity|].
    unfold lift. rewrite decodeMint_spec by assumption. fold bs. rewrite Hsup. reflexivity.
  - intros v Hv Henc. cbn [supply decoded]. rewrite <- Hsup, Henc.
    unfold u64_to_le_bytes. rewrite le_bytes_of_N.
    apply N.mod_small. exact Hv.
  - intros Hsc. subst decoded. rewrite Hsc. reflexivity.
Qed.

(* --------------------------------------------------------------------- *)
(** ** Metadata and off-chain data *)
(* --------------------------------------------------------------------- *)

Ltac say :=
  lazymatch goal with
  | |- says (bind _ _) _ _ => eapply says_bind; [say | cbv beta; say]
  | |- says (emit _) _ _ => apply says_emit
  | |- says (ret _) _ _ => apply says_ret
  | |- says (lift _) _ _ => apply says_lift
  | |- says (when true _) _ _ => cbn [when]; say
  | |- says (when false _) _ _ => cbn [when]; say
  | |- says (when ?b _) _ _ =>
      match goal with
      | H : b = _ |- _ => rewrite H; cbn [when]; say
      end
  end.

Ltac said := symmetry; eapply says_events with (r := Ok tt); eapply says_as; [say | reflexivity].

Lemma parseMintAccount_events mintData :
  events_of (parseMintAccount mintData)
  = match decodeMint mintData with Ok _ => [] | Throw _ => [could_not_parse] end.
Proof.
  unfold events_of, parseMintAccount, try_catch, lift.
  destruct (decodeMint mintData); reflexivity.
Qed.

Lemma displayMintFacts_events tokenAddress network mintInfo :
  events_of (displayMintFacts tokenAddress network mintInfo)
  = mint_facts_lines tokenAddress network mintInfo.
Proof. destruct mintInfo; reflexivity. Qed.

Lemma creators_say index creators :
  says (forEach (fun index creator =>
                   console_log [CreatorLine (index + 1) (cr_address creator)
                                  (cr_share creator) (cr_verified creator)])
                index creators)
       (Ok tt) (creator_lines (index + 1) creators).
Proof.
  revert index. induction creators as [|creator rest IH]; intros index; cbn [forEach creator_lines].
  - apply says_ret.
  - eapply says_as.
    + eapply says_bind; [apply says_emit | apply IH].
    + rewrite !Nat.add_1_r. reflexivity.
Qed.

Lemma displayMetadata_events md :
  events_of (displayMetadata md) = metadata_lines md.
Proof.
  symmetry. eapply says_events with (r := Ok tt).
  unfold displayMetadata, metadata_lines, js_or. unfold_console.
  destruct (md_creators md) as [[|creator rest]|].
  - eapply says_as; [say | reflexivity].
  - eapply says_as.
    + do 11 (eapply says_bind; [apply says_emit|]).
      eapply says_bind; [apply says_emit | apply (creators_say 0)].
    + reflexivity.
  - eapply says_as; [say | reflexivity].
Qed.

Lemma displayLocalInfo_events tokenInfo :
  events_of (displayLocalInfo tokenInfo) = local_info_lines tokenInfo.
Proof.
  unfold displayLocalInfo, local_info_lines, prop_of, js_or. unfold_console.
  destruct (truthy tokenInfo) eqn:Ht; [|reflexivity].
  destruct (get_prop_truthy tokenInfo "createdAt" Ht) as [v1 H1].
  destruct (get_prop_truthy tokenInfo "toolVersion" Ht) as [v2 H2].
  destruct (get_prop_truthy tokenInfo "walletFile" Ht) as [v3 H3].
  destruct (get_prop_truthy tokenInfo "createTransaction" Ht) as [v4 H4].
  destruct (get_prop_truthy tokenInfo "lastUpdateDate" Ht) as [v5 H5].
  destruct (get_prop_truthy tokenInfo "totalMinted" Ht) as [v6 H6].
  rewrite H1, H2, H3, H4, H5, H6.
  destruct (truthy v4) eqn:E4, (truthy v5) eqn:E5, (truthy v6) eqn:E6; said.
Qed.

Lemma displayLinksAndActions_events tokenAddress network action :
  events_of (displayLinksAndActions tokenAddress network action)
  = links_lines tokenAddress network action.
Proof.
  unfold displayLinksAndActions, links_lines, displayUtils.displayExplorerLinks.
  unfold tokenUtils.getExplorerUrls. unfold_console. cbn [solana solscan].
  destruct (String.eqb action "mint"); [said|].
  destruct (String.eqb action "update"); [said|].
  destruct (String.eqb action "browser"); said.
Qed.

Lemma closing_report_lines tokenAddress tokenInfo network action :
  closing_report tokenAddress tokenInfo network action
  = closing_lines tokenAddress tokenInfo network action.
Proof.
  unfold closing_report, closing_lines.
  rewrite displayLocalInfo_events, displayLinksAndActions_events. reflexivity.
Qed.

Lemma found_report_sections tokenAddress tokenInfo network mintData md fetch action :
  found_report tokenAddress tokenInfo network mintData (Ok md) fetch action
  = (on_chain_report tokenAddress network mintData md
     ++ events_of (fetchOffChain md fetch)
     ++ closing_lines tokenAddress tokenInfo network action)%list.
Proof.
  unfold found_report, on_chain_report, closing_lines, metadata_report.
  rewrite parseMintAccount_events, displayMintFacts_events, displayMetadata_events,
    displayLocalInfo_events, displayLinksAndActions_events.
  cbn [app]. repeat (rewrite <- ?app_assoc; cbn [app]). reflexivity.
Qed.

Lemma not_ok response :
  status response < 200 \/ 299 < status response -> ok response = false.
Proof.
  intros H. unfold ok. apply andb_false_iff.
  destruct H as [H|H]; [left | right]; apply Nat.leb_gt; exact H.
Qed.

Lemma fetchOffChain_failed md fetch :
  md_uri md <> "" -> dereference_failed fetch ->
  events_of (fetchOffChain md fetch) = off_chain_unavailable.
Proof.
  intros Huri Hfail. symmetry. eapply says_events with (r := Ok tt).
  unfold fetchOffChain. apply String.eqb_neq in Huri. rewrite Huri. cbn [negb].
  eapply says_as.
  - eapply says_bind; [apply says_emit|].
    destruct fetch as [response|e]; cbn in Hfail.
    + apply says_try_ok. eapply says_bind; [apply says_lift|].
      rewrite (not_ok response Hfail). apply says_emit.
    + eapply says_try_throw; [eapply says_bind_throw; apply says_lift|].
      apply says_emit.
  - destruct fetch; reflexivity.
Qed.


Lemma mint_facts_say_exists tokenAddress network mintInfo :
  In mint_account_exists (events_of (displayMintFacts tokenAddress network mintInfo)).
Proof. destruct mintInfo; cbn; tauto. Qed.

(** C6.  A token without metadata is not an error.  When the mint account
    exists and the metadata lookup throws, [checkToken] ends normally with
    the report of a found account: it says that the mint account exists,
    that the token exists but has no metadata, and that no metadata was
    found.  When the mint account does not exist, [checkToken] stops after
    the failure notice: the report says that the mint account was not found
    and never that it exists. *)
Theorem token_without_metadata_is_reported
    tokenAddress tokenInfo network mintData e fm fetch action :
  let report := found_report tokenAddress tokenInfo network mintData (Throw e) fetch action in
  says (checkToken tokenAddress tokenInfo network (Ok tt) (Ok (AccountFound mintData))
          (Throw e) fetch action) (Ok tt) report
  /\ In mint_account_exists report
  /\ In (Spinner SWarn "Token exists but has no metadata") report
  /\ In (ConsoleLog [Txt "No metadata found for this token"]) report
  /\ says (checkToken tokenAddress tokenInfo network (Ok tt) (Ok AccountMissing)
             fm fetch action) (Ok tt) not_found_report
  /\ In (Spinner SFail "Token mint account not found") not_found_report
  /\ ~ In mint_account_exists not_found_report.
Proof.
  intros report. repeat split.
  - apply checkToken_found.
  - unfold report, found_report. apply in_or_app. right. apply in_or_app. right.
    apply in_or_app. right. apply in_or_app. left. apply mint_facts_say_exists.
  - unfold report, found_report. apply in_or_app. right. apply in_or_app. right.
    apply in_or_app. left. cbn. tauto.
  - unfold report, found_report. apply in_or_app. right. apply in_or_app. right.
    apply in_or_app. right. apply in_or_app. right. apply in_or_app. left.
    cbn. tauto.
  - apply checkToken_missing.
  - cbn. tauto.
  - cbn. unfold mint_account_exists. intuition discriminate.
Qed.

(** C2, as the code has it.  On a buffer shorter than 82 bytes the decoding
    step returns [null] without throwing and without printing: the case is
    skipped silently.  The inspection goes on and ends normally; its report
    is the one of a found account without the supply, decimals and
    initialized lines, and it holds no warning from the decoder. *)
Theorem short_buffer_is_undecodable mintData :
  u8_length mintData < 82 ->
  (forall w, parseMintAccount mintData w = (Ok None, w))
  /\ (forall tokenAddress tokenInfo network fm fetch action,
        says (checkToken tokenAddress tokenInfo network (Ok tt)
                (Ok (AccountFound mintData)) fm fetch action)
             (Ok tt)
             ([ Spinner SStart "Fetching token information...";
                Spinner SText "Checking mint account...";
                Spinner SText "Fetching mint account data...";
                Spinner SText "Fetching metadata...";
                match fm with
                | Ok _ => Spinner SSucceed "Token information fetched successfully"
                | Throw _ => Spinner SWarn "Token exists but has no metadata"
                end;
                Separator;
                Log LTitle "TOKEN INFORMATION";
                ConsoleLog [Txt "Token Address:"; Js tokenAddress];
                ConsoleLog [Txt "Network:"; Txt network];
                mint_account_exists ]
              ++ metadata_report fm fetch
              ++ closing_report tokenAddress tokenInfo network action)%list).
Proof.
  intros Hlen.
  assert (Hdec : decodeMint mintData = Ok None).
  { unfold decodeMint. destruct (82 <=? u8_length mintData) eqn:E; [|reflexivity].
    apply Nat.leb_le in E. lia. }
  assert (Hrun : forall w, parseMintAccount mintData w = (Ok None, w)).
  { intros w. unfold parseMintAccount. erewrite try_ok; [reflexivity|].
    unfold lift. rewrite Hdec. reflexivity. }
  split; [exact Hrun|].
  intros. eapply says_as; [apply checkToken_found|].
  unfold found_report, closing_report, mintInfo_of, events_of at 1.
  rewrite Hrun, Hdec. reflexivity.
Qed.

(* --------------------------------------------------------------------- *)
(** ** Explorer links, addresses and the configuration *)
(* --------------------------------------------------------------------- *)

Lemma endsWith_append a b : endsWith (a ++ b) b = true.
Proof.
  unfold endsWith. rewrite length_append.
  replace (String.length a + String.length b - String.length b) with (String.length a) by lia.
  rewrite substring_append by reflexivity. rewrite String.eqb_refl.
  replace (String.length b <=? String.length a + String.length b) with true; [reflexivity|].
  symmetry. apply Nat.leb_le. lia.
Qed.

(** C3.  The explorer links.  For every address and type, on a network whose
    lower-case name is devnet or testnet both links (Solana Explorer and
    SolScan) are the base URL followed by [?cluster=] and the lower-case
    network name, so both end with that suffix; on mainnet both links are
    the base URL alone, since [getNetworkCluster] is the empty string. *)
Theorem explorer_links address type network :
  let urls := tokenUtils.getExplorerUrls address type network in
  ((toLowerCase network = "devnet" \/ toLowerCase network = "testnet") ->
     urls = {| solana := "https://explorer.solana.com/" ++ type ++ "/" ++ address
                           ++ "?cluster=" ++ toLowerCase network;
               solscan := "https://solscan.io/" ++ type ++ "/" ++ address
                            ++ "?cluster=" ++ toLowerCase network |}
     /\ endsWith (solana urls) ("?cluster=" ++ toLowerCase network) = true
     /\ endsWith (solscan urls) ("?cluster=" ++ toLowerCase network) = true
     /\ getNetworkCluster network = "?cluster=" ++ toLowerCase network)
  /\ (toLowerCase network = "mainnet" ->
        urls = {| solana := "https://explorer.solana.com/" ++ type ++ "/" ++ address;
                  solscan := "https://solscan.io/" ++ type ++ "/" ++ address |}
        /\ getNetworkCluster network = "").
Proof.
  intros urls. subst urls. unfold tokenUtils.getExplorerUrls, getNetworkCluster. split.
  - intros Hn.
    assert (E : String.eqb (toLowerCase network) "mainnet" = false)
      by (destruct Hn as [-> | ->]; reflexivity).
    rewrite E. cbn [solana solscan].
    set (suffix := "?cluster=" ++ toLowerCase network).
    repeat split; rewrite <- !append_assoc; apply endsWith_append.
  - intros ->. cbn [String.eqb Ascii.eqb Bool.eqb]. rewrite !append_nil_r. split; reflexivity.
Qed.

(** C9.  [validateAddress] checks the length only.  It returns true exactly on
    the strings of 32 to 44 code units, whether all of them are below 256 or
    not; [not_an_address], a string of 40 characters that holds a zero and
    an exclamation mark, neither of which is in the base58 alphabet, is
    accepted. *)
Theorem validateAddress_checks_length_only :
  (forall address,
      validators.validateAddress address = true
      <-> (exists s, address = VStr s /\ 32 <= String.length s <= 44)
          \/ (exists units, address = VWide units /\ 32 <= List.length units <= 44))
  /\ String.length not_an_address = 40
  /\ includes not_an_address "0" = true
  /\ includes not_an_address "!" = true
  /\ is_base58 not_an_address = false
  /\ validators.validateAddress (VStr not_an_address) = true.
Proof.
  split; [|repeat split; reflexivity].
  intros address. unfold validators.validateAddress. split.
  - destruct address; try (rewrite orb_true_r; discriminate).
    + cbn [truthy]. destruct (String.eqb s ""); cbn [negb orb]; [discriminate|].
      intros Hl. apply andb_prop in Hl as [H1 H2].
      apply Nat.leb_le in H1, H2. left. eauto.
    + cbn [truthy]. destruct units as [|u units]; cbn [negb orb]; [discriminate|].
      intros Hl. apply andb_prop in Hl as [H1 H2].
      apply Nat.leb_le in H1, H2. right. eauto.
  - intros [(s & -> & H1 & H2)|(units & -> & H1 & H2)]; cbn [truthy].
    + destruct s as [|c s]; [cbn in H1; lia|]. cbn [String.eqb negb orb].
      apply andb_true_intro. split; apply Nat.leb_le; assumption.
    + destruct units as [|u units]; [cbn in H1; lia|]. cbn [negb orb].
      apply andb_true_intro. split; apply Nat.leb_le; assumption.
Qed.

(** C10.  [getExplorerUrl] throws on TESTNET.  The network has an RPC endpoint
    in [CONFIG.NETWORK] but no entry in [CONFIG.EXPLORERS], whose keys are
    DEVNET and MAINNET, so the lookup of the explorer type reads a property
    of [undefined] and throws a TypeError, for every type; on DEVNET the same
    call returns a URL. *)
Theorem getExplorerUrl_throws_on_testnet type :
  getExplorerUrl type "TESTNET"
  = Throw (TypeError ("Cannot read properties of undefined (reading '"
                        ++ toUpperCase type ++ "')"))
  /\ getNetworkUrl "TESTNET" = Some "https://api.testnet.solana.com"
  /\ assoc "TESTNET" CONFIG.EXPLORERS = None
  /\ map fst CONFIG.EXPLORERS = ["DEVNET"; "MAINNET"]
  /\ getExplorerUrl "SOLANA" "DEVNET" = Ok "https://explorer.solana.com?cluster=devnet".
Proof. repeat split; reflexivity. Qed.

(* --------------------------------------------------------------------- *)
(** ** Revocation: the results of the loop *)
(* --------------------------------------------------------------------- *)

Lemma set_prop_forallb {A} (P : string * A -> bool) k a l :
  forallb P l = true -> P (k, a) = true ->
  (forall k', P (k, a) = true -> P (k', a) = true) ->
  forallb P (set_prop k a l) = true.
Proof.
  intros Hl Ha Hk. induction l as [|[k0 a0] l IH]; cbn.
  - rewrite Ha. reflexivity.
  - cbn in Hl. apply andb_prop in Hl as [H0 Hl].
    destruct (String.eqb k k0); cbn.
    + rewrite Hl, (Hk k0 Ha). reflexivity.
    + rewrite H0, IH by assumption. reflexivity.
Qed.

Lemma set_prop_keys_in {A} k (a : A) l k' :
  existsb (String.eqb k') (map fst (set_prop k a l))
  = existsb (String.eqb k') (map fst l) || String.eqb k' k.
Proof.
  induction l as [|[k0 a0] l IH]; cbn.
  - apply orb_false_r.
  - destruct (String.eqb k k0) eqn:E; cbn.
    + apply String.eqb_eq in E. subst k0.
      destruct (String.eqb k' k); cbn; [reflexivity|]. rewrite orb_false_r. reflexivity.
    + rewrite IH. rewrite orb_assoc. reflexivity.
Qed.

Lemma set_prop_distinct {A} k (a : A) l :
  distinct (map fst l) = true -> distinct (map fst (set_prop k a l)) = true.
Proof.
  induction l as [|[k0 a0] l IH]; cbn; [reflexivity|].
  intros Hd. apply andb_prop in Hd as [H0 Hd].
  destruct (String.eqb k k0) eqn:E; cbn.
  - rewrite H0, Hd. reflexivity.
  - rewrite IH by assumption. rewrite set_prop_keys_in.
    apply negb_true_iff in H0. rewrite H0. cbn.
    rewrite String.eqb_sym, E. reflexivity.
Qed.

Lemma results_inv_set results k v :
  results_inv results -> primitive v = true ->
  (k = "mintRevoked" \/ k = "freezeRevoked" -> v = VBool true \/ v = VBool false) ->
  results_inv (set_prop k v results).
Proof.
  intros [[Hm Hf] Hc] Hv Hk. split; [split|].
  - unfold outcome_flag in *. rewrite field_set_prop.
    destruct (String.eqb "mintRevoked" k) eqn:E; [|exact Hm].
    apply String.eqb_eq in E. destruct (Hk (or_introl (eq_sym E))); auto.
  - unfold outcome_flag in *. rewrite field_set_prop.
    destruct (String.eqb "freezeRevoked" k) eqn:E; [|exact Hf].
    apply String.eqb_eq in E. destruct (Hk (or_intror (eq_sym E))); auto.
  - apply set_prop_forallb; auto.
Qed.

Ltac results_inv_tac :=
  repeat (apply results_inv_set; [| reflexivity
                                  | intros [E|E]; first [discriminate E | auto]]);
  try assumption.

Ltac emits := eapply post_bind with (P' := fun _ => True); [apply post_emit; exact I|intros _ _].

Lemma revokeMint_inv tokenAddress network results :
  results_inv results ->
  post (revokeMint tokenAddress network results) results_inv (fun _ => False).
Proof.
  intros Hr. unfold revokeMint, spinner.start, spinner.succeed, spinner.fail, spinner.warn,
    log.info, log.success, log.error.
  emits. eapply post_try with (Q' := fun _ => True).
  - emits.
    eapply post_bind with (P' := fun _ => True); [apply post_exec; auto|intros out _].
    eapply post_bind with (P' := fun _ => True);
      [apply post_when; [exact I| apply post_emit; exact I]|intros _ _].
    eapply post_bind with (P' := results_inv).
    + destruct (negb _); [|apply post_ret; exact Hr].
      emits. emits.
      destruct (match_signature _); [|apply post_ret; exact Hr].
      emits. apply post_ret. results_inv_tac.
    + intros r Hr'. apply post_ret. results_inv_tac.
  - intros e _. emits. emits. apply post_ret. results_inv_tac.
Qed.

Lemma revokeFreeze_inv tokenAddress network results :
  results_inv results ->
  post (revokeFreeze tokenAddress network results) results_inv (fun _ => False).
Proof.
  intros Hr. unfold revokeFreeze, spinner.start, spinner.succeed, spinner.fail, spinner.warn,
    log.info, log.success, log.error.
  emits. eapply post_try with (Q' := fun _ => True).
  - emits.
    eapply post_bind with (P' := fun _ => True); [apply post_exec; auto|intros out _].
    eapply post_bind with (P' := fun _ => True);
      [apply post_when; [exact I| apply post_emit; exact I]|intros _ _].
    eapply post_bind with (P' := results_inv).
    + destruct (negb _); [|apply post_ret; exact Hr].
      emits. emits.
      destruct (match_signature _); [|apply post_ret; exact Hr].
      emits. apply post_ret. results_inv_tac.
    + intros r Hr'. apply post_ret. results_inv_tac.
  - intros e _. emits. emits. apply post_ret. results_inv_tac.
Qed.

Lemma revokeEach_inv tokenAddress network authoritiesToRevoke :
  forall results,
    results_inv results ->
    post (revokeEach tokenAddress network authoritiesToRevoke results)
         results_inv (fun _ => False).
Proof.
  induction authoritiesToRevoke as [|authority rest IH]; intros results Hr; cbn [revokeEach].
  - apply post_ret. exact Hr.
  - eapply post_bind with (P' := results_inv).
    { destruct (String.eqb authority "mint");
        [apply revokeMint_inv; exact Hr | apply post_ret; exact Hr]. }
    intros r1 Hr1.
    eapply post_bind with (P' := results_inv).
    { destruct (String.eqb authority "freeze");
        [apply revokeFreeze_inv; exact Hr1 | apply post_ret; exact Hr1]. }
    intros r2 Hr2. apply IH. exact Hr2.
Qed.

Lemma results_inv_nil : results_inv [].
Proof. split; [split; left; reflexivity | reflexivity]. Qed.

(* --------------------------------------------------------------------- *)
(** ** Revocation: the record that is written *)
(* --------------------------------------------------------------------- *)

Lemma primitive_storable v : primitive v = true -> storable v = true.
Proof. destruct v; cbn; auto; discriminate. Qed.

Lemma assoc_forallb {A} (P : string * A -> bool) k a l :
  forallb P l = true -> assoc k l = Some a -> exists k', P (k', a) = true.
Proof.
  induction l as [|[k0 a0] l IH]; cbn; [discriminate|].
  intros Hl. apply andb_prop in Hl as [H0 Hl].
  destruct (String.eqb k k0); [intros [= <-]; eauto | auto].
Qed.

Lemma field_storable props k :
  forallb (fun kv => storable (snd kv)) props = true ->
  storable (field props k) = true.
Proof.
  intros Hp. unfold field. destruct (assoc k props) as [v|] eqn:E; [|reflexivity].
  destruct (assoc_forallb _ k v props Hp E) as [k' Hk]. exact Hk.
Qed.

Lemma field_primitive results k :
  forallb (fun kv => primitive (snd kv)) results = true ->
  primitive (field results k) = true.
Proof.
  intros Hp. unfold field. destruct (assoc k results) as [v|] eqn:E; [|reflexivity].
  destruct (assoc_forallb _ k v results Hp E) as [k' Hk]. exact Hk.
Qed.

Lemma js_or_storable a b :
  storable a = true -> storable b = true -> storable (js_or a b) = true.
Proof. unfold js_or. destruct (truthy a); auto. Qed.

Lemma get_prop_obj props k : get_prop (VObj props) k = Ok (field props k).
Proof. unfold get_prop, field. destruct (assoc k props); reflexivity. Qed.

Lemma js_or_flag flag : outcome_flag flag -> js_or flag (VBool true) = VBool true.
Proof. intros [-> | [-> | ->]]; reflexivity. Qed.

Lemma revoke_updatedInfo_obj props results now :
  revoke_updatedInfo (VObj props) results now
  = Ok (VObj (set_props props (revoke_updates props results now))).
Proof. unfold revoke_updatedInfo. rewrite !get_prop_obj. reflexivity. Qed.

Lemma set_props_distinct updates : forall l,
  distinct (map fst l) = true -> distinct (map fst (set_props l updates)) = true.
Proof.
  unfold set_props. induction updates as [|[k v] updates IH]; intros l Hl; cbn; auto.
  apply IH. apply set_prop_distinct. exact Hl.
Qed.

Lemma set_props_storable updates : forall l,
  forallb (fun kv => storable (snd kv)) l = true ->
  forallb (fun kv => storable (snd kv)) updates = true ->
  forallb (fun kv => storable (snd kv)) (set_props l updates) = true.
Proof.
  unfold set_props. induction updates as [|[k v] updates IH]; intros l Hl Hu; cbn; auto.
  cbn in Hu. apply andb_prop in Hu as [Hv Hu].
  apply IH; [|exact Hu]. apply set_prop_forallb; auto.
Qed.

Lemma forallb_keys_set_prop (P : list N -> bool) k v (l : list (string * value)) :
  P (units_of k) = true ->
  forallb P (map (fun kv => units_of (fst kv)) l) = true ->
  forallb P (map (fun kv => units_of (fst kv)) (set_prop k v l)) = true.
Proof.
  intros Hk. induction l as [|[k' v'] l IH]; cbn [set_prop map forallb fst].
  - intros _. rewrite Hk. reflexivity.
  - intros H. apply andb_prop in H as [H1 H2].
    destruct (String.eqb k k'); cbn [map forallb fst]; rewrite H1; cbn [andb]; auto.
Qed.

Lemma precedes_plain k' k : plain_name k = true -> precedes k' (units_of k) = true.
Proof.
  unfold plain_name, precedes. intros H.
  destruct (array_index (units_of k)); [discriminate|].
  destruct (array_index k'); reflexivity.
Qed.

Lemma keys_ordered_set_prop k v l :
  plain_name k = true -> keys_ordered l = true -> keys_ordered (set_prop k v l) = true.
Proof.
  intros Hk. unfold keys_ordered.
  induction l as [|[k' v'] l IH]; cbn [set_prop map ordered forallb fst]; [reflexivity|].
  intros H. apply andb_prop in H as [H1 H2].
  destruct (String.eqb k k'); cbn [map ordered fst].
  - rewrite H1, H2. reflexivity.
  - rewrite (IH H2), andb_true_r.
    apply forallb_keys_set_prop; [apply precedes_plain; exact Hk | exact H1].
Qed.

Lemma set_props_ordered updates : forall l,
  forallb (fun kv => plain_name (fst kv)) updates = true ->
  keys_ordered l = true -> keys_ordered (set_props l updates) = true.
Proof.
  unfold set_props. induction updates as [|[k v] updates IH]; intros l Hu Hl; cbn; auto.
  cbn in Hu. apply andb_prop in Hu as [Hk Hu].
  apply IH; [exact Hu|]. apply keys_ordered_set_prop; assumption.
Qed.

Lemma storable_set_props props updates :
  storable (VObj props) = true ->
  forallb (fun kv => plain_name (fst kv)) updates = true ->
  forallb (fun kv => storable (snd kv)) updates = true ->
  storable (VObj (set_props props updates)) = true.
Proof.
  intros Hk Hn Hu. apply storable_obj in Hk as (Hd & Ho & Hv). cbn [storable].
  rewrite set_props_distinct, set_props_ordered by assumption. cbn [andb].
  apply set_props_storable; assumption.
Qed.

Lemma updatedInfo_storable props results now :
  storable (VObj props) = true ->
  forallb (fun kv => primitive (snd kv)) results = true ->
  storable (VObj (set_props props (revoke_updates props results now))) = true.
Proof.
  intros Hk Hr. apply storable_set_props; [exact Hk|reflexivity|].
  apply storable_obj in Hk as (Hd & Ho & Hv).
  unfold revoke_updates. cbn [forallb snd].
  rewrite !js_or_storable;
    auto using field_storable, primitive_storable, field_primitive.
Qed.

Lemma updatedInfo_mint_flag props results now :
  outcome_flags results ->
  field props "mintAuthorityRevoked" = VBool true ->
  field (set_props props (revoke_updates props results now)) "mintAuthorityRevoked"
  = VBool true.
Proof.
  intros [Hm _] Hp. unfold set_props, revoke_updates. cbn [fold_left fst snd].
  rewrite !field_set_prop. cbn [String.eqb Ascii.eqb Bool.eqb].
  rewrite Hp. apply js_or_flag. exact Hm.
Qed.

Lemma updatedInfo_freeze_flag props results now :
  outcome_flags results ->
  field props "freezeAuthorityRevoked" = VBool true ->
  field (set_props props (revoke_updates props results now)) "freezeAuthorityRevoked"
  = VBool true.
Proof.
  intros [_ Hf] Hp. unfold set_props, revoke_updates. cbn [fold_left fst snd].
  rewrite !field_set_prop. cbn [String.eqb Ascii.eqb Bool.eqb].
  rewrite Hp. apply js_or_flag. exact Hf.
Qed.

Lemma assoc_normalized k v props :
  assoc k props = Some v -> is_undefined v = false ->
  assoc k (map norm_member (filter defined props)) = Some (normalize v).
Proof.
  induction props as [|[k0 v0] props IH]; cbn [assoc filter]; [discriminate|].
  unfold defined at 1. cbn [snd].
  destruct (String.eqb k k0) eqn:E.
  - intros [= ->] Hv. rewrite Hv. cbn [negb map norm_member fst snd assoc]. rewrite E.
    reflexivity.
  - intros Ha Hv. destruct (is_undefined v0); cbn [negb map norm_member fst snd assoc];
      rewrite ?E; auto.
Qed.

Lemma field_normalized_true props k :
  field props k = VBool true ->
  get_prop (normalize (VObj props)) k = Ok (VBool true).
Proof.
  unfold field. destruct (assoc k props) as [v|] eqn:E; [|discriminate].
  intros ->. rewrite normalize_obj, get_prop_obj. unfold field.
  rewrite (assoc_normalized k (VBool true) props E eq_refl). reflexivity.
Qed.

Lemma ensureDir_keeps_files dir w :
  exists w1, fileUtils.ensureDir dir w = (Ok tt, w1)
             /\ files (disk w1) = files (disk w).
Proof.
  unfold fileUtils.ensureDir. erewrite bind_ok by apply existsSync_run.
  destruct (is_file (disk w) dir) eqn:Hf; cbn [orb negb].
  - eexists. split; reflexivity.
  - destruct (is_dir (disk w) dir) eqn:Hd; cbn [negb].
    + eexists. split; reflexivity.
    + rewrite mkdirSync_run by assumption. eexists. split; reflexivity.
Qed.

Lemma writeFileSync_cases p content w :
  (exists e, fs.writeFileSync p content w = (Throw e, w))
  \/ fs.writeFileSync p content w
     = (Ok tt, with_disk w (mkDisk (set_prop p content (files (disk w))) (dirs (disk w)))).
Proof.
  unfold fs.writeFileSync, bind, get_disk.
  destruct (is_dir (disk w) p); [left; eexists; reflexivity|].
  destruct (is_dir (disk w) (path_dirname p)); cbn [negb];
    [right; reflexivity | left; eexists; reflexivity].
Qed.

(** What [saveJson] leaves of the files: nothing changed, or the one file
    holds the text of the record. *)
Lemma saveJson_cases filePath data content w :
  JSON.stringify data = Some content ->
  exists r w',
    fileUtils.saveJson filePath data w = (r, w')
    /\ console w' = console w
    /\ ((files (disk w') = files (disk w) /\ (r = Ok tt -> False))
        \/ (r = Ok tt /\ files (disk w') = set_prop filePath content (files (disk w)))).
Proof.
  intros Hs. unfold fileUtils.saveJson.
  destruct (ensureDir_keeps_files (path_dirname filePath) w) as (w1 & He & Hf1).
  assert (Hc1 : console w1 = console w).
  { revert He. unfold fileUtils.ensureDir. erewrite bind_ok by apply existsSync_run.
    destruct (negb _); [|intros [= <-]; reflexivity].
    unfold fs.mkdirSync, bind, get_disk.
    destruct (is_file _ _); [discriminate|]. destruct (is_dir _ _); intros [= <-]; reflexivity. }
  erewrite bind_ok by exact He. rewrite Hs.
  destruct (writeFileSync_cases filePath content w1) as [[e Hw]|Hw]; rewrite Hw.
  - eexists _, _. split; [reflexivity|]. split; [exact Hc1|]. left.
    split; [exact Hf1 | discriminate].
  - eexists _, _. split; [reflexivity|]. split; [exact Hc1|]. right.
    split; [reflexivity|]. cbn. rewrite Hf1. reflexivity.
Qed.

Lemma find_file_reads tokenAddress l w :
  exists r, find_file (hasMintAddress tokenAddress) l w = (Ok r, w).
Proof.
  induction l as [|file l IH]; cbn [find_file]; [eexists; reflexivity|].
  destruct (hasMintAddress_reads tokenAddress file w) as [b Hb].
  erewrite bind_ok by exact Hb. destruct b; [eexists; reflexivity | exact IH].
Qed.

Lemma findTokenFile_reads tokenAddress w :
  exists r, findTokenFile tokenAddress w = (r, w).
Proof.
  unfold findTokenFile.
  destruct (listFiles_reads CONFIG.PATHS.TOKENS ".json" w) as [[l|e] Hl].
  - erewrite bind_ok by exact Hl.
    destruct (find_file_reads tokenAddress l w) as [r Hr]. rewrite Hr. eexists; reflexivity.
  - erewrite bind_throw by exact Hl. eexists; reflexivity.
Qed.

(** The update after a revocation leaves the files as they are, or writes
    the text of the updated record into one file. *)
Lemma revoke_update_cases tokenAddress props results now w :
  let updatedInfo := VObj (set_props props (revoke_updates props results now)) in
  let w' := snd (revoke_updateTokenInfo tokenAddress (VObj props) results now w) in
  files (disk w') = files (disk w)
  \/ exists file content,
       findTokenFile tokenAddress w = (Ok (Some file), w)
       /\ JSON.stringify updatedInfo = Some content
       /\ files (disk w') = set_prop file content (files (disk w)).
Proof.
  intros updatedInfo w'. subst w'. unfold revoke_updateTokenInfo. cbn [truthy].
  destruct (findTokenFile_reads tokenAddress w) as [[[file|]|e] Hf].
  - destruct (String.eqb file "") eqn:Efile.
    + left. erewrite try_ok; [reflexivity|]. erewrite bind_ok by exact Hf.
      cbv beta iota. rewrite Efile. reflexivity.
    + assert (Hs : exists content, JSON.stringify updatedInfo = Some content)
        by (eexists; reflexivity).
      destruct Hs as [content Hs].
      destruct (saveJson_cases file updatedInfo content w Hs) as (r & w1 & Hsave & Hcon & Hcases).
      destruct Hcases as [[Hfiles Hr]|[-> Hfiles]].
      * left. destruct r as [[]|e]; [tauto|].
        erewrite try_throw.
        2:{ erewrite bind_ok by exact Hf. cbv beta iota. rewrite Efile. cbn [negb].
            unfold lift. erewrite bind_ok by (rewrite revoke_updatedInfo_obj; reflexivity).
            erewrite bind_throw by exact Hsave. reflexivity. }
        cbn. exact Hfiles.
      * right. exists file, content. split; [exact Hf|]. split; [exact Hs|].
        erewrite try_ok.
        2:{ erewrite bind_ok by exact Hf. cbv beta iota. rewrite Efile. cbn [negb].
            unfold lift. erewrite bind_ok by (rewrite revoke_updatedInfo_obj; reflexivity).
            erewrite bind_ok by exact Hsave. reflexivity. }
        cbn. exact Hfiles.
  - left. erewrite try_ok; [reflexivity|]. erewrite bind_ok by exact Hf. reflexivity.
  - left. erewrite try_throw by (erewrite bind_throw by exact Hf; reflexivity). reflexivity.
Qed.

(** Whatever the revocations did, the record built from [tokenInfo] and
    their results keeps the flags that were true. *)
Lemma updated_record_keeps_flags w tokenAddress props authoritiesToRevoke network now :
  exists results w1 updatedInfo,
    revokeEach tokenAddress network authoritiesToRevoke [] w = (Ok results, w1)
    /\ results_inv results
    /\ revoke_updatedInfo (VObj props) results now = Ok updatedInfo
    /\ (get_prop (VObj props) "mintAuthorityRevoked" = Ok (VBool true) ->
        get_prop updatedInfo "mintAuthorityRevoked" = Ok (VBool true))
    /\ (get_prop (VObj props) "freezeAuthorityRevoked" = Ok (VBool true) ->
        get_prop updatedInfo "freezeAuthorityRevoked" = Ok (VBool true)).
Proof.
  destruct (post_returns _ _ w
              (revokeEach_inv tokenAddress network authoritiesToRevoke [] results_inv_nil))
    as (results & w1 & Hrun & Hinv).
  exists results, w1, (VObj (set_props props (revoke_updates props results now))).
  split; [exact Hrun|]. split; [exact Hinv|]. destruct Hinv as [Hflags Hprim].
  split; [apply revoke_updatedInfo_obj|].
  rewrite !get_prop_obj. split.
  - intros [= Hm]. f_equal. apply updatedInfo_mint_flag; assumption.
  - intros [= Hf]. f_equal. apply updatedInfo_freeze_flag; assumption.
Qed.

(* --------------------------------------------------------------------- *)
(** ** Revocation: the files after the operation *)
(* --------------------------------------------------------------------- *)

Lemma post_weaken {A} (c : M A) (P P' : A -> Prop) (Q Q' : JsError -> Prop) :
  post c P Q -> (forall a, P a -> P' a) -> (forall e, Q e -> Q' e) -> post c P' Q'.
Proof.
  intros Hc HP HQ w. specialize (Hc w). destruct (fst (c w)); auto.
Qed.

Lemma flags_kept_refl tokenInfo d : flags_kept tokenInfo d d.
Proof. intros file. left. reflexivity. Qed.

Lemma keeps_ret {A} (a : A) : keeps_disk (ret a).
Proof. intros w. reflexivity. Qed.

Lemma keeps_throw {A} e : keeps_disk (@throw A e).
Proof. intros w. reflexivity. Qed.

Lemma keeps_emit e : keeps_disk (emit e).
Proof. intros w. reflexivity. Qed.

Lemma keeps_exec cmd : keeps_disk (execAsync cmd).
Proof. intros w. reflexivity. Qed.

Lemma keeps_bind {A B} (c : M A) (k : A -> M B) :
  keeps_disk c -> (forall a, keeps_disk (k a)) -> keeps_disk (bind c k).
Proof.
  intros Hc Hk w. specialize (Hc w). unfold bind.
  destruct (c w) as [[a|e] w1]; cbn in *; [|exact Hc].
  rewrite Hc. apply Hk.
Qed.

Lemma keeps_try {A} (c : M A) h :
  keeps_disk c -> (forall e, keeps_disk (h e)) -> keeps_disk (try_catch c h).
Proof.
  intros Hc Hh w. specialize (Hc w). unfold try_catch.
  destruct (c w) as [[a|e] w1]; cbn in *; [exact Hc|].
  rewrite Hc. apply Hh.
Qed.

Lemma keeps_when b c : keeps_disk c -> keeps_disk (when b c).
Proof. destruct b; cbn; auto using keeps_ret. Qed.

Lemma changes_of_keeps {A} (c : M A) (R : Disk -> Disk -> Prop) :
  (forall d, R d d) -> keeps_disk c -> changes_disk c R.
Proof. intros HR Hc w. rewrite <- (Hc w). apply HR. Qed.

(** A step that keeps the disk, then one that changes it. *)
Lemma changes_after {A B} (c : M A) (k : A -> M B) (P : A -> Prop) R :
  (forall d, R d d) ->
  post c P (fun _ => True) -> keeps_disk c ->
  (forall a, P a -> changes_disk (k a) R) ->
  changes_disk (bind c k) R.
Proof.
  intros HR Hp Hc Hk w. specialize (Hp w). specialize (Hc w). unfold bind.
  destruct (c w) as [[a|e] w1]; cbn in *.
  - rewrite Hc. apply Hk. exact Hp.
  - rewrite <- Hc. apply HR.
Qed.

(** A step that changes the disk, then one that keeps it. *)
Lemma changes_before {A B} (c : M A) (k : A -> M B) R :
  changes_disk c R -> (forall a, keeps_disk (k a)) -> changes_disk (bind c k) R.
Proof.
  intros Hc Hk w. specialize (Hc w). unfold bind.
  destruct (c w) as [[a|e] w1]; cbn in *; [|exact Hc].
  rewrite <- (Hk a w1). exact Hc.
Qed.

Lemma changes_try {A} (c : M A) h R :
  changes_disk c R -> (forall e, keeps_disk (h e)) -> changes_disk (try_catch c h) R.
Proof.
  intros Hc Hh w. specialize (Hc w). unfold try_catch.
  destruct (c w) as [[a|e] w1]; cbn in *; [exact Hc|].
  rewrite <- (Hh e w1). exact Hc.
Qed.

Ltac keeping_step :=
  lazymatch goal with
  | |- keeps_disk (ret _) => apply keeps_ret
  | |- keeps_disk (throw _) => apply keeps_throw
  | |- keeps_disk (emit _) => apply keeps_emit
  | |- keeps_disk (execAsync _) => apply keeps_exec
  | |- keeps_disk (when _ _) => apply keeps_when
  | |- keeps_disk (bind _ _) => apply keeps_bind; [|intros]
  | |- keeps_disk (try_catch _ _) => apply keeps_try; [|intros]
  | |- keeps_disk (if ?b then _ else _) => destruct b
  | |- keeps_disk (match ?o with Some _ => _ | None => _ end) => destruct o
  end.

Ltac keeping := unfold_console; repeat keeping_step.

Lemma revokeMint_keeps tokenAddress network results :
  keeps_disk (revokeMint tokenAddress network results).
Proof. unfold revokeMint. keeping. Qed.

Lemma revokeFreeze_keeps tokenAddress network results :
  keeps_disk (revokeFreeze tokenAddress network results).
Proof. unfold revokeFreeze. keeping. Qed.

Lemma revokeEach_keeps tokenAddress network authoritiesToRevoke :
  forall results, keeps_disk (revokeEach tokenAddress network authoritiesToRevoke results).
Proof.
  induction authoritiesToRevoke as [|authority rest IH]; intros results; cbn [revokeEach].
  - apply keeps_ret.
  - apply keeps_bind; [destruct (String.eqb authority "mint");
                       [apply revokeMint_keeps | apply keeps_ret]|].
    intros r1. apply keeps_bind; [destruct (String.eqb authority "freeze");
                       [apply revokeFreeze_keeps | apply keeps_ret]|].
    intros r2. apply IH.
Qed.

Lemma displayExplorerLinks_keeps address type network :
  keeps_disk (displayUtils.displayExplorerLinks address type network).
Proof. unfold displayUtils.displayExplorerLinks. keeping. Qed.

Lemma revoke_displayResults_keeps tokenAddress network authoritiesToRevoke results :
  keeps_disk (revoke_displayResults tokenAddress network authoritiesToRevoke results).
Proof.
  unfold revoke_displayResults. keeping; apply displayExplorerLinks_keeps.
Qed.

Lemma revoke_displayStatus_keeps results : keeps_disk (revoke_displayStatus results).
Proof. unfold revoke_displayStatus. keeping. Qed.

Lemma revoke_failed_keeps e : keeps_disk (revoke_failed e).
Proof. unfold revoke_failed. keeping. Qed.

Lemma revoke_update_changes tokenAddress props results now :
  storable (VObj props) = true -> results_inv results ->
  changes_disk (revoke_updateTokenInfo tokenAddress (VObj props) results now)
               (flags_kept (VObj props)).
Proof.
  intros Hk [Hflags Hprim] w file.
  destruct (revoke_update_cases tokenAddress props results now w)
    as [Hsame|(file0 & content & Hfound & Hs & Hfiles)].
  - left. rewrite Hsame. reflexivity.
  - destruct (String.eqb file file0) eqn:E.
    + right. apply String.eqb_eq in E. subst file0.
      exists content, (normalize (VObj (set_props props (revoke_updates props results now)))).
      split; [rewrite Hfiles; apply assoc_set_prop_eq|]. split.
      * apply parse_stringify; [|exact Hs].
        apply updatedInfo_storable; assumption.
      * rewrite !get_prop_obj.
        split; intros [= Hp]; apply field_normalized_true.
        -- apply updatedInfo_mint_flag; assumption.
        -- apply updatedInfo_freeze_flag; assumption.
    + left. rewrite Hfiles, assoc_set_prop, E. reflexivity.
Qed.

(** The file that [find] returns holds a record of the mint address. *)
Lemma hasMintAddress_true tokenAddress file w w' :
  hasMintAddress tokenAddress file w = (Ok true, w') ->
  holds_record_of (disk w) tokenAddress file.
Proof.
  intros Hrun.
  destruct (assoc file (files (disk w))) as [content|] eqn:Hc.
  - exists content.
    destruct (JSON.parse content) as [data|e] eqn:Hp.
    + exists data. destruct (get_prop data "mintAddress") as [m|e] eqn:Hg.
      * exists m. destruct (strict_eq m tokenAddress) eqn:He; [auto|].
        exfalso. rewrite hasMintAddress_false in Hrun; [discriminate|].
        intros (c' & d' & m' & Hc' & Hp' & Hg' & He'). congruence.
      * exfalso. rewrite hasMintAddress_false in Hrun; [discriminate|].
        intros (c' & d' & m' & Hc' & Hp' & Hg' & He'). congruence.
    + exfalso. rewrite hasMintAddress_false in Hrun; [discriminate|].
      intros (c' & d' & m' & Hc' & Hp' & Hg' & He'). congruence.
  - exfalso. rewrite hasMintAddress_false in Hrun; [discriminate|].
    intros (c' & d' & m' & Hc' & Hp' & Hg' & He'). congruence.
Qed.

Lemma find_file_some tokenAddress l w file w' :
  find_file (hasMintAddress tokenAddress) l w = (Ok (Some file), w') ->
  In file l /\ holds_record_of (disk w) tokenAddress file.
Proof.
  induction l as [|f l IH]; cbn [find_file]; [discriminate|].
  destruct (hasMintAddress_reads tokenAddress f w) as [b Hb].
  erewrite bind_ok by exact Hb. destruct b.
  - intros [= <- <-]. split; [left; reflexivity|].
    eapply hasMintAddress_true. exact Hb.
  - intros H. destruct (IH H) as [Hin Hh]. split; [right; exact Hin | exact Hh].
Qed.

Lemma findTokenFile_some tokenAddress w file w' :
  findTokenFile tokenAddress w = (Ok (Some file), w') ->
  exists name,
    file = path_join CONFIG.PATHS.TOKENS name /\ endsWith name ".json" = true
    /\ holds_record_of (disk w) tokenAddress file.
Proof.
  unfold findTokenFile.
  destruct (listFiles_reads CONFIG.PATHS.TOKENS ".json" w) as [[l|e] Hl].
  - erewrite bind_ok by exact Hl. intros H.
    destruct (find_file_some _ _ _ _ _ H) as [Hin Hh].
    destruct (listFiles_paths _ _ _ _ Hl ltac:(discriminate) file Hin) as (name & -> & Hn).
    exists name. auto.
  - erewrite bind_throw by exact Hl. discriminate.
Qed.

Lemma flags_stay_refl d : flags_stay d d.
Proof. intros file content record flag _ Ha Hp Hg. exists content, record. auto. Qed.

(** When the store has no other version of the record, the update after a
    revocation keeps the flags of every stored record. *)
Lemma revoke_update_stays tokenAddress props results now :
  storable (VObj props) = true -> results_inv results ->
  changes_disk (revoke_updateTokenInfo tokenAddress (VObj props) results now)
               (fun before after =>
                  same_record before tokenAddress props -> flags_stay before after).
Proof.
  intros Hk [Hflags Hprim] w Hsame file content record flag Hflag Ha Hp Hg.
  destruct (revoke_update_cases tokenAddress props results now w)
    as [Hfiles|(file0 & content0 & Hfound & Hs & Hfiles)].
  - exists content, record. rewrite Hfiles. auto.
  - destruct (String.eqb file file0) eqn:E.
    + apply String.eqb_eq in E. subst file0.
      destruct (findTokenFile_some _ _ _ _ Hfound)
        as (name & -> & Hn & (c1 & d1 & m1 & Hc1 & Hp1 & Hg1 & He1)).
      assert (Hrec : record = VObj props).
      { rewrite Ha in Hc1. injection Hc1 as <-. rewrite Hp in Hp1. injection Hp1 as <-.
        exact (Hsame name content record m1 Hn Ha Hp Hg1 He1). }
      subst record. rewrite get_prop_obj in Hg. injection Hg as Hg.
      exists content0, (normalize (VObj (set_props props (revoke_updates props results now)))).
      split; [rewrite Hfiles; apply assoc_set_prop_eq|]. split.
      * apply parse_stringify; [|exact Hs]. apply updatedInfo_storable; assumption.
      * apply field_normalized_true.
        destruct Hflag as [<-|[<-|[]]].
        -- apply updatedInfo_mint_flag; assumption.
        -- apply updatedInfo_freeze_flag; assumption.
    + exists content, record. rewrite Hfiles, assoc_set_prop, E. auto.
Qed.

(** The only step of [revokeAuthorities] that writes is the update of the
    record. *)
Lemma revokeAuthorities_changes_as (R : Disk -> Disk -> Prop)
    tokenAddress tokenInfo authoritiesToRevoke walletFile network now :
  (forall d, R d d) ->
  (forall results, results_inv results ->
     changes_disk (revoke_updateTokenInfo tokenAddress tokenInfo results now) R) ->
  changes_disk (revokeAuthorities tokenAddress tokenInfo authoritiesToRevoke
                  walletFile network now) R.
Proof.
  intros Hrefl Hupdate. unfold revokeAuthorities.
  apply changes_try; [|apply revoke_failed_keeps].
  eapply changes_after with (P := fun _ => True);
    [apply Hrefl | unfold spinner.start; apply post_emit; exact I | keeping |].
  intros _ _. apply changes_try; [|intros; keeping].
  eapply changes_after with (P := fun _ => True);
    [apply Hrefl | unfold spinner.text; apply post_emit; exact I | keeping |].
  intros _ _.
  eapply changes_after with (P := fun _ => True);
    [apply Hrefl | unfold log.info; apply post_emit; exact I | keeping |].
  intros _ _.
  eapply changes_after with (P := fun _ => True);
    [apply Hrefl | apply post_exec; auto | keeping |].
  intros out _.
  eapply changes_after with (P := fun _ => True);
    [apply Hrefl
    | apply post_when; [exact I | unfold log.warning; apply post_emit; exact I]
    | keeping |].
  intros _ _.
  eapply changes_after with (P := fun _ => True);
    [apply Hrefl | unfold spinner.succeed; apply post_emit; exact I | keeping |].
  intros _ _.
  eapply changes_after with (P := results_inv);
    [apply Hrefl
    | eapply post_weaken; [apply revokeEach_inv, results_inv_nil | auto | intros e []]
    | apply revokeEach_keeps |].
  intros results Hinv.
  eapply changes_after with (P := fun _ => True);
    [apply Hrefl | intros w; destruct (fst _); exact I
    | apply revoke_displayResults_keeps |].
  intros _ _.
  apply changes_before; [|intros; apply revoke_displayStatus_keeps].
  apply Hupdate; assumption.
Qed.

Lemma revokeAuthorities_changes tokenAddress props authoritiesToRevoke walletFile network now :
  storable (VObj props) = true ->
  changes_disk (revokeAuthorities tokenAddress (VObj props) authoritiesToRevoke
                  walletFile network now)
               (flags_kept (VObj props)).
Proof.
  intros Hk. apply revokeAuthorities_changes_as; [apply flags_kept_refl|].
  intros results Hinv. apply revoke_update_changes; assumption.
Qed.

Lemma revokeAuthorities_stays tokenAddress props authoritiesToRevoke walletFile network now :
  storable (VObj props) = true ->
  changes_disk (revokeAuthorities tokenAddress (VObj props) authoritiesToRevoke
                  walletFile network now)
               (fun before after =>
                  same_record before tokenAddress props -> flags_stay before after).
Proof.
  intros Hk. apply revokeAuthorities_changes_as; [intros d _; apply flags_stay_refl|].
  intros results Hinv. apply revoke_update_stays; assumption.
Qed.


(* --------------------------------------------------------------------- *)
(** ** The explorer URL of the configuration *)
(* --------------------------------------------------------------------- *)

(** X1.  The outcomes of [getExplorerUrl].  It returns a text exactly when the
    upper-case network is DEVNET or MAINNET, and throws a TypeError for every
    other network.  When it returns, the text is the base URL of the explorer
    followed by the cluster parameter for the types SOLANA and SOLSCAN (in
    any letter case), and the word undefined followed by the cluster
    parameter for every other type: an unknown type is not an error. *)
Theorem getExplorerUrl_outcomes type network :
  let known := toUpperCase network = "DEVNET" \/ toUpperCase network = "MAINNET" in
  (known ->
     (toUpperCase type = "SOLANA" ->
        getExplorerUrl type network
        = Ok ("https://explorer.solana.com" ++ getNetworkCluster network))
     /\ (toUpperCase type = "SOLSCAN" ->
        getExplorerUrl type network = Ok ("https://solscan.io" ++ getNetworkCluster network))
     /\ (toUpperCase type <> "SOLANA" -> toUpperCase type <> "SOLSCAN" ->
        getExplorerUrl type network = Ok ("undefined" ++ getNetworkCluster network)))
  /\ (~ known ->
        getExplorerUrl type network
        = Throw (TypeError ("Cannot read properties of undefined (reading '"
                              ++ toUpperCase type ++ "')"))).
Proof.
  intros known. unfold getExplorerUrl, getNetworkCluster, CONFIG.EXPLORERS.
  cbn [assoc]. split.
  - intros Hk.
    assert (Hex : (if String.eqb (toUpperCase network) "DEVNET"
                   then Some [("SOLANA", "https://explorer.solana.com");
                              ("SOLSCAN", "https://solscan.io")]
                   else if String.eqb (toUpperCase network) "MAINNET"
                        then Some [("SOLANA", "https://explorer.solana.com");
                                   ("SOLSCAN", "https://solscan.io")]
                        else None)
                  = Some [("SOLANA", "https://explorer.solana.com");
                          ("SOLSCAN", "https://solscan.io")]).
    { destruct Hk as [-> | ->]; reflexivity. }
    rewrite Hex. cbn [assoc]. repeat split.
    + intros ->. reflexivity.
    + intros ->. reflexivity.
    + intros H1 H2. apply String.eqb_neq in H1, H2. rewrite H1, H2. reflexivity.
  - intros Hk.
    destruct (String.eqb (toUpperCase network) "DEVNET") eqn:E1.
    { exfalso. apply Hk. left. apply String.eqb_eq. exact E1. }
    destruct (String.eqb (toUpperCase network) "MAINNET") eqn:E2.
    { exfalso. apply Hk. right. apply String.eqb_eq. exact E2. }
    reflexivity.
Qed.

(* --------------------------------------------------------------------- *)
(** ** The links on the networks of the prompts *)
(* --------------------------------------------------------------------- *)

(** X2.  The links on a network that is not called mainnet.  For every network
    whose lower-case name differs from mainnet, known or not, both links end
    with the cluster parameter and the lower-case name.  The prompts of
    [mintTokens] and [revokeAuthorities] offer devnet, mainnet-beta and
    testnet and pass the name in upper case: on Mainnet too the links carry
    a cluster parameter, [?cluster=mainnet-beta]. *)
Theorem explorer_links_of_the_prompts address type network :
  (toLowerCase network <> "mainnet" ->
     tokenUtils.getExplorerUrls address type network
     = {| solana := "https://explorer.solana.com/" ++ type ++ "/" ++ address
                      ++ "?cluster=" ++ toLowerCase network;
          solscan := "https://solscan.io/" ++ type ++ "/" ++ address
                       ++ "?cluster=" ++ toLowerCase network |})
  /\ (In network ["devnet"; "mainnet-beta"; "testnet"] ->
        tokenUtils.getExplorerUrls address type (toUpperCase network)
        = {| solana := "https://explorer.solana.com/" ++ type ++ "/" ++ address
                         ++ "?cluster=" ++ network;
             solscan := "https://solscan.io/" ++ type ++ "/" ++ address
                          ++ "?cluster=" ++ network |}).
Proof.
  split.
  - intros Hn. unfold tokenUtils.getExplorerUrls.
    apply String.eqb_neq in Hn. rewrite Hn. reflexivity.
  - intros [<- | [<- | [<- | []]]]; reflexivity.
Qed.

(* --------------------------------------------------------------------- *)
(** ** The signature in the output of the external program *)
(* --------------------------------------------------------------------- *)

Lemma after_prefix_ci_step p pattern c s :
  after_prefix_ci (String p pattern) (String c s)
  = if Ascii.eqb (fold_case p) (fold_case c) then after_prefix_ci pattern s else None.
Proof. reflexivity. Qed.

Lemma after_prefix_ci_self pattern rest :
  after_prefix_ci pattern (pattern ++ rest) = Some rest.
Proof.
  induction pattern as [|p pattern IH]; [destruct rest; reflexivity|].
  cbn [append]. rewrite after_prefix_ci_step, Ascii.eqb_refl. exact IH.
Qed.

Lemma after_prefix_ci_app pattern : forall u v r,
  after_prefix_ci pattern u = Some r -> after_prefix_ci pattern (u ++ v) = Some (r ++ v).
Proof.
  induction pattern as [|p pattern IH]; intros u v r H.
  - destruct u; cbn in H; injection H as <-; destruct v; reflexivity.
  - destruct u as [|c u]; [discriminate|]. cbn [append].
    rewrite after_prefix_ci_step in *.
    destruct (Ascii.eqb (fold_case p) (fold_case c)); [|discriminate].
    apply IH. exact H.
Qed.

Lemma after_prefix_ci_long pattern : forall u v,
  String.length pattern <= String.length u ->
  after_prefix_ci pattern u = None -> after_prefix_ci pattern (u ++ v) = None.
Proof.
  induction pattern as [|p pattern IH]; intros u v Hl H.
  - destruct u; discriminate.
  - destruct u as [|c u]; [cbn in Hl; lia|]. cbn [append].
    rewrite after_prefix_ci_step in *.
    destruct (Ascii.eqb (fold_case p) (fold_case c)); [|reflexivity].
    apply IH; [cbn in Hl; lia | exact H].
Qed.

Lemma after_prefix_ci_split pattern : forall s r,
  after_prefix_ci pattern s = Some r ->
  exists lit, s = lit ++ r /\ after_prefix_ci pattern lit = Some "".
Proof.
  induction pattern as [|p pattern IH]; intros s r H.
  - exists "". destruct s; cbn in H; injection H as <-; split; reflexivity.
  - destruct s as [|c s]; [discriminate|]. rewrite after_prefix_ci_step in H.
    destruct (Ascii.eqb (fold_case p) (fold_case c)) eqn:E; [|discriminate].
    destruct (IH s r H) as (lit & -> & Hlit).
    exists (String c lit). split; [reflexivity|].
    rewrite after_prefix_ci_step, E. exact Hlit.
Qed.

Ltac straddle :=
  repeat (rewrite after_prefix_ci_step;
          lazymatch goal with
          | |- (if Ascii.eqb ?a (fold_case ?c) then _ else _) = None =>
              tryif is_var c
              then (destruct (Ascii.eqb a (fold_case c)); [|reflexivity])
              else (let v := eval vm_compute in (Ascii.eqb a (fold_case c)) in
                    change (Ascii.eqb a (fold_case c)) with v; cbv iota)
          end);
  try reflexivity.

(** The words that precede a signature do not overlap themselves: a match
    cannot begin in a text that is shorter than the words and end in the
    words that follow it. *)
Lemma signature_words_do_not_overlap u rest :
  u <> "" -> String.length u < 11 ->
  after_prefix_ci "Signature: " (u ++ "Signature: " ++ rest) = None.
Proof.
  intros Hu Hl.
  destruct u as [|c1 u]; [congruence|].
  destruct u as [|c2 u]; [cbn [append]; straddle|].
  destruct u as [|c3 u]; [cbn [append]; straddle|].
  destruct u as [|c4 u]; [cbn [append]; straddle|].
  destruct u as [|c5 u]; [cbn [append]; straddle|].
  destruct u as [|c6 u]; [cbn [append]; straddle|].
  destruct u as [|c7 u]; [cbn [append]; straddle|].
  destruct u as [|c8 u]; [cbn [append]; straddle|].
  destruct u as [|c9 u]; [cbn [append]; straddle|].
  destruct u as [|c10 u]; [cbn [append]; straddle|].
  destruct u as [|c11 u]; [cbn [append]; straddle|].
  cbn in Hl. lia.
Qed.

Lemma span_alnum_app sig rest :
  all_alnum sig = true -> starts_alnum rest = false -> span_alnum (sig ++ rest) = sig.
Proof.
  intros Ha Hr. induction sig as [|c sig IH]; cbn [append].
  - destruct rest as [|c r]; [reflexivity|]. cbn in Hr |- *. rewrite Hr. reflexivity.
  - cbn in Ha. apply andb_prop in Ha as [Hc Ha]. cbn [span_alnum]. rewrite Hc.
    f_equal. apply IH. exact Ha.
Qed.

Lemma span_alnum_split s :
  exists rest, s = span_alnum s ++ rest
               /\ all_alnum (span_alnum s) = true /\ starts_alnum rest = false.
Proof.
  induction s as [|c s (rest & Hs & Ha & Hr)].
  - exists "". repeat split.
  - cbn [span_alnum]. destruct (is_alnum c) eqn:Hc.
    + exists rest. cbn [append all_alnum]. rewrite Hc, Ha. repeat split; [|exact Hr].
      f_equal. exact Hs.
    + exists (String c s). cbn. rewrite Hc. repeat split.
Qed.

Lemma fold_case_lower p c :
  In p (list_ascii_of_string "Signature: ") ->
  Ascii.eqb (fold_case p) (fold_case c) = true -> lower_char c = lower_char p.
Proof.
  intros Hin. cbn in Hin.
  repeat (destruct Hin as [<- | Hin];
          [ascii_cases c; vm_compute; intros H; first [reflexivity | discriminate H]|]).
  destruct Hin.
Qed.

Lemma after_prefix_ci_lower pattern : forall words,
  (forall p, In p (list_ascii_of_string pattern) ->
             In p (list_ascii_of_string "Signature: ")) ->
  after_prefix_ci pattern words = Some "" ->
  toLowerCase words = toLowerCase pattern.
Proof.
  induction pattern as [|p pattern IH]; intros words Hin H.
  - destruct words; [reflexivity|]. cbn in H. discriminate.
  - destruct words as [|c words]; [discriminate|].
    rewrite after_prefix_ci_step in H.
    destruct (Ascii.eqb (fold_case p) (fold_case c)) eqn:E; [|discriminate].
    cbn [toLowerCase]. f_equal.
    + apply fold_case_lower; [apply Hin; left; reflexivity | exact E].
    + apply IH; [|exact H]. intros q Hq. apply Hin. right. exact Hq.
Qed.

Lemma match_signature_step c r :
  match_signature (String c r)
  = match after_prefix_ci "Signature: " (String c r) with
    | Some rest =>
        match span_alnum rest with
        | EmptyString => match_signature r
        | group => Some group
        end
    | None => match_signature r
    end.
Proof. reflexivity. Qed.

(** X3.  The signature is found where the external program prints it.  When
    the output holds the words [Signature: ] followed by a non-empty run of
    letters and digits that ends at the end of the output or at a character
    that is neither, and the text before holds no such words in any letter
    case, the pattern of [revokeAuthorities] and [mintTokens] captures
    exactly that run. *)
Theorem signature_is_extracted pre sig rest :
  mentions_signature pre = false ->
  sig <> "" -> all_alnum sig = true -> starts_alnum rest = false ->
  match_signature (pre ++ "Signature: " ++ sig ++ rest) = Some sig.
Proof.
  intros Hpre Hne Ha Hr.
  assert (Hhere : match_signature ("Signature: " ++ sig ++ rest) = Some sig).
  { change ("Signature: " ++ sig ++ rest)
      with (String "S" ("ignature: " ++ sig ++ rest)).
    rewrite match_signature_step.
    change (String "S" ("ignature: " ++ sig ++ rest))
      with ("Signature: " ++ sig ++ rest).
    rewrite after_prefix_ci_self, span_alnum_app by assumption.
    destruct sig; [congruence | reflexivity]. }
  assert (Hover : forall u, u <> "" -> String.length u < 11 ->
            after_prefix_ci "Signature: " (u ++ "Signature: " ++ sig ++ rest) = None).
  { intros u. apply signature_words_do_not_overlap. }
  set (tail := "Signature: " ++ sig ++ rest) in *.
  induction pre as [|c pre IH]; [exact Hhere|].
  change (String c pre ++ tail) with (String c (pre ++ tail)).
  rewrite match_signature_step.
  cbn [mentions_signature] in Hpre.
  destruct (after_prefix_ci "Signature: " (String c pre)) eqn:Hc; [discriminate|].
  assert (Hnone : after_prefix_ci "Signature: " (String c (pre ++ tail)) = None).
  { change (String c (pre ++ tail)) with (String c pre ++ tail).
    destruct (Nat.le_gt_cases 11 (String.length (String c pre))) as [Hlong|Hshort].
    - apply after_prefix_ci_long; assumption.
    - apply Hover; [discriminate | exact Hshort]. }
  rewrite Hnone. apply IH. exact Hpre.
Qed.

(** X4.  What the pattern captures.  Whatever the output, a captured signature
    is a non-empty run of letters and digits that stands in the output right
    after the words [Signature: ] written in some letter case, and that the
    next character, if any, does not continue. *)
Theorem signature_is_alphanumeric s group :
  match_signature s = Some group ->
  group <> "" /\ all_alnum group = true
  /\ exists pre words rest,
       s = pre ++ words ++ group ++ rest
       /\ after_prefix_ci "Signature: " words = Some ""
       /\ toLowerCase words = "signature: "
       /\ starts_alnum rest = false.
Proof.
  induction s as [|c s IH]; [discriminate|].
  rewrite match_signature_step. intros H.
  assert (Hrec : match_signature s = Some group ->
                 group <> "" /\ all_alnum group = true
                 /\ exists pre words rest,
                      String c s = pre ++ words ++ group ++ rest
                      /\ after_prefix_ci "Signature: " words = Some ""
                      /\ toLowerCase words = "signature: "
                      /\ starts_alnum rest = false).
  { intros Hs. destruct (IH Hs) as (Hne & Ha & pre & words & rest & -> & Hw & Hlow & Hr).
    repeat split; try assumption. exists (String c pre), words, rest. repeat split; assumption. }
  destruct (after_prefix_ci "Signature: " (String c s)) as [after|] eqn:Hc; [|auto].
  destruct (span_alnum after) as [|g group'] eqn:Hg; [auto|].
  injection H as <-.
  destruct (after_prefix_ci_split _ _ _ Hc) as (words & Hs & Hw).
  destruct (span_alnum_split after) as (rest & Hafter & Ha & Hr).
  rewrite Hg in Hafter, Ha.
  split; [discriminate|]. split; [exact Ha|].
  exists "", words, rest. cbn [append]. rewrite Hs, Hafter at 1.
  repeat split; try assumption.
  apply (after_prefix_ci_lower "Signature: "); [auto | exact Hw].
Qed.

(* --------------------------------------------------------------------- *)
(** ** The calls of the external program *)
(* --------------------------------------------------------------------- *)

Lemma bind_emit {B} e (k : unit -> M B) w : bind (emit e) k w = k tt (tell w [e]).
Proof. reflexivity. Qed.

Lemma bind_ret {A B} (a : A) (k : A -> M B) w : bind (ret a) k w = k a w.
Proof. reflexivity. Qed.

Lemma bind_lift_ok {A B} (a : A) (k : A -> M B) w : bind (lift (Ok a)) k w = k a w.
Proof. reflexivity. Qed.

Lemma bind_lift_throw {A B} e (k : A -> M B) w : bind (lift (Throw e)) k w = (Throw e, w).
Proof. reflexivity. Qed.

Lemma bind_exec {B} cmd (k : ExecOutput -> M B) w :
  bind (execAsync cmd) k w
  = match shell w (executed w) cmd with
    | Ok out => k out (mkWorld (disk w) (console w) (shell w) (S (executed w)))
    | Throw e => (Throw e, mkWorld (disk w) (console w) (shell w) (S (executed w)))
    end.
Proof. unfold bind, execAsync. destruct (shell w (executed w) cmd); reflexivity. Qed.

Lemma ran_refl w : ran w w 0.
Proof. unfold ran. repeat split. Qed.

Lemma ran_tell w evs : ran w (tell w evs) 0.
Proof. unfold ran. cbn. repeat split. Qed.

Lemma ran_trans w1 w2 w3 n m : ran w1 w2 n -> ran w2 w3 m -> ran w1 w3 (m + n).
Proof.
  unfold ran. intros (Hd1 & Hs1 & He1) (Hd2 & Hs2 & He2).
  repeat split; try congruence. lia.
Qed.

Ltac run_emits := repeat (rewrite ?bind_emit, ?bind_ret; cbv beta).

Lemma revokeMint_outcome tokenAddress network results w :
  let r := answer w 0 (revokeMintCmd tokenAddress network) in
  exists w',
    revokeMint tokenAddress network results w
    = (Ok (revocation_results "mintRevoked" "mintRevokeSignature" "mintError" r results), w')
    /\ ran w w' 1.
Proof.
  intros r. unfold revokeMint. unfold_console.
  rewrite bind_emit. unfold try_catch. rewrite bind_emit, bind_exec.
  cbn [tell shell executed disk console].
  change (shell w (executed w) _) with r.
  unfold revocation_results, captured.
  destruct r as [out|e].
  - unfold when.
    destruct (negb (stderr out =? "")%string && negb (includes (stderr out) "Signature:"));
      destruct (stdout out =? "")%string; cbn [negb];
      try destruct (match_signature (stdout out));
      run_emits; eexists; (split; [reflexivity|]); unfold ran; cbn; repeat split.
  - run_emits. eexists. split; [reflexivity|]. unfold ran. cbn. repeat split.
Qed.

Lemma revokeFreeze_outcome tokenAddress network results w :
  let r := answer w 0 (revokeFreezeCmd tokenAddress network) in
  exists w',
    revokeFreeze tokenAddress network results w
    = (Ok (revocation_results "freezeRevoked" "freezeRevokeSignature" "freezeError" r results), w')
    /\ ran w w' 1.
Proof.
  intros r. unfold revokeFreeze. unfold_console.
  rewrite bind_emit. unfold try_catch. rewrite bind_emit, bind_exec.
  cbn [tell shell executed disk console].
  change (shell w (executed w) _) with r.
  unfold revocation_results, captured.
  destruct r as [out|e].
  - unfold when.
    destruct (negb (stderr out =? "")%string && negb (includes (stderr out) "Signature:"));
      destruct (stdout out =? "")%string; cbn [negb];
      try destruct (match_signature (stdout out));
      run_emits; eexists; (split; [reflexivity|]); unfold ran; cbn; repeat split.
  - run_emits. eexists. split; [reflexivity|]. unfold ran. cbn. repeat split.
Qed.

Lemma revokeEach_mint tokenAddress network rest results w :
  revokeEach tokenAddress network ("mint" :: rest) results w
  = bind (revokeMint tokenAddress network results)
         (fun results1 => revokeEach tokenAddress network rest results1) w.
Proof. reflexivity. Qed.

Lemma revokeEach_freeze tokenAddress network rest results w :
  revokeEach tokenAddress network ("freeze" :: rest) results w
  = bind (revokeFreeze tokenAddress network results)
         (fun results1 => revokeEach tokenAddress network rest results1) w.
Proof. reflexivity. Qed.

Lemma answer_after w w' n k cmd : ran w w' n -> answer w' k cmd = answer w (k + n) cmd.
Proof.
  unfold ran, answer. intros (_ & -> & ->). f_equal. lia.
Qed.

Ltac captured_cases :=
  repeat match goal with
         | |- context [captured (Throw ?e)] =>
             change (captured (Throw e)) with (@None string)
         | |- context [captured (Ok ?o)] => destruct (captured (Ok o))
         end.

Lemma revokeEach_chosen w tokenAddress network (mint freeze : bool) :
  let r1 := answer w 0 (revokeMintCmd tokenAddress network) in
  let r2 := answer w (if mint then 1 else 0) (revokeFreezeCmd tokenAddress network) in
  exists w',
    revokeEach tokenAddress network (chosen mint freeze) [] w
    = (Ok (chosen_results mint freeze r1 r2), w')
    /\ ran w w' ((if freeze then 1 else 0) + (if mint then 1 else 0)).
Proof.
  intros r1 r2. unfold chosen, chosen_results.
  destruct mint, freeze; cbn [app].
  - rewrite revokeEach_mint.
    destruct (revokeMint_outcome tokenAddress network [] w) as (w1 & H1 & R1).
    erewrite bind_ok by exact H1. rewrite revokeEach_freeze.
    destruct (revokeFreeze_outcome tokenAddress network
                (revocation_results "mintRevoked" "mintRevokeSignature" "mintError"
                   (answer w 0 (revokeMintCmd tokenAddress network)) []) w1)
      as (w2 & H2 & R2).
    erewrite bind_ok by exact H2.
    rewrite (answer_after w w1 1 0) by exact R1. cbn [Nat.add]. fold r1 r2.
    exists w2. split; [reflexivity|]. exact (ran_trans _ _ _ _ _ R1 R2).
  - rewrite revokeEach_mint.
    destruct (revokeMint_outcome tokenAddress network [] w) as (w1 & H1 & R1).
    erewrite bind_ok by exact H1. fold r1.
    exists w1. split; [reflexivity|]. exact R1.
  - rewrite revokeEach_freeze.
    destruct (revokeFreeze_outcome tokenAddress network [] w) as (w1 & H1 & R1).
    erewrite bind_ok by exact H1. fold r2.
    exists w1. split; [reflexivity|]. exact R1.
  - exists w. split; [reflexivity|]. apply ran_refl.
Qed.

(** X5.  One command for each chosen authority.  For the four answers that the
    checkbox of [revokeAuthorities] can give (the mint authority, the freeze
    authority, both, none), the loop never throws, leaves the disk as it
    is and calls the external program once for each chosen authority, the
    mint authority first.  The flag of an authority is true when its command
    was accepted, even with an empty output, and false when it was refused;
    a refused revocation of the mint authority does not prevent the
    revocation of the freeze authority.  The signature kept is the one
    captured in the output, the error kept is the message of the refusal. *)
Theorem each_authority_gets_one_command w tokenAddress network (mint freeze : bool) :
  let r1 := answer w 0 (revokeMintCmd tokenAddress network) in
  let r2 := answer w (if mint then 1 else 0) (revokeFreezeCmd tokenAddress network) in
  exists results w',
    revokeEach tokenAddress network (chosen mint freeze) [] w = (Ok results, w')
    /\ ran w w' ((if freeze then 1 else 0) + (if mint then 1 else 0))
    /\ field results "mintRevoked" = (if mint then VBool (accepted r1) else VUndefined)
    /\ field results "freezeRevoked" = (if freeze then VBool (accepted r2) else VUndefined)
    /\ field results "mintRevokeSignature" = (if mint then stored_signature r1 else VUndefined)
    /\ field results "freezeRevokeSignature"
       = (if freeze then stored_signature r2 else VUndefined)
    /\ field results "mintError" = (if mint then stored_error r1 else VUndefined)
    /\ field results "freezeError" = (if freeze then stored_error r2 else VUndefined).
Proof.
  intros r1 r2.
  destruct (revokeEach_chosen w tokenAddress network mint freeze) as (w' & Hrun & Hran).
  fold r1 r2 in Hrun. exists (chosen_results mint freeze r1 r2), w'.
  split; [exact Hrun|]. split; [exact Hran|].
  unfold chosen_results, revocation_results, stored_signature, stored_error.
  destruct mint, freeze, r1 as [o1|e1], r2 as [o2|e2]; cbn [accepted];
    captured_cases; repeat split.
Qed.

(* --------------------------------------------------------------------- *)
(** ** The whole revocation *)
(* --------------------------------------------------------------------- *)

Lemma post_trivial {A} (c : M A) : post c (fun _ => True) (fun _ => True).
Proof. intros w. destruct (fst (c w)); exact I. Qed.

Ltac returning_step :=
  lazymatch goal with
  | |- post (ret _) _ _ => apply post_ret; exact I
  | |- post (emit _) _ _ => apply post_emit; exact I
  | |- post (when _ _) _ _ => apply post_when; [exact I|]
  | |- post (bind _ _) _ _ => eapply post_bind with (P' := fun _ => True); [|intros ? _]
  | |- post (try_catch _ _) _ _ =>
      eapply post_try with (Q' := fun _ => True); [apply post_trivial|intros ? _]
  | |- post (if ?b then _ else _) _ _ => destruct b
  | |- post (match ?o with Some _ => _ | None => _ end) _ _ => destruct o
  end.

Ltac returning := unfold_console; repeat returning_step.

Lemma revoke_displayResults_returns tokenAddress network authoritiesToRevoke results :
  post (revoke_displayResults tokenAddress network authoritiesToRevoke results)
       (fun _ => True) (fun _ => False).
Proof.
  unfold revoke_displayResults, displayUtils.displayExplorerLinks. returning.
Qed.

Lemma revoke_displayStatus_returns results :
  post (revoke_displayStatus results) (fun _ => True) (fun _ => False).
Proof. unfold revoke_displayStatus. returning. Qed.

Lemma revoke_updateTokenInfo_returns tokenAddress tokenInfo results now :
  post (revoke_updateTokenInfo tokenAddress tokenInfo results now)
       (fun _ => True) (fun _ => False).
Proof. unfold revoke_updateTokenInfo. returning. Qed.

Lemma post_fst {A} (c : M A) w :
  post c (fun _ => True) (fun _ => False) -> exists a, fst (c w) = Ok a.
Proof. intros H. specialize (H w). destruct (fst (c w)); [eauto|destruct H]. Qed.

Ltac unfold_console_in H :=
  unfold log.separator, log.title, log.info, log.error, log.warning,
    log.success, log.step, spinner.start, spinner.succeed, spinner.warn, spinner.fail,
    spinner.text, console_log in H.

Lemma revoke_failed_says e :
  says (revoke_failed e) (Throw e) (events_of (revoke_failed e)).
Proof.
  apply says_canonical. unfold revoke_failed. unfold_console.
  eexists. eapply says_bind; [apply says_emit|].
  eapply says_bind; [|apply says_throw].
  apply prints_ok_says.
  repeat match goal with
         | |- context [if ?b then _ else _] => destruct b
         end; printing.
Qed.

(** X6.  The revocation ends normally exactly when the configuration command
    is accepted.  If the external program accepts [solana config set], then
    [revokeAuthorities] returns normally whatever it answers to the
    revocations themselves: a refused revocation is reported and is not an
    error of the operation.  If it refuses the configuration, no other
    command is issued, the disk is left as it is, and the error is thrown
    again after the failure of the spinner and the lines of the outer
    handler. *)
Theorem revocation_ends_normally_if_configured
    w tokenAddress tokenInfo authoritiesToRevoke walletFile network now :
  let run := revokeAuthorities tokenAddress tokenInfo authoritiesToRevoke
               walletFile network now w in
  match answer w 0 (configSetCmd walletFile network) with
  | Ok _ => fst run = Ok tt
  | Throw e =>
      fst run = Throw e
      /\ ran w (snd run) 1
      /\ console (snd run)
         = (console w
            ++ [ Spinner SStart "Setting up Solana configuration...";
                 Spinner SText "Configuring Solana CLI with wallet...";
                 Log LInfo ("Setting config: " ++ configSetCmd walletFile network);
                 Spinner SFail "Authority revocation failed" ]
            ++ events_of (revoke_failed e))%list
  end.
Proof.
  intros run.
  assert (Hrun : run = revokeAuthorities tokenAddress tokenInfo authoritiesToRevoke
                         walletFile network now w) by reflexivity.
  clearbody run. unfold revokeAuthorities in Hrun. unfold_console_in Hrun.
  unfold try_catch at 1 in Hrun. rewrite bind_emit in Hrun.
  unfold try_catch at 1 in Hrun.
  rewrite !bind_emit, bind_exec in Hrun. cbn [tell shell executed disk console] in Hrun.
  change (shell w (executed w) _) with (answer w 0 (configSetCmd walletFile network)) in Hrun.
  destruct (answer w 0 (configSetCmd walletFile network)) as [out|e].
  - match type of Hrun with
    | _ = (let (r, w') := let (r0, w'0) := ?c ?w1 in _ in _) =>
        assert (Hpost : post c (fun _ => True) (fun _ => False));
        [|destruct (post_fst c w1 Hpost) as [a Ha]; destruct (c w1) as [[a'|e] w2]]
    end.
    + returning.
      * eapply post_weaken; [apply revokeEach_inv, results_inv_nil|auto|auto].
      * apply revoke_displayResults_returns.
      * apply revoke_updateTokenInfo_returns.
      * apply revoke_displayStatus_returns.
    + subst run. destruct a'. reflexivity.
    + discriminate Ha.
  - rewrite bind_emit in Hrun. unfold throw in Hrun.
    rewrite (revoke_failed_says e) in Hrun. subst run.
    cbn [fst snd tell console]. split; [reflexivity|]. split.
    + unfold ran. cbn. repeat split.
    + unfold configSetCmd. rewrite <- !app_assoc. reflexivity.
Qed.

(** X7.  A revocation after a manual entry of the address never touches the
    store.  When [tokenInfo] is [null] (the address was typed, not chosen
    among the created tokens) no file is created or modified, whatever the
    external program answers. *)
Theorem manual_revocation_keeps_the_disk
    w tokenAddress tokenInfo authoritiesToRevoke walletFile network now :
  truthy tokenInfo = false ->
  disk (snd (revokeAuthorities tokenAddress tokenInfo authoritiesToRevoke
               walletFile network now w))
  = disk w.
Proof.
  intros Hnull. symmetry. revert w.
  change (keeps_disk (revokeAuthorities tokenAddress tokenInfo authoritiesToRevoke
                        walletFile network now)).
  unfold revokeAuthorities. keeping.
  - apply revokeEach_keeps.
  - apply revoke_displayResults_keeps.
  - unfold revoke_updateTokenInfo. rewrite Hnull. apply keeps_ret.
  - apply revoke_displayStatus_keeps.
  - apply revoke_failed_keeps.
Qed.

(* --------------------------------------------------------------------- *)
(** ** Reading the store *)
(* --------------------------------------------------------------------- *)

Lemma reads_ret {A} (a : A) : reads_disk (ret a).
Proof. intros w. exists (Ok a). reflexivity. Qed.

Lemma reads_throw {A} e : reads_disk (@throw A e).
Proof. intros w. exists (Throw e). reflexivity. Qed.

Lemma reads_lift {A} (r : result A) : reads_disk (lift r).
Proof. intros w. exists r. reflexivity. Qed.

Lemma reads_get_disk : reads_disk get_disk.
Proof.
  intros w. exists (Ok (disk w)). intros w' Hw. unfold get_disk. rewrite Hw. reflexivity.
Qed.

Lemma reads_bind {A B} (c : M A) (k : A -> M B) :
  reads_disk c -> (forall a, reads_disk (k a)) -> reads_disk (bind c k).
Proof.
  intros Hc Hk w. destruct (Hc w) as [[a|e] Hr].
  - destruct (Hk a w) as [r Hr']. exists r. intros w' Hw.
    unfold bind. rewrite (Hr w' Hw). apply Hr'. exact Hw.
  - exists (Throw e). intros w' Hw. unfold bind. rewrite (Hr w' Hw). reflexivity.
Qed.

Lemma reads_try {A} (c : M A) h :
  reads_disk c -> (forall e, reads_disk (h e)) -> reads_disk (try_catch c h).
Proof.
  intros Hc Hh w. destruct (Hc w) as [[a|e] Hr].
  - exists (Ok a). intros w' Hw. unfold try_catch. rewrite (Hr w' Hw). reflexivity.
  - destruct (Hh e w) as [r Hr']. exists r. intros w' Hw.
    unfold try_catch. rewrite (Hr w' Hw). apply Hr'. exact Hw.
Qed.

Ltac reading_step :=
  lazymatch goal with
  | |- reads_disk (ret _) => apply reads_ret
  | |- reads_disk (throw _) => apply reads_throw
  | |- reads_disk (lift _) => apply reads_lift
  | |- reads_disk get_disk => apply reads_get_disk
  | |- reads_disk (bind _ _) => apply reads_bind; [|intros]
  | |- reads_disk (try_catch _ _) => apply reads_try; [|intros]
  | |- reads_disk (if ?b then _ else _) => destruct b
  | |- reads_disk (match ?o with Some _ => _ | None => _ end) => destruct o
  end.

Ltac reading := repeat reading_step.

Lemma existsSync_reads_disk p : reads_disk (fs.existsSync p).
Proof. unfold fs.existsSync. reading. Qed.

Lemma readFileSync_reads_disk p : reads_disk (fs.readFileSync p).
Proof. unfold fs.readFileSync. reading. Qed.

Lemma readdirSync_reads_disk p : reads_disk (fs.readdirSync p).
Proof. unfold fs.readdirSync. reading. Qed.

Lemma loadJson_reads_disk p : reads_disk (fileUtils.loadJson p).
Proof.
  unfold fileUtils.loadJson. reading;
    [apply existsSync_reads_disk | apply readFileSync_reads_disk].
Qed.

Lemma listFiles_reads_disk dir ext : reads_disk (fileUtils.listFiles dir ext).
Proof.
  unfold fileUtils.listFiles. reading;
    [apply existsSync_reads_disk | apply readdirSync_reads_disk].
Qed.

Lemma hasMintAddress_reads_disk tokenAddress file :
  reads_disk (hasMintAddress tokenAddress file).
Proof. unfold hasMintAddress. reading. apply loadJson_reads_disk. Qed.

Lemma find_file_reads_disk tokenAddress l :
  reads_disk (find_file (hasMintAddress tokenAddress) l).
Proof.
  induction l as [|file l IH]; cbn [find_file]; reading;
    [apply hasMintAddress_reads_disk | exact IH].
Qed.

Lemma findTokenFile_reads_disk tokenAddress : reads_disk (findTokenFile tokenAddress).
Proof.
  unfold findTokenFile, tokenUtils.listTokens. reading;
    [apply listFiles_reads_disk | apply find_file_reads_disk].
Qed.

Lemma reads_same {A} (c : M A) w w' r :
  reads_disk c -> c w = (r, w) -> disk w' = disk w -> c w' = (r, w').
Proof.
  intros Hc Hr Hw. destruct (Hc w) as [r' Hr'].
  rewrite (Hr' w eq_refl) in Hr. injection Hr as <-. apply Hr'. exact Hw.
Qed.

(* --------------------------------------------------------------------- *)
(** ** Writing a value and reading it back *)
(* --------------------------------------------------------------------- *)

(** What [saveJson] does to a value that is not [undefined], at a path that
    can be written: the file holds the text of the value, and a later
    [loadJson] gives the value without its [undefined] parts. *)
Lemma saveJson_written w filePath data :
  storable data = true -> is_undefined data = false ->
  writable (disk w) filePath ->
  exists content w',
    JSON.stringify data = Some content
    /\ fileUtils.saveJson filePath data w = (Ok tt, w')
    /\ console w' = console w /\ shell w' = shell w /\ executed w' = executed w
    /\ files (disk w') = set_prop filePath content (files (disk w))
    /\ forall w'', disk w'' = disk w' ->
         fileUtils.loadJson filePath w'' = (Ok (normalize data), w'').
Proof.
  intros Hk Hu (Hnd & Hnf & Hne).
  destruct (serialize_defined "" data Hu) as [content Hs].
  pose proof (parse_stringify data content Hk Hs) as Hp.
  destruct (ensureDir_run (path_dirname filePath) w Hnf) as (d' & He & Hfiles & Hdir & Hother).
  exists content. unfold fileUtils.saveJson. erewrite bind_ok by exact He.
  unfold stringify in Hs |- *. rewrite Hs. rewrite writeFileSync_run.
  - eexists. split; [reflexivity|]. split; [reflexivity|].
    cbn [with_disk console shell executed disk files]. repeat split.
    + rewrite Hfiles. reflexivity.
    + intros w'' Hw. erewrite loadJson_run.
      * unfold parse in Hp |- *. rewrite Hp. reflexivity.
      * rewrite Hw. cbn. apply assoc_set_prop_eq.
  - cbn. rewrite Hother by congruence. exact Hnd.
  - exact Hdir.
Qed.

Lemma assoc_not_in {A} k (l : list (string * A)) :
  existsb (String.eqb k) (map fst l) = false -> assoc k l = None.
Proof.
  induction l as [|[k' a] l IH]; cbn; [reflexivity|].
  intros H. apply orb_false_elim in H as [H1 H2]. rewrite H1. auto.
Qed.

Lemma map_fst_norm_member l : map fst (map norm_member l) = map fst l.
Proof. rewrite map_map. apply map_ext. intros [k v]. reflexivity. Qed.

Lemma is_undefined_eq v : is_undefined v = true -> v = VUndefined.
Proof. destruct v; try discriminate. reflexivity. Qed.

(** Reading a property of an object that went through the store. *)
Lemma field_normalized props k :
  distinct (map fst props) = true ->
  field (map norm_member (filter defined props)) k = normalize (field props k).
Proof.
  induction props as [|[k' v] props IH]; intros Hd; [reflexivity|].
  cbn [map fst distinct] in Hd. apply andb_prop in Hd as [Hfresh Hd].
  apply negb_true_iff in Hfresh.
  unfold field in *. cbn [filter assoc]. unfold defined at 1. cbn [snd].
  destruct (String.eqb k k') eqn:Hk.
  - apply String.eqb_eq in Hk. subst k'.
    destruct (is_undefined v) eqn:Hu; cbn [negb].
    + rewrite assoc_not_in.
      * apply is_undefined_eq in Hu. subst v. reflexivity.
      * rewrite map_fst_norm_member. apply existsb_filter_false. exact Hfresh.
    + cbn [map assoc norm_member fst snd]. rewrite String.eqb_refl. reflexivity.
  - destruct (is_undefined v) eqn:Hu; cbn [negb].
    + apply IH. exact Hd.
    + cbn [map assoc norm_member fst snd]. rewrite Hk. apply IH. exact Hd.
Qed.

Lemma get_prop_normalized props k :
  distinct (map fst props) = true ->
  get_prop (normalize (VObj props)) k = Ok (normalize (field props k)).
Proof.
  intros Hd. rewrite normalize_obj, get_prop_obj. f_equal. apply field_normalized. exact Hd.
Qed.

Lemma keys_ordered_norm l : keys_ordered (map norm_member l) = keys_ordered l.
Proof.
  unfold keys_ordered. rewrite map_map. f_equal.
Qed.

Lemma storable_representable v :
  storable v = true -> is_undefined v = false -> representable (normalize v) = true.
Proof.
  induction v as [| |b|z|s|items IH|props IH|x|units|props IH] using value_ind';
    intros Hs Hu; try discriminate; try reflexivity.
  - exact Hs.
  - rewrite normalize_arr. cbn [representable storable] in *.
    rewrite forallb_forall in Hs. rewrite Forall_forall in IH.
    apply forallb_forall. intros y Hy. apply in_map_iff in Hy as (x & <- & Hx).
    unfold norm_elem. destruct (is_undefined x) eqn:Hx'; [reflexivity|].
    apply IH; auto.
  - rewrite normalize_obj. apply storable_obj in Hs as (Hd & Ho & Hs).
    cbn [representable]. rewrite map_fst_norm_member.
    rewrite distinct_filter by exact Hd.
    rewrite keys_ordered_norm, keys_ordered_filter by exact Ho. cbn [andb].
    rewrite forallb_forall in Hs. rewrite Forall_forall in IH.
    apply forallb_forall. intros y Hy. apply in_map_iff in Hy as ([k x] & <- & Hx).
    apply filter_In in Hx as [Hx Hdef]. unfold defined in Hdef. cbn [snd] in *.
    apply negb_true_iff in Hdef. apply (IH (k, x)); auto.
  - destruct x; [discriminate|reflexivity].
  - exact Hs.
Qed.


(* --------------------------------------------------------------------- *)
(** ** The record after a mint *)
(* --------------------------------------------------------------------- *)

Lemma storable_set_prop props k v :
  storable (VObj props) = true -> storable v = true -> plain_name k = true ->
  storable (VObj (set_prop k v props)) = true.
Proof.
  intros H Hv Hn. apply storable_obj in H as (Hd & Ho & Hk). cbn [storable].
  rewrite set_prop_distinct by exact Hd.
  rewrite keys_ordered_set_prop by assumption. cbn [andb].
  apply set_prop_forallb; auto.
Qed.

Lemma files_elsewhere (l : list (string * string)) file content f :
  f <> file -> assoc f (set_prop file content l) = assoc f l.
Proof.
  intros Hf. rewrite assoc_set_prop. apply String.eqb_neq in Hf. rewrite Hf. reflexivity.
Qed.


(* --------------------------------------------------------------------- *)
(** ** The record after a revocation *)
(* --------------------------------------------------------------------- *)

Ltac branches :=
  repeat match goal with
         | |- context [if ?b then _ else _] => destruct b
         end.

Lemma revoke_displayResults_prints tokenAddress network authoritiesToRevoke results :
  prints_ok (revoke_displayResults tokenAddress network authoritiesToRevoke results).
Proof.
  unfold revoke_displayResults, when, displayUtils.displayExplorerLinks.
  branches; printing.
Qed.

Lemma revoke_displayStatus_prints results : prints_ok (revoke_displayStatus results).
Proof. unfold revoke_displayStatus, when. branches; printing. Qed.

Lemma match_signature_nonempty s group : match_signature s = Some group -> group <> "".
Proof.
  induction s as [|c s IH]; [discriminate|].
  rewrite match_signature_step.
  destruct (after_prefix_ci "Signature: " (String c s)) as [after|]; [|exact IH].
  destruct (span_alnum after) as [|g group']; [exact IH|].
  intros H. injection H as <-. discriminate.
Qed.

Lemma captured_nonempty r s : captured r = Some s -> truthy (VStr s) = true.
Proof.
  unfold captured. destruct r as [out|e]; [|discriminate].
  destruct (String.eqb (stdout out) ""); [discriminate|].
  intros H. apply match_signature_nonempty in H. cbn.
  apply String.eqb_neq in H. rewrite H. reflexivity.
Qed.

Lemma says_run {A} (c : M A) r evs w : says c r evs -> c w = (r, tell w evs).
Proof. intros H. apply H. Qed.

Lemma revoke_update_written w0 w tokenAddress props results now file :
  storable (VObj props) = true ->
  forallb (fun kv => primitive (snd kv)) results = true ->
  findTokenFile tokenAddress w0 = (Ok (Some file), w0) -> file <> "" ->
  writable (disk w0) file -> disk w = disk w0 ->
  exists w',
    revoke_updateTokenInfo tokenAddress (VObj props) results now w = (Ok tt, w')
    /\ shell w' = shell w /\ executed w' = executed w
    /\ (forall f, f <> file -> assoc f (files (disk w')) = assoc f (files (disk w0)))
    /\ forall w'', disk w'' = disk w' ->
         fileUtils.loadJson file w''
         = (Ok (normalize (VObj (set_props props (revoke_updates props results now)))), w'').
Proof.
  intros Hk Hprim Hfind Hfile Hw Hdisk.
  pose proof (updatedInfo_storable props results now Hk Hprim) as Hkd.
  rewrite <- Hdisk in Hw.
  destruct (saveJson_written w file _ Hkd eq_refl Hw)
    as (content & w1 & _ & Hsave & Hc & Hsh & Hex & Hfiles & Hload).
  exists (tell w1 [Log LInfo "Token info updated with revocation details"]).
  split.
  { unfold revoke_updateTokenInfo. cbn [truthy]. unfold try_catch.
    erewrite bind_ok
      by (eapply reads_same; [apply findTokenFile_reads_disk | exact Hfind | exact Hdisk]).
    cbv beta iota. apply String.eqb_neq in Hfile. rewrite Hfile. cbn [negb].
    rewrite revoke_updatedInfo_obj, bind_lift_ok.
    erewrite bind_ok by exact Hsave. reflexivity. }
  cbn [tell shell executed disk]. repeat split; try assumption.
  intros f Hf. rewrite Hfiles, Hdisk. apply files_elsewhere. exact Hf.
Qed.

Lemma field_revoke_updates props results now k :
  field (set_props props (revoke_updates props results now)) k
  = if String.eqb k "lastRevokeDate" then VStr now
    else if String.eqb k "freezeRevokeTransaction"
    then js_or (field results "freezeRevokeSignature") (field props "freezeRevokeTransaction")
    else if String.eqb k "mintRevokeTransaction"
    then js_or (field results "mintRevokeSignature") (field props "mintRevokeTransaction")
    else if String.eqb k "freezeAuthorityRevoked"
    then js_or (field results "freezeRevoked") (field props "freezeAuthorityRevoked")
    else if String.eqb k "mintAuthorityRevoked"
    then js_or (field results "mintRevoked") (field props "mintAuthorityRevoked")
    else field props k.
Proof.
  unfold revoke_updates. cbn [set_props fold_left fst snd].
  rewrite !field_set_prop. reflexivity.
Qed.

Lemma chosen_results_fields mint freeze r1 r2 :
  let results := chosen_results mint freeze r1 r2 in
  field results "mintRevoked" = (if mint then VBool (accepted r1) else VUndefined)
  /\ field results "freezeRevoked" = (if freeze then VBool (accepted r2) else VUndefined)
  /\ field results "mintRevokeSignature" = (if mint then stored_signature r1 else VUndefined)
  /\ field results "freezeRevokeSignature"
     = (if freeze then stored_signature r2 else VUndefined).
Proof.
  unfold chosen_results, revocation_results, stored_signature.
  destruct mint, freeze, r1 as [o1|e1], r2 as [o2|e2]; cbn [accepted];
    captured_cases; repeat split.
Qed.

Lemma stored_signature_or r v :
  js_or (stored_signature r) v
  = match captured r with Some signature => VStr signature | None => v end.
Proof.
  unfold stored_signature. destruct (captured r) as [s|] eqn:E; [|reflexivity].
  unfold js_or. rewrite (captured_nonempty r s E). reflexivity.
Qed.


(* --------------------------------------------------------------------- *)
(** ** The account decoder on every typed array *)
(* --------------------------------------------------------------------- *)

Lemma le_bytes_to_N_bound bs : (le_bytes_to_N bs < 256 ^ N.of_nat (List.length bs))%N.
Proof.
  induction bs as [|b bs IH]; [cbn; lia|].
  cbn [le_bytes_to_N List.length]. rewrite Nat2N.inj_succ, N.pow_succ_r'.
  pose proof (Byte.to_N_bounded b). lia.
Qed.

Lemma byte_at_bound bs i : (byte_at bs i <= 255)%N.
Proof. unfold byte_at. apply Byte.to_N_bounded. Qed.

(** X11.  The decoder never fails on a typed array.  For every [Uint8Array],
    whatever its length and its offset in its buffer, the decoding step of
    [checkToken] returns without throwing and without printing: the warning
    of its handler is never shown.  It gives no snapshot exactly when the
    array has fewer than 82 bytes, and the supply of a snapshot is below
    2^64 and its decimals a number from 0 to 255. *)
Theorem decoder_never_warns mintData :
  u8_wf mintData ->
  exists mintInfo,
    (forall w, parseMintAccount mintData w = (Ok mintInfo, w))
    /\ (mintInfo = None <-> u8_length mintData < 82)
    /\ (forall mi, mintInfo = Some mi ->
          (supply mi < 2 ^ 64)%N
          /\ exists d, decimals mi = VNum d /\ (0 <= d <= 255)%Z).
Proof.
  intros Hwf. destruct (le_lt_dec 82 (u8_length mintData)) as [Hlen|Hlen].
  - eexists. split; [|split].
    + intros w. unfold parseMintAccount. erewrite try_ok; [reflexivity|].
      unfold lift. rewrite decodeMint_spec by assumption. reflexivity.
    + split; [discriminate | lia].
    + intros mi Hmi. injection Hmi as <-. cbn [supply decimals]. split.
      * set (bytes := firstn 8 (skipn 36 (u8_bytes mintData))).
        pose proof (le_bytes_to_N_bound bytes) as Hb.
        assert (Hp : (256 ^ N.of_nat (List.length bytes) <= 256 ^ 8)%N).
        { apply N.pow_le_mono_r; [lia|]. unfold bytes. rewrite length_firstn. lia. }
        replace (2 ^ 64)%N with (256 ^ 8)%N by reflexivity.
        eapply N.lt_le_trans; [exact Hb | exact Hp].
      * eexists. split; [reflexivity|].
        pose proof (byte_at_bound (u8_bytes mintData) 44). lia.
  - exists None. split; [|split].
    + intros w. unfold parseMintAccount, decodeMint.
      replace (82 <=? u8_length mintData) with false
        by (symmetry; apply Nat.leb_gt; exact Hlen).
      reflexivity.
    + split; [intros _; exact Hlen | reflexivity].
    + intros mi Hmi. discriminate.
Qed.

(* --------------------------------------------------------------------- *)
(** ** An inspection that cannot reach the network *)
(* --------------------------------------------------------------------- *)

Lemma checkToken_failed_says e :
  says (checkToken_failed e) (Throw e) (events_of (checkToken_failed e)).
Proof.
  apply says_canonical. unfold checkToken_failed. unfold_console.
  eexists. eapply says_bind; [apply says_emit|].
  eapply says_bind; [|apply says_throw].
  apply prints_ok_says. branches; printing.
Qed.

(** X12.  An inspection whose connection or account lookup fails throws the
    error again.  When the set-up of the client or the lookup of the mint
    account throws, [checkToken] prints no part of the report: the spinner
    fails, the outer handler prints the line of the failure and its hints,
    and the same error is thrown to the caller. *)
Theorem rpc_failure_is_thrown_again
    tokenAddress tokenInfo network e getAccount fm fetch action :
  says (checkToken tokenAddress tokenInfo network (Throw e) getAccount fm fetch action)
       (Throw e)
       ([ Spinner SStart "Fetching token information...";
          Spinner SFail "Failed to fetch token information" ]
        ++ events_of (checkToken_failed e))%list
  /\ says (checkToken tokenAddress tokenInfo network (Ok tt) (Throw e) fm fetch action)
          (Throw e)
          ([ Spinner SStart "Fetching token information...";
             Spinner SText "Checking mint account...";
             Spinner SFail "Failed to fetch token information" ]
           ++ events_of (checkToken_failed e))%list
  /\ exists hints,
       events_of (checkToken_failed e)
       = Log LError ("Token check failed: " ++ error_message e) :: hints
       /\ ~ In mint_account_exists hints.
Proof.
  split; [|split].
  - unfold checkToken. unfold_console.
    eapply says_try_throw; [|apply checkToken_failed_says].
    change [Spinner SStart "Fetching token information...";
            Spinner SFail "Failed to fetch token information"]
      with ([Spinner SStart "Fetching token information..."]
            ++ ([] ++ [Spinner SFail "Failed to fetch token information"] ++ []))%list.
    eapply says_bind; [apply says_emit|].
    eapply says_try_throw.
    + apply says_bind_throw. apply says_lift.
    + eapply says_bind; [apply says_emit | apply says_throw].
  - unfold checkToken. unfold_console.
    eapply says_try_throw; [|apply checkToken_failed_says].
    change [Spinner SStart "Fetching token information...";
            Spinner SText "Checking mint account...";
            Spinner SFail "Failed to fetch token information"]
      with ([Spinner SStart "Fetching token information..."]
            ++ (([] ++ [Spinner SText "Checking mint account..."] ++ [])
                ++ [Spinner SFail "Failed to fetch token information"] ++ []))%list.
    eapply says_bind; [apply says_emit|].
    eapply says_try_throw.
    + eapply says_bind; [apply says_lift|].
      eapply says_bind; [apply says_emit|].
      apply says_bind_throw. apply says_lift.
    + eapply says_bind; [apply says_emit | apply says_throw].
  - unfold checkToken_failed, events_of. unfold_console.
    branches; eexists; (split; [reflexivity|]); cbn;
      unfold mint_account_exists; intuition discriminate.
Qed.

(* --------------------------------------------------------------------- *)
(** ** Listing a directory *)
(* --------------------------------------------------------------------- *)

(** X13.  What [listFiles] lists.  A directory that does not exist gives the
    empty list, not an error, while a regular file in the place of the
    directory makes the listing throw.  When it returns, the world is as it
    was and every path listed is the directory joined with the name of one
    of its entries, a name that ends with the extension when one is given:
    [listTokens] and [listWallets] only see the entries whose name ends with
    [.json]. *)
Theorem listFiles_selects_by_extension dirPath extension w :
  let run := fileUtils.listFiles dirPath extension w in
  (is_file (disk w) dirPath = false -> is_dir (disk w) dirPath = false ->
     run = (Ok [], w))
  /\ (is_file (disk w) dirPath = true -> is_dir (disk w) dirPath = false ->
        exists e, run = (Throw e, w))
  /\ (forall l, fst run = Ok l ->
        snd run = w
        /\ forall p, In p l ->
             exists name,
               p = path_join dirPath name
               /\ (extension <> "" -> endsWith name extension = true)).
Proof.
  intros run. subst run. unfold fileUtils.listFiles.
  erewrite bind_ok by apply existsSync_run.
  split; [|split].
  - intros -> ->. reflexivity.
  - intros Hf Hd. rewrite Hf, Hd. cbn [orb negb]. unfold fs.readdirSync.
    unfold bind at 1. unfold bind at 1. cbn [get_disk]. unfold get_disk.
    rewrite Hd, Hf. eexists. reflexivity.
  - intros l. destruct (is_file (disk w) dirPath || is_dir (disk w) dirPath); cbn [negb].
    + destruct (readdirSync_reads dirPath w) as [[names|e] Hr].
      * erewrite bind_ok by exact Hr. cbn [ret fst snd]. intros H. injection H as <-.
        split; [reflexivity|]. intros p Hp.
        apply in_map_iff in Hp as (name & <- & Hn). apply filter_In in Hn as [_ Hn].
        exists name. split; [reflexivity|]. intros Hext.
        apply String.eqb_neq in Hext. rewrite Hext in Hn. exact Hn.
      * erewrite bind_throw by exact Hr. discriminate.
    + cbn [ret fst snd]. intros H. injection H as <-. split; [reflexivity|]. intros p [].
Qed.

(* --------------------------------------------------------------------- *)
(** ** The configuration of a new token *)
(* --------------------------------------------------------------------- *)

(** X14.  What [validateTokenConfig] accepts.  For a configuration whose name,
    symbol and description are texts and whose decimals are an integer or
    are missing, the validation returns true exactly when the three texts
    are not empty, the symbol has at most 10 characters and the decimals, if
    any, are from 0 to 18; missing decimals are accepted.  Otherwise it
    throws, and never returns false: the empty fields are reported first,
    all of them in the order name, symbol, description, then the length of
    the symbol, then the decimals. *)
Theorem validateTokenConfig_accepts {order : StringOrder}
    props name symbol description :
  field props "name" = VStr name -> field props "symbol" = VStr symbol ->
  field props "description" = VStr description ->
  (field props "decimals" = VUndefined \/ exists d, field props "decimals" = VNum d) ->
  let in_range := forall d, field props "decimals" = VNum d -> (0 <= d <= 18)%Z in
  (validateTokenConfig (VObj props) = Ok true
   <-> empty_fields name symbol description = []
       /\ String.length symbol <= 10 /\ in_range)
  /\ validateTokenConfig (VObj props) <> Ok false
  /\ (empty_fields name symbol description <> [] ->
        validateTokenConfig (VObj props)
        = Throw (Error ("Missing required fields: "
                          ++ String.concat ", " (empty_fields name symbol description))))
  /\ (empty_fields name symbol description = [] -> 10 < String.length symbol ->
        validateTokenConfig (VObj props)
        = Throw (Error "Token symbol should be 10 characters or less"))
  /\ (empty_fields name symbol description = [] -> String.length symbol <= 10 ->
        ~ in_range ->
        validateTokenConfig (VObj props) = Throw (Error "Decimals must be between 0 and 18")).
Proof.
  intros Hn Hs Hd Hdec in_range.
  assert (Hrun : validateTokenConfig (VObj props)
                 = match empty_fields name symbol description with
                   | [] =>
                       if (10 <? String.length symbol)
                       then Throw (Error "Token symbol should be 10 characters or less")
                       else match field props "decimals" with
                            | VNum d =>
                                if ((d <? 0) || (18 <? d))%Z
                                then Throw (Error "Decimals must be between 0 and 18")
                                else Ok true
                            | _ => Ok true
                            end
                   | missing =>
                       Throw (Error ("Missing required fields: "
                                       ++ String.concat ", " missing))
                   end).
  { set (long := 10 <? String.length symbol).
    assert (Hlong : (10 <? Z.of_nat (String.length symbol))%Z = long).
    { subst long. destruct (Nat.ltb_spec 10 (String.length symbol));
        [apply Z.ltb_lt | apply Z.ltb_ge]; lia. }
    unfold validateTokenConfig, empty_fields. cbn [missing_fields].
    rewrite !get_prop_obj, Hn, Hs, Hd. cbn [rbind truthy filter snd fst map].
    destruct (String.eqb name ""), (String.eqb symbol ""), (String.eqb description "");
      cbn [negb map fst List.length Nat.ltb Nat.leb]; try reflexivity.
    cbn [js_length js_gt]. rewrite Hlong.
    destruct long; [reflexivity|].
    destruct Hdec as [-> | [d ->]]; reflexivity. }
  rewrite Hrun. clear Hrun.
  assert (Hcases : forall d, field props "decimals" = VNum d ->
            ((d <? 0) || (18 <? d))%Z = false <-> (0 <= d <= 18)%Z).
  { intros d _. rewrite orb_false_iff, !Z.ltb_ge. lia. }
  destruct (empty_fields name symbol description) as [|m missing] eqn:Hm.
  - destruct (Nat.ltb_spec 10 (String.length symbol)) as [Hlong|Hshort].
    + repeat split; try discriminate; try congruence; try lia.
      all: try (intros (_ & Hl & _); lia).
    + destruct Hdec as [Hu | [d Hv]].
      * rewrite Hu. repeat split; try discriminate; try congruence; try lia.
        all: try (intros d Hd'; congruence).
        all: try (intros _ _ Hno; exfalso; apply Hno; intros d Hd'; congruence).
      * rewrite Hv. pose proof (Hcases d Hv) as Hc.
        destruct ((d <? 0) || (18 <? d))%Z.
        -- assert (Hout : ~ (0 <= d <= 18)%Z).
           { intros Hin. apply Hc in Hin. discriminate. }
           repeat split; try discriminate; try congruence; try lia.
           all: try (intros (_ & _ & Hin); exfalso; apply Hout, Hin, Hv).
        -- assert (Hin : (0 <= d <= 18)%Z) by (apply Hc; reflexivity).
           repeat split; try discriminate; try congruence; try lia.
           all: try (intros d' Hd'; rewrite Hv in Hd'; injection Hd' as <-; lia).
           all: try (intros _ _ Hno; exfalso; apply Hno; intros d' Hd';
                     rewrite Hv in Hd'; injection Hd' as <-; lia).
           all: match goal with
                | Hd' : field _ "decimals" = VNum ?d' |- _ =>
                    rewrite Hv in Hd'; injection Hd' as <-; lia
                end.
  - repeat split; try discriminate; try congruence.
    all: try (intros (Hcontra & _); discriminate).
Qed.

(* --------------------------------------------------------------------- *)
(** ** The wallet *)
(* --------------------------------------------------------------------- *)

Ltac wallet_goal :=
  first
    [ solve [discriminate]
    | solve [congruence]
    | solve [intros H; injection H as <-; reflexivity]
    | solve [intros x H; injection H as <-; reflexivity]
    | solve [intros; discriminate]
    | solve [intros; congruence]
    | solve [intros (c & its & Hc & Hp' & Hl' & Hv);
             try discriminate Hc; injection Hc as <-; congruence] ].

Ltac wallet_case := solve [cbn [fst snd]; repeat split; wallet_goal].

(** X15.  [loadWallet] checks the shape of the wallet, not its content.  It
    returns the content of the file exactly when the file exists and holds
    a JSON array of 64 items, whatever the items are; it then prints one
    line of success and changes nothing else.  In every other case it prints
    one line with the message of the error and throws that error; a file
    that does not exist is reported as not found. *)
Theorem loadWallet_checks_the_shape_only walletPath w :
  let run := loadWallet walletPath w in
  (forall walletData,
      fst run = Ok walletData
      <-> exists content items,
            assoc walletPath (files (disk w)) = Some content
            /\ JSON.parse content = Ok (VArr items)
            /\ List.length items = 64 /\ walletData = VArr items)
  /\ (forall walletData,
        fst run = Ok walletData ->
        snd run = tell w [Log LSuccess ("Wallet loaded: " ++ walletPath)])
  /\ (forall e,
        fst run = Throw e ->
        snd run = tell w [Log LError ("Failed to load wallet: " ++ error_message e)])
  /\ (is_file (disk w) walletPath = false -> is_dir (disk w) walletPath = false ->
        fst run = Throw (Error ("Wallet file not found: " ++ walletPath))).
Proof.
  intros run.
  assert (Hrun :
    run = match assoc walletPath (files (disk w)) with
          | Some content =>
              match JSON.parse content with
              | Ok (VArr items) =>
                  if List.length items =? 64
                  then (Ok (VArr items),
                        tell w [Log LSuccess ("Wallet loaded: " ++ walletPath)])
                  else (Throw (Error "Invalid wallet format. Expected array of 64 numbers."),
                        tell w [Log LError ("Failed to load wallet: "
                                  ++ "Invalid wallet format. Expected array of 64 numbers.")])
              | Ok _ =>
                  (Throw (Error "Invalid wallet format. Expected array of 64 numbers."),
                   tell w [Log LError ("Failed to load wallet: "
                             ++ "Invalid wallet format. Expected array of 64 numbers.")])
              | Throw e =>
                  (Throw e, tell w [Log LError ("Failed to load wallet: " ++ error_message e)])
              end
          | None =>
              if is_dir (disk w) walletPath
              then match fst (fileUtils.loadJson walletPath w) with
                   | Throw e =>
                       (Throw e,
                        tell w [Log LError ("Failed to load wallet: " ++ error_message e)])
                   | Ok v => (Ok v, w)
                   end
              else (Throw (Error ("Wallet file not found: " ++ walletPath)),
                    tell w [Log LError ("Failed to load wallet: "
                              ++ "Wallet file not found: " ++ walletPath)])
          end).
  { subst run. unfold loadWallet, fileUtils.exists_. unfold_console. unfold try_catch.
    erewrite bind_ok by apply existsSync_run. unfold is_file.
    destruct (assoc walletPath (files (disk w))) as [content|] eqn:Ha.
    - cbn [orb negb]. rewrite bind_ret. unfold bind at 1.
      rewrite (loadJson_run _ _ _ Ha).
      destruct (JSON.parse content) as [v|e] eqn:Hp; [|reflexivity].
      destruct v as [| |b|z|s|items|ps|x|units|ps]; try reflexivity.
      cbn [isArray negb orb js_length strict_eq].
      replace (Z.of_nat (List.length items) =? 64)%Z with (List.length items =? 64)
        by (destruct (Nat.eqb_spec (List.length items) 64);
            symmetry; [apply Z.eqb_eq | apply Z.eqb_neq]; lia).
      destruct (List.length items =? 64); reflexivity.
    - cbn [orb]. destruct (is_dir (disk w) walletPath); cbn [negb].
      + rewrite bind_ret. unfold bind at 1.
        destruct (loadJson_no_file walletPath w Ha) as [e He]. rewrite He. reflexivity.
      + reflexivity. }
  clearbody run. subst run.
  destruct (assoc walletPath (files (disk w))) as [content|] eqn:Ha.
  - assert (Hfile : is_file (disk w) walletPath = true) by (unfold is_file; rewrite Ha; reflexivity).
    destruct (JSON.parse content) as [v|e] eqn:Hp.
    + destruct v as [| |b|z|s|items|ps|re|units|ps]; try wallet_case.
      destruct (Nat.eqb_spec (List.length items) 64) as [Hl|Hl]; try wallet_case.
      cbn [fst snd]. repeat split; try wallet_goal.
      intros H. injection H as <-. exists content, items. auto.
    + wallet_case.
  - assert (Hfile : is_file (disk w) walletPath = false) by (unfold is_file; rewrite Ha; reflexivity).
    destruct (is_dir (disk w) walletPath) eqn:Hdir.
    + destruct (loadJson_no_file walletPath w Ha) as [e He]. rewrite He. wallet_case.
    + wallet_case.
Qed.

(* --------------------------------------------------------------------- *)
(** ** The record of a new token *)
(* --------------------------------------------------------------------- *)


(* --------------------------------------------------------------------- *)
(** ** The upload of the metadata *)
(* --------------------------------------------------------------------- *)


(* --------------------------------------------------------------------- *)
(** ** The text of a signature *)
(* --------------------------------------------------------------------- *)

Lemma hex_byte_decode b r :
  hex_decode (hex_byte b ++ r)
  = match hex_decode r with Some l => Some (b :: l) | None => None end.
Proof. destruct b; reflexivity. Qed.

Lemma hex_byte_chars b r : all_hex (hex_byte b ++ r) = all_hex r.
Proof. destruct b; reflexivity. Qed.

Lemma signature_hex_cons b l : signature_hex (b :: l) = hex_byte b ++ signature_hex l.
Proof.
  unfold signature_hex. cbn [map String.concat].
  destruct (map hex_byte l) eqn:E; [|reflexivity].
  cbn [String.concat]. rewrite append_nil_r. reflexivity.
Qed.

(** X18.  The text of a signature holds the signature.  The text made of the
    bytes of a signature, which the record keeps as the transaction of
    creation or of update and which the links are built from, has two
    characters for each byte, all of them digits or letters from a to f,
    and the bytes can be read back from it: two signatures with the same
    text are the same. *)
Theorem signature_hex_is_faithful signature :
  String.length (signature_hex signature) = 2 * List.length signature
  /\ all_hex (signature_hex signature) = true
  /\ hex_decode (signature_hex signature) = Some signature
  /\ (forall other, signature_hex other = signature_hex signature -> other = signature).
Proof.
  assert (Hdec : forall l, hex_decode (signature_hex l) = Some l).
  { induction l as [|b l IH]; [reflexivity|].
    rewrite signature_hex_cons, hex_byte_decode, IH. reflexivity. }
  split; [|split; [|split]].
  - induction signature as [|b l IH]; [reflexivity|].
    rewrite signature_hex_cons, length_append, IH. cbn [List.length].
    replace (String.length (hex_byte b)) with 2 by reflexivity. lia.
  - induction signature as [|b l IH]; [reflexivity|].
    rewrite signature_hex_cons, hex_byte_chars. exact IH.
  - apply Hdec.
  - intros other Heq. pose proof (Hdec other) as H1. rewrite Heq, Hdec in H1.
    injection H1 as <-. reflexivity.
Qed.

(* --------------------------------------------------------------------- *)
(** ** The created tokens *)
(* --------------------------------------------------------------------- *)

Lemma get_prop_record data k :
  is_record data = true -> get_prop data k = Ok (prop_of data k).
Proof.
  unfold prop_of. destruct data; try discriminate; intros _; cbn [get_prop];
    try reflexivity.
  - destruct (assoc k props); reflexivity.
  - destruct (assoc_units (units_of k) props); reflexivity.
Qed.

Lemma get_prop_not_record data k :
  is_record data = false -> get_prop data k = Throw (not_a_record data k).
Proof. unfold not_a_record. destruct data; try discriminate; reflexivity. Qed.

Lemma loadJson_stored file w : fileUtils.loadJson file w = (stored w file, w).
Proof.
  unfold stored. destruct (assoc file (files (disk w))) as [content|] eqn:Ha.
  - apply loadJson_run. exact Ha.
  - unfold fileUtils.loadJson. erewrite bind_ok by apply existsSync_run.
    unfold is_file. rewrite Ha. cbn [orb].
    destruct (is_dir (disk w) file) eqn:Hd; cbn [negb]; [|reflexivity].
    unfold fs.readFileSync, bind, get_disk. rewrite Ha, Hd. reflexivity.
Qed.

Lemma tokenChoice_run file w : tokenChoice file w = (Ok (entry_of w file), w).
Proof.
  unfold tokenChoice, entry_of, try_catch.
  pose proof (loadJson_stored file w) as Hr.
  destruct (stored w file) as [data|e].
  - erewrite bind_ok by exact Hr. destruct (is_record data) eqn:Hd.
    + rewrite !get_prop_record by exact Hd. reflexivity.
    + rewrite (get_prop_not_record data "name") by exact Hd. reflexivity.
  - erewrite bind_throw by exact Hr. reflexivity.
Qed.

Lemma js_map_tokenChoice tokenFiles w :
  js_map tokenChoice tokenFiles w = (Ok (map (entry_of w) tokenFiles), w).
Proof.
  induction tokenFiles as [|file l IH]; [reflexivity|].
  cbn [js_map map]. erewrite bind_ok by apply tokenChoice_run.
  erewrite bind_ok by exact IH. reflexivity.
Qed.


Lemma loadJson_same p w w1 :
  disk w1 = disk w ->
  fileUtils.loadJson p w1 = (fst (fileUtils.loadJson p w), w1).
Proof.
  intros Hd. destruct (loadJson_reads p w) as [r Hr].
  rewrite Hr. cbn [fst].
  eapply reads_same; [apply loadJson_reads_disk | exact Hr | exact Hd].
Qed.

Lemma listing_lines_run w files : forall index w1,
  disk w1 = disk w ->
  forEach (fun index file =>
             try_catch
               (tokenData <- fileUtils.loadJson file ;;
                name <- lift (get_prop tokenData "name") ;;
                symbol <- lift (get_prop tokenData "symbol") ;;
                mintAddress <- lift (get_prop tokenData "mintAddress") ;;
                console_log [ Txt (JSON.number_to_string (Z.of_nat (index + 1)) ++ ".");
                              Js name;
                              Txt ("(" ++ js_toString symbol ++ ")");
                              Js mintAddress ])
               (fun error =>
                  log.error ("Error reading " ++ file ++ ": " ++ error_message error)))
          index files w1
  = (Ok tt, tell w1 (listing_lines w index files)).
Proof.
  induction files as [|file files IH]; intros index w1 Hd.
  - cbn [forEach listing_lines]. rewrite tell_nil. reflexivity.
  - cbn [forEach listing_lines].
    match goal with
    | |- bind ?c ?k w1 = _ =>
        assert (Hstep : c w1 = (Ok tt, tell w1 [listing_line w index file]))
    end.
    { unfold try_catch, listing_line. unfold_console.
      unfold bind at 1. rewrite (loadJson_same file w w1 Hd), loadJson_stored.
      cbn [fst]. destruct (stored w file) as [data|e]; [|reflexivity].
      destruct (is_record data) eqn:Hrec.
      - rewrite !get_prop_record by exact Hrec. reflexivity.
      - rewrite (get_prop_not_record data "name") by exact Hrec. reflexivity. }
    erewrite bind_ok by exact Hstep. rewrite IH by exact Hd.
    rewrite tell_tell. reflexivity.
Qed.


(* --------------------------------------------------------------------- *)
(** ** The directories of the tool *)
(* --------------------------------------------------------------------- *)

Lemma ensureDir_full dir w :
  fileUtils.ensureDir dir w
  = (Ok tt,
     if is_file (disk w) dir || is_dir (disk w) dir then w
     else with_disk w (mkDisk (files (disk w)) (dirs (disk w) ++ [dir]))).
Proof.
  unfold fileUtils.ensureDir. erewrite bind_ok by apply existsSync_run.
  destruct (is_file (disk w) dir) eqn:Hf, (is_dir (disk w) dir) eqn:Hd; cbn [orb negb];
    try reflexivity.
  apply mkdirSync_run; assumption.
Qed.

Lemma ensureDir_effect dir w :
  exists w',
    fileUtils.ensureDir dir w = (Ok tt, w')
    /\ files (disk w') = files (disk w)
    /\ console w' = console w
    /\ (forall p, is_dir (disk w') p
                  = is_dir (disk w) p
                    || (String.eqb p dir && negb (is_file (disk w) dir))).
Proof.
  rewrite ensureDir_full. eexists. split; [reflexivity|].
  destruct (is_file (disk w) dir) eqn:Hf, (is_dir (disk w) dir) eqn:Hd; cbn [orb negb];
    repeat split; intros p; cbn [andb];
    try (rewrite andb_false_r, orb_false_r; reflexivity).
  - destruct (String.eqb p dir) eqn:E; cbn [andb]; [|rewrite orb_false_r; reflexivity].
    apply String.eqb_eq in E. subst p. rewrite Hd. reflexivity.
  - unfold is_dir. cbn [with_disk disk dirs]. rewrite existsb_app_last, andb_true_r.
    reflexivity.
Qed.

(** X21.  The directories of the tool are made once.  [initializeDirectories]
    returns normally, prints nothing and changes no file.  After it, each of
    the wallets, tokens and configuration paths that was not a regular file
    is a directory, every directory that existed still exists, and running
    it again changes nothing.  A regular file that stands at the tokens
    path is not noticed: the call succeeds, and the listing of the tokens
    throws afterwards. *)
Theorem initializeDirectories_is_idempotent w :
  exists w',
    initializeDirectories w = (Ok tt, w')
    /\ files (disk w') = files (disk w) /\ console w' = console w
    /\ (forall p, In p [CONFIG.PATHS.WALLETS; CONFIG.PATHS.TOKENS; CONFIG.PATHS.CONFIG] ->
          is_file (disk w) p = false -> is_dir (disk w') p = true)
    /\ (forall p, is_dir (disk w) p = true -> is_dir (disk w') p = true)
    /\ initializeDirectories w' = (Ok tt, w')
    /\ (is_file (disk w) CONFIG.PATHS.TOKENS = true ->
        is_dir (disk w) CONFIG.PATHS.TOKENS = false ->
        exists e, tokenUtils.listTokens w' = (Throw e, w')).
Proof.
  unfold initializeDirectories.
  destruct (ensureDir_effect CONFIG.PATHS.WALLETS w) as (w1 & H1 & F1 & C1 & D1).
  destruct (ensureDir_effect CONFIG.PATHS.TOKENS w1) as (w2 & H2 & F2 & C2 & D2).
  destruct (ensureDir_effect CONFIG.PATHS.CONFIG w2) as (w3 & H3 & F3 & C3 & D3).
  assert (Hfile : forall p, is_file (disk w3) p = is_file (disk w) p).
  { intros p. unfold is_file. rewrite F3, F2, F1. reflexivity. }
  assert (Hfile2 : forall p, is_file (disk w2) p = is_file (disk w) p).
  { intros p. unfold is_file. rewrite F2, F1. reflexivity. }
  assert (Hfile1 : forall p, is_file (disk w1) p = is_file (disk w) p).
  { intros p. unfold is_file. rewrite F1. reflexivity. }
  assert (Hdir : forall p,
             is_dir (disk w3) p
             = is_dir (disk w) p
               || (String.eqb p CONFIG.PATHS.WALLETS && negb (is_file (disk w) CONFIG.PATHS.WALLETS))
               || (String.eqb p CONFIG.PATHS.TOKENS && negb (is_file (disk w) CONFIG.PATHS.TOKENS))
               || (String.eqb p CONFIG.PATHS.CONFIG && negb (is_file (disk w) CONFIG.PATHS.CONFIG))).
  { intros p. rewrite D3, D2, D1, Hfile2, Hfile1. reflexivity. }
  exists w3. split.
  { erewrite bind_ok by exact H1. erewrite bind_ok by exact H2. exact H3. }
  split; [congruence|]. split; [congruence|]. split; [|split; [|split]].
  - intros p Hin Hf. rewrite Hdir. cbn [In] in Hin.
    destruct Hin as [<- | [<- | [<- | []]]]; rewrite Hf; cbn;
      rewrite ?orb_true_r; reflexivity.
  - intros p Hp. rewrite Hdir, Hp. reflexivity.
  - assert (Hall : forall p,
               In p [CONFIG.PATHS.WALLETS; CONFIG.PATHS.TOKENS; CONFIG.PATHS.CONFIG] ->
               is_file (disk w3) p || is_dir (disk w3) p = true).
    { intros p Hin. rewrite Hfile, Hdir. cbn [In] in Hin.
      destruct Hin as [<- | [<- | [<- | []]]];
        repeat match goal with
               | |- context [is_file (disk w) ?q] => destruct (is_file (disk w) q)
               | |- context [is_dir (disk w) ?q] => destruct (is_dir (disk w) q)
               end; reflexivity. }
    erewrite bind_ok by apply ensureDir_full.
    rewrite (Hall CONFIG.PATHS.WALLETS) by (cbn; tauto).
    erewrite bind_ok by apply ensureDir_full.
    rewrite (Hall CONFIG.PATHS.TOKENS) by (cbn; tauto).
    rewrite ensureDir_full, (Hall CONFIG.PATHS.CONFIG) by (cbn; tauto). reflexivity.
  - intros Hf Hd. unfold tokenUtils.listTokens, fileUtils.listFiles.
    erewrite bind_ok by apply existsSync_run. rewrite Hfile, Hf. cbn [orb negb].
    unfold fs.readdirSync. unfold bind at 1. unfold bind at 1. unfold get_disk.
    rewrite Hdir, Hfile, Hd, Hf. cbn. eexists. reflexivity.
Qed.

(* --------------------------------------------------------------------- *)
(** ** The whole mint *)
(* --------------------------------------------------------------------- *)

Lemma ran_called w n w1 :
  ran w w1 n ->
  ran w (mkWorld (disk w1) (console w1) (shell w1) (S (executed w1))) (S n).
Proof. intros (Hd & Hs & He). unfold ran. cbn. rewrite Hd, Hs, He. auto. Qed.

Lemma ran_told w n w1 evs : ran w w1 n -> ran w (tell w1 evs) n.
Proof. intros (Hd & Hs & He). unfold ran. cbn. auto. Qed.

Lemma createAta_run tokenAddress recipient network w :
  exists w', createAta tokenAddress recipient network w = (Ok tt, w') /\ ran w w' 1.
Proof.
  unfold createAta. unfold_console. rewrite bind_emit. unfold try_catch.
  rewrite bind_exec. cbn [tell shell executed disk console].
  destruct (shell w (executed w) _) as [out|e].
  - destruct (negb _ && negb _); eexists; (split; [reflexivity|]);
      unfold ran; cbn; repeat split.
  - destruct (includes _ _); eexists; (split; [reflexivity|]);
      unfold ran; cbn; repeat split.
Qed.

Lemma checkBalance_run tokenAddress recipient network w :
  exists w', checkBalance tokenAddress recipient network w = (Ok tt, w') /\ ran w w' 1.
Proof.
  unfold checkBalance. unfold_console. rewrite bind_emit. unfold try_catch.
  rewrite bind_exec. cbn [tell shell executed disk console].
  destruct (shell w (executed w) _) as [out|e];
    eexists; (split; [reflexivity|]); unfold ran; cbn; repeat split.
Qed.

Lemma mintCommand_run tokenAddress recipient amount network w :
  exists w',
    mintCommand tokenAddress recipient amount network w
    = (match answer w 0 (mintCmd tokenAddress recipient amount network) with
       | Ok _ => Ok tt
       | Throw e => Throw e
       end, w')
    /\ ran w w' 1.
Proof.
  unfold mintCommand. unfold_console. rewrite !bind_emit, bind_exec.
  cbn [tell shell executed disk console].
  change (shell w (executed w) _)
    with (answer w 0 (mintCmd tokenAddress recipient amount network)).
  destruct (answer w 0 (mintCmd tokenAddress recipient amount network)) as [out|e].
  - unfold when.
    destruct (negb (stderr out =? "")%string && negb (includes (stderr out) "Signature:"));
      destruct (stdout out =? "")%string; cbn [negb];
      try destruct (match_signature (stdout out));
      run_emits; eexists; (split; [reflexivity|]); unfold ran; cbn; repeat split.
  - eexists. split; [reflexivity|]. unfold ran. cbn. repeat split.
Qed.

Lemma mint_displayResults_prints tokenAddress recipient amount network :
  prints_ok (mint_displayResults tokenAddress recipient amount network).
Proof.
  unfold mint_displayResults, when, displayUtils.displayExplorerLinks. branches; printing.
Qed.

Lemma mint_failed_says e : says (mint_failed e) (Throw e) (events_of (mint_failed e)).
Proof.
  apply says_canonical. unfold mint_failed. unfold_console.
  eexists. eapply says_bind; [apply says_emit|].
  eapply says_bind; [|apply says_throw].
  apply prints_ok_says. branches; printing.
Qed.

Lemma mint_updateTokenInfo_returns tokenAddress tokenInfo amount now :
  post (mint_updateTokenInfo tokenAddress tokenInfo amount now)
       (fun _ => True) (fun _ => False).
Proof. unfold mint_updateTokenInfo. returning. Qed.

Lemma mint_nextAction_prints tokenAddress network nextAction again :
  nextAction <> "mint-more" ->
  prints_ok (mint_nextAction tokenAddress network nextAction again).
Proof.
  intros Hn. unfold mint_nextAction. apply String.eqb_neq in Hn. rewrite Hn.
  branches; printing.
Qed.

Lemma mint_displayResults_returns tokenAddress recipient amount network :
  post (mint_displayResults tokenAddress recipient amount network)
       (fun _ => True) (fun _ => False).
Proof.
  unfold mint_displayResults, displayUtils.displayExplorerLinks. returning.
Qed.

Lemma mint_nextAction_returns tokenAddress network nextAction again :
  nextAction <> "mint-more" ->
  post (mint_nextAction tokenAddress network nextAction again)
       (fun _ => True) (fun _ => False).
Proof.
  intros Hn. unfold mint_nextAction. apply String.eqb_neq in Hn. rewrite Hn.
  destruct (nextAction =? "explorer")%string; returning.
Qed.

Lemma mint_end_returns tokenAddress tokenInfo recipient amount network nextAction again now w :
  nextAction <> "mint-more" ->
  exists w',
    (mint_displayResults tokenAddress recipient amount network ;;
     mint_updateTokenInfo tokenAddress tokenInfo amount now ;;
     mint_nextAction tokenAddress network nextAction again) w = (Ok tt, w').
Proof.
  intros Hn.
  match goal with
  | |- exists w', ?c w = _ =>
      assert (Hpost : post c (fun _ => True) (fun _ => False))
  end.
  { eapply post_bind with (P' := fun _ => True);
      [apply mint_displayResults_returns|intros ? _].
    eapply post_bind with (P' := fun _ => True);
      [apply mint_updateTokenInfo_returns|intros ? _].
    apply mint_nextAction_returns, Hn. }
  destruct (post_fst _ w Hpost) as [a Ha].
  match goal with
  | |- exists w', ?c w = _ => destruct (c w) as [[[]|e] w']
  end; [eauto|discriminate Ha].
Qed.


(* --------------------------------------------------------------------- *)
(** ** The record after an update of the metadata *)
(* --------------------------------------------------------------------- *)

Lemma collect_updates_cases fieldsToUpdate answers :
  exists b1 b2 b3 b4 b5,
    list_includes fieldsToUpdate "name" = b1
    /\ list_includes fieldsToUpdate "symbol" = b2
    /\ list_includes fieldsToUpdate "description" = b3
    /\ list_includes fieldsToUpdate "image" = b4
    /\ list_includes fieldsToUpdate "externalUrl" = b5
    /\ collect_updates fieldsToUpdate answers
       = ((if b1 then [("name", VStr (answers "name"))] else [])
          ++ (if b2 then [("symbol", VStr (answers "symbol"))] else [])
          ++ (if b3 then [("description", VStr (answers "description"))] else [])
          ++ (if b4 then [("image", VStr (answers "image"))] else [])
          ++ (if b5 then [("externalUrl", VStr (answers "externalUrl"))] else []))%list.
Proof.
  unfold collect_updates. cbn [fold_left].
  destruct (list_includes fieldsToUpdate "name"),
           (list_includes fieldsToUpdate "symbol"),
           (list_includes fieldsToUpdate "description"),
           (list_includes fieldsToUpdate "image"),
           (list_includes fieldsToUpdate "externalUrl");
    do 5 eexists; repeat (split; [reflexivity|]); reflexivity.
Qed.

Lemma field_collect_updates props fieldsToUpdate answers k :
  field (set_props props (collect_updates fieldsToUpdate answers)) k
  = if list_includes ["name"; "symbol"; "description"; "image"; "externalUrl"] k
       && list_includes fieldsToUpdate k
    then VStr (answers k)
    else field props k.
Proof.
  destruct (collect_updates_cases fieldsToUpdate answers)
    as (b1 & b2 & b3 & b4 & b5 & H1 & H2 & H3 & H4 & H5 & ->).
  assert (Hin : forall lit b, list_includes fieldsToUpdate lit = b ->
                 String.eqb k lit = true -> list_includes fieldsToUpdate k = b).
  { intros lit b Hb E. apply String.eqb_eq in E. subst k. exact Hb. }
  unfold list_includes at 1. cbn [existsb].
  destruct (String.eqb k "name") eqn:E1; [rewrite ?(Hin _ _ H1 E1)|];
  (destruct (String.eqb k "symbol") eqn:E2; [rewrite ?(Hin _ _ H2 E2)|]);
  (destruct (String.eqb k "description") eqn:E3; [rewrite ?(Hin _ _ H3 E3)|]);
  (destruct (String.eqb k "image") eqn:E4; [rewrite ?(Hin _ _ H4 E4)|]);
  (destruct (String.eqb k "externalUrl") eqn:E5; [rewrite ?(Hin _ _ H5 E5)|]);
  try (apply String.eqb_eq in E1; subst k; discriminate);
  try (apply String.eqb_eq in E2; subst k; discriminate);
  try (apply String.eqb_eq in E3; subst k; discriminate);
  try (apply String.eqb_eq in E4; subst k; discriminate);
  destruct b1, b2, b3, b4, b5;
  cbn [app set_props fold_left fst snd orb andb];
  rewrite ?field_set_prop, ?E1, ?E2, ?E3, ?E4, ?E5;
  try reflexivity;
  repeat match goal with
         | E : String.eqb k _ = true |- _ => apply String.eqb_eq in E; subst k
         end; reflexivity.
Qed.

Lemma collect_updates_strings fieldsToUpdate answers :
  forallb (fun kv => storable (snd kv)) (collect_updates fieldsToUpdate answers) = true.
Proof.
  destruct (collect_updates_cases fieldsToUpdate answers)
    as (b1 & b2 & b3 & b4 & b5 & _ & _ & _ & _ & _ & ->).
  destruct b1, b2, b3, b4, b5; reflexivity.
Qed.

Lemma collect_updates_plain fieldsToUpdate answers :
  forallb (fun kv => plain_name (fst kv)) (collect_updates fieldsToUpdate answers) = true.
Proof.
  destruct (collect_updates_cases fieldsToUpdate answers)
    as (b1 & b2 & b3 & b4 & b5 & _ & _ & _ & _ & _ & ->).
  destruct b1, b2, b3, b4, b5; reflexivity.
Qed.


(* --------------------------------------------------------------------- *)
(** ** Tokens without a record *)
(* --------------------------------------------------------------------- *)

(** X24.  An update of the metadata creates no record.  When no record
    listed in the tokens directory has the address of the token, the update
    of the record that follows an update of the metadata returns normally and
    changes nothing but the console, where it prints nothing or, when the
    search itself failed, one warning: a record is only ever rewritten. *)
Theorem update_of_unknown_mint_writes_nothing
    w tokenAddress tokenInfo updates metadataUri signature now :
  matches_no_record w tokenAddress ->
  exists evs,
    update_updateTokenInfo tokenAddress tokenInfo updates metadataUri signature now w
    = (Ok tt, tell w evs)
    /\ silent_or_warned evs.
Proof.
  intros Hno. unfold update_updateTokenInfo.
  destruct (truthy tokenInfo).
  2:{ exists []. rewrite tell_nil. split; [reflexivity|left; reflexivity]. }
  destruct (findTokenFile_not_found w tokenAddress Hno) as [Hf|[e Hf]].
  - exists []. rewrite tell_nil. split; [|left; reflexivity].
    erewrite try_ok; [reflexivity|]. erewrite bind_ok by exact Hf. reflexivity.
  - exists [Log LWarning "Could not update token info file"].
    split; [|right; reflexivity].
    erewrite try_throw by (erewrite bind_throw by exact Hf; reflexivity). reflexivity.
Qed.

End Proofs.

(** ** Examples *)

#[local] Existing Instance plain_paths.

(** C1 on the buffer of the scenario. *)
Lemma mint_account_decoding_witness :
  u8_wf scenario_mint_data /\ 82 <= u8_length scenario_mint_data
  /\ parseMintAccount scenario_mint_data blank
     = (Ok (Some {| supply := 0; decimals := VNum 0; isInitialized := true |}), blank).
Proof.
  assert (Hwf : u8_wf scenario_mint_data) by (unfold u8_wf; cbn; lia).
  assert (Hlen : 82 <= u8_length scenario_mint_data) by (cbn; lia).
  split; [exact Hwf|]. split; [exact Hlen|].
  destruct (mint_account_decoding scenario_mint_data Hwf Hlen) as (Hrun & _ & Hsc).
  rewrite Hrun. rewrite Hsc; reflexivity.
Defined.

(** C3 on DEVNET. *)
Lemma explorer_links_witness :
  toLowerCase "DEVNET" = "devnet"
  /\ tokenUtils.getExplorerUrls "So11111111111111111111111111111111111111112" "address" "DEVNET"
     = {| solana := "https://explorer.solana.com/address/So11111111111111111111111111111111111111112?cluster=devnet";
          solscan := "https://solscan.io/address/So11111111111111111111111111111111111111112?cluster=devnet" |}.
Proof.
  split; [reflexivity|].
  exact (proj1 (proj1 (explorer_links "So11111111111111111111111111111111111111112"
                         "address" "DEVNET") (or_introl eq_refl))).
Defined.


Lemma example_world_has_no_other_mint :
  matches_no_record example_world other_mint.
Proof.
  intros name _ (content & data & mintAddress & Ha & Hp & Hg & He).
  cbn [example_world disk files assoc] in Ha.
  destruct (String.eqb _ example_path); [|discriminate].
  injection Ha as <-. vm_compute in Hp. injection Hp as <-.
  vm_compute in Hg. injection Hg as <-. vm_compute in He. discriminate.
Defined.

(** C4 on [example_world], for a mint address that its record does not have. *)
Lemma patch_of_unknown_mint_witness :
  matches_no_record example_world other_mint
  /\ (exists evs,
        mint_updateTokenInfo other_mint example_record 500
          "2025-01-01T00:00:00.000Z" example_world
        = (Ok tt, tell example_world evs) /\ silent_or_warned evs).
Proof.
  split; [exact example_world_has_no_other_mint|].
  exact (proj1 (patch_of_unknown_mint_writes_nothing example_world other_mint
                  example_record 500 [] "2025-01-01T00:00:00.000Z"
                  example_world_has_no_other_mint)).
Defined.

Lemma example_world_has_one_version :
  same_record (disk example_world) example_mint example_props.
Proof.
  intros name content data mintAddress _ Ha Hp _ _.
  cbn [example_world disk files assoc] in Ha.
  destruct (String.eqb _ example_path); [|discriminate].
  injection Ha as <-. vm_compute in Hp. injection Hp as <-. reflexivity.
Defined.





(** C2 on the empty buffer. *)
Lemma short_buffer_witness :
  u8_length empty_mint_data < 82
  /\ forall w, parseMintAccount empty_mint_data w = (Ok None, w).
Proof.
  assert (H1 : u8_length empty_mint_data < 82) by (cbn; lia).
  split; [exact H1|].
  exact (proj1 (short_buffer_is_undecodable empty_mint_data H1)).
Defined.

(** C2, as the specification has it, fails.  The empty buffer is shorter than
    82 bytes; its decoding returns [null] and prints nothing, and the
    inspection of such an account ends normally with a console that holds
    neither the message that the account data could not be parsed nor any
    other warning. *)
Lemma short_buffer_is_skipped_silently :
  u8_length empty_mint_data < 82
  /\ parseMintAccount empty_mint_data blank = (Ok None, blank)
  /\ fst (short_buffer_inspection blank) = Ok tt
  /\ ~ In could_not_parse (console (snd (short_buffer_inspection blank)))
  /\ forall message, ~ In (Log LWarning message) (console (snd (short_buffer_inspection blank))).
Proof.
  split; [cbn; lia|]. split; [reflexivity|]. split; [reflexivity|].
  assert (Hall : forall message,
             ~ In (Log LWarning message) (console (snd (short_buffer_inspection blank)))).
  { intros message. vm_compute. intuition discriminate. }
  split; [apply Hall | exact Hall].
Qed.

(** ** Examples of the further properties *)

(** X3 on the output of an accepted command. *)
Lemma signature_is_extracted_witness :
  mentions_signature "Approving... " = false
  /\ "5VERv8NMvzbJMEkV" <> ""
  /\ all_alnum "5VERv8NMvzbJMEkV" = true
  /\ starts_alnum " (confirmed)" = false
  /\ match_signature ("Approving... " ++ "Signature: " ++ "5VERv8NMvzbJMEkV" ++ " (confirmed)")
     = Some "5VERv8NMvzbJMEkV".
Proof.
  assert (H1 : mentions_signature "Approving... " = false) by reflexivity.
  assert (H2 : "5VERv8NMvzbJMEkV" <> "") by discriminate.
  assert (H3 : all_alnum "5VERv8NMvzbJMEkV" = true) by reflexivity.
  assert (H4 : starts_alnum " (confirmed)" = false) by reflexivity.
  split; [exact H1|]. split; [exact H2|]. split; [exact H3|]. split; [exact H4|].
  exact (signature_is_extracted "Approving... " "5VERv8NMvzbJMEkV" " (confirmed)" H1 H2 H3 H4).
Defined.

(** X4 on a line in capitals. *)
Lemma signature_is_alphanumeric_witness :
  match_signature "SIGNATURE: 5VERv8 ok" = Some "5VERv8"
  /\ "5VERv8" <> "" /\ all_alnum "5VERv8" = true.
Proof.
  assert (H : match_signature "SIGNATURE: 5VERv8 ok" = Some "5VERv8") by reflexivity.
  split; [exact H|].
  destruct (signature_is_alphanumeric "SIGNATURE: 5VERv8 ok" "5VERv8" H) as (H1 & H2 & _).
  split; [exact H1 | exact H2].
Defined.

(** X7 on [example_world], for an address typed by hand. *)
Lemma manual_revocation_keeps_the_disk_witness :
  truthy VNull = false
  /\ disk (snd (revokeAuthorities other_mint VNull ["mint"; "freeze"]
                  "./wallets/wallet.json" "devnet" "2025-01-01T00:00:00.000Z"
                  example_world))
     = disk example_world.
Proof.
  assert (H : truthy VNull = false) by reflexivity.
  split; [exact H|].
  exact (manual_revocation_keeps_the_disk example_world other_mint VNull ["mint"; "freeze"]
           "./wallets/wallet.json" "devnet" "2025-01-01T00:00:00.000Z" H).
Defined.


Lemma example_record_is_found :
  findTokenFile example_mint example_world = (Ok (Some example_path), example_world).
Proof. vm_compute. reflexivity. Defined.

Lemma example_record_is_writable : writable (disk example_world) example_path.
Proof.
  repeat split; try reflexivity. intros E. vm_compute in E. discriminate E.
Defined.



(** X11 on the buffer of the scenario. *)
Lemma decoder_never_warns_witness :
  u8_wf scenario_mint_data
  /\ exists mintInfo, forall w, parseMintAccount scenario_mint_data w = (Ok mintInfo, w).
Proof.
  assert (Hwf : u8_wf scenario_mint_data) by (unfold u8_wf; cbn; lia).
  split; [exact Hwf|].
  destruct (decoder_never_warns scenario_mint_data Hwf) as (mintInfo & Hrun & _).
  exists mintInfo. exact Hrun.
Defined.

(** X14 on [example_config]. *)
Lemma validateTokenConfig_accepts_witness :
  field example_config "name" = VStr "Alpha"
  /\ field example_config "symbol" = VStr "ALP"
  /\ field example_config "description" = VStr "The first token"
  /\ field example_config "decimals" = VNum 9
  /\ @validateTokenConfig plain_order (VObj example_config) <> Ok false.
Proof.
  assert (H1 : field example_config "name" = VStr "Alpha") by reflexivity.
  assert (H2 : field example_config "symbol" = VStr "ALP") by reflexivity.
  assert (H3 : field example_config "description" = VStr "The first token") by reflexivity.
  assert (H4 : field example_config "decimals" = VNum 9) by reflexivity.
  split; [exact H1|]. split; [exact H2|]. split; [exact H3|]. split; [exact H4|].
  exact (proj1 (proj2 (@validateTokenConfig_accepts plain_order example_config
                         "Alpha" "ALP" "The first token" H1 H2 H3
                         (or_intror (ex_intro _ 9%Z H4))))).
Defined.


Lemma example_listing :
  fileUtils.listFiles CONFIG.PATHS.TOKENS ".json" example_world
  = (Ok [example_path], example_world).
Proof. vm_compute. reflexivity. Defined.




(** X24 on [example_world], for a mint address that its record does not
    have. *)
Lemma update_of_unknown_mint_witness :
  matches_no_record example_world other_mint
  /\ exists evs,
       update_updateTokenInfo other_mint example_record
         (collect_updates ["name"] example_answers)
         "https://gateway.pinata.cloud/ipfs/QmExample" "00ff"
         "2025-01-01T00:00:00.000Z" example_world
       = (Ok tt, tell example_world evs)
       /\ silent_or_warned evs.
Proof.
  split; [exact example_world_has_no_other_mint|].
  exact (update_of_unknown_mint_writes_nothing example_world other_mint example_record
           (collect_updates ["name"] example_answers)
           "https://gateway.pinata.cloud/ipfs/QmExample" "00ff"
           "2025-01-01T00:00:00.000Z" example_world_has_no_other_mint).
Defined.

(** ** Examples of the reading of JSON texts *)

(** Fractions, exponents and integers beyond 2^53 are read as the doubles
    that they denote. *)
Lemma numbers_are_read_as_doubles :
  JSON.parse "[0.5, 1e3, -2.5E-1, 9007199254740993, 1e999, 0.1]"
  = Ok (VArr [ VReal (Dyadic 1 1); VNum 1000; VReal (Dyadic (-1) 2);
               VNum 9007199254740992; VReal (Infinite false);
               VReal (Dyadic 3602879701896397 55) ])
  /\ JSON.stringify (VArr [ VReal (Dyadic 1 1); VNum 1000; VReal (Dyadic (-1) 2);
                            VNum 9007199254740992; VReal (Infinite false);
                            VReal (Dyadic 3602879701896397 55) ])
     = Some ("[" ++ JSON.nl ++ "  0.5," ++ JSON.nl ++ "  1000," ++ JSON.nl ++ "  -0.25,"
               ++ JSON.nl ++ "  9007199254740992," ++ JSON.nl ++ "  null," ++ JSON.nl
               ++ "  0.1" ++ JSON.nl ++ "]").
Proof. split; vm_compute; reflexivity. Qed.

(** An escape above 00ff is read as its code unit, and the keys that are
    array indices come first, in ascending order. *)
Lemma escapes_and_keys_are_read :
  JSON.parse ("[" ++ JSON.quote "\u4e2dA" ++ "]") = Ok (VArr [VStr "\u4e2dA"])
  /\ JSON.parse ("[" ++ String JSON.dquote ("\u4e2dA" ++ String JSON.dquote "]"))
     = Ok (VArr [VWide [20013%N; 65%N]])
  /\ JSON.parse ("{" ++ JSON.quote "b" ++ ": 1, " ++ JSON.quote "10" ++ ": 2, "
                    ++ JSON.quote "2" ++ ": 3, " ++ JSON.quote "b" ++ ": 4}")
     = Ok (VObj [("2", VNum 3); ("10", VNum 2); ("b", VNum 4)]).
Proof. repeat split; vm_compute; reflexivity. Qed.

(** The record with a fraction is found by its mint address, and a mint
    adds to the fraction. *)
Lemma fraction_record_is_updated :
  findTokenFile example_mint half_world = (Ok (Some half_path), half_world)
  /\ exists w',
       mint_updateTokenInfo example_mint (VObj half_props) 3 "2025-01-01T00:00:00.000Z"
         half_world
       = (Ok tt, w')
       /\ exists record,
            stored w' half_path = Ok record
            /\ get_prop record "totalMinted" = Ok (VReal (Dyadic 7 1)).
Proof.
  split; [vm_compute; reflexivity|].
  eexists. split; [vm_compute; reflexivity|].
  eexists. split; vm_compute; reflexivity.
Qed.

(** X15 on a wallet of 64 fractions: it is accepted. *)
Lemma loadWallet_checks_the_shape_only_witness :
  fst (loadWallet half_wallet_path half_wallet_world)
  = Ok (VArr (repeat (VReal (Dyadic 1 1)) 64)).
Proof.
  apply (proj1 (loadWallet_checks_the_shape_only half_wallet_path half_wallet_world)).
  exists ("[" ++ String.concat "," (repeat "0.5" 64) ++ "]"),
         (repeat (VReal (Dyadic 1 1)) 64).
  split; [reflexivity|]. split; [vm_compute; reflexivity|]. split; reflexivity.
Defined.

